(** * CNSSolver: finite-volume Navier-Stokes solver (SU2 7.0.8)

    A shallow embedding of [SU2_CFD/src/solvers/CNSSolver.cpp]: the
    primitive-variable update, the edge viscous residual, the buffet
    monitor, the no-slip wall boundary conditions (heat flux, isothermal,
    conjugate heat transfer) and the wall-function shear-stress solve.

    [su2double] is a build-time alias in SU2 (a plain double or an
    algorithmic-differentiation type).  It is modelled here by the real
    numbers: every statement below is about the real-arithmetic meaning
    of the code, without rounding, overflow or NaN. *)

From Stdlib Require Import String Reals Lra Lia Arith ZArith Bool List
  Permutation.
Import ListNotations.

Open Scope R_scope.

(** * Scalars and fixed-size arrays *)

Definition su2double : Type := R.

(** Modelled from the spec: the constant [MAXNDIM] is declared outside
    src/; meshes are two- or three-dimensional, so local arrays hold three
    entries. *)
Definition MAXNDIM : nat := 3.

(** A C array of [su2double]; reads out of the written range are not
    modelled (the function is total). *)
Definition su2vector : Type := nat -> su2double.
Definition su2matrix : Type := nat -> nat -> su2double.

(** [su2double X[MAXNDIM] = {0.0}] and [new su2double [n] ()]. *)
Definition zeros : su2vector := fun _ => 0.
Definition zeros2 : su2matrix := fun _ _ => 0.

(** [X[i] = x]. *)
Definition vset (X : su2vector) (i : nat) (x : su2double) : su2vector :=
  fun k => if Nat.eqb k i then x else X k.

(** [X[i][j] = x]. *)
Definition mset (X : su2matrix) (i j : nat) (x : su2double) : su2matrix :=
  fun a b => if Nat.eqb a i && Nat.eqb b j then x else X a b.

(** [for (iDim = 0; iDim < n; iDim++) X[iDim] = f(iDim);] on an array that
    was zero-initialised. *)
Definition vfill (n : nat) (f : nat -> su2double) : su2vector :=
  fun k => if Nat.ltb k n then f k else 0.

(** [d = 0; for (i = 0; i < n; i++) d += f(i);], accumulated left to right. *)
Fixpoint accumulate (n : nat) (f : nat -> su2double) : su2double :=
  match n with
  | O => 0
  | S k => accumulate k f + f k
  end.

(** [for (i = 0; i < n; ++i) s = body(s, i);] *)
Definition for_loop {S : Type} (n : nat) (body : S -> nat -> S) (s : S) : S :=
  fold_left body (seq 0 n) s.

(** * The C math library over the reals *)

Module cmath.

Definition fabs (x : su2double) : su2double := Rabs x.

(** [std::pow]: for an integral exponent the repeated product (defined
    for every base), otherwise [exp (y ln x)] on a positive base.  A
    negative base with a fractional exponent is a domain error in C and
    is given the value 0 here. *)
Definition pow (x y : su2double) : su2double :=
  if Req_EM_T (IZR (Int_part y)) y then powerRZ x (Int_part y)
  else if Rlt_dec 0 x then Rpower x y
  else 0.

End cmath.

(** * Geometry toolbox *)

Module GeometryToolbox.

(** Modelled from the spec: [geometry_toolbox.hpp] is not under src/.
    The helpers are the Euclidean ones their names say: the dot product,
    the squared norm, the norm (the magnitude of a normal "encodes face
    area"), and the distance between two points. *)
Definition DotProduct (nDim : nat) (a b : su2vector) : su2double :=
  accumulate nDim (fun i => a i * b i).

Definition SquaredNorm (nDim : nat) (a : su2vector) : su2double :=
  accumulate nDim (fun i => a i * a i).

Definition Norm (nDim : nat) (a : su2vector) : su2double :=
  sqrt (SquaredNorm nDim a).

Definition SquaredDistance (nDim : nat) (a b : su2vector) : su2double :=
  accumulate nDim (fun i => (a i - b i) * (a i - b i)).

Definition Distance (nDim : nat) (a b : su2vector) : su2double :=
  sqrt (SquaredDistance nDim a b).

(** The four-argument overload: [d = a - b]. *)
Definition DistanceVec (nDim : nat) (a b : su2vector) : su2vector :=
  vfill nDim (fun i => a i - b i).

End GeometryToolbox.

(** * Option enumerations

    The enumerations live in [option_structure.hpp], outside src/.  Each
    type lists the enumerators the solver compares against and one
    constructor for every other value. *)

Inductive ENUM_TIME_INT : Type :=
| EULER_IMPLICIT
| OTHER_TIME_INT.

Inductive ENUM_TURB_MODEL : Type :=
| NONE
| SST
| SST_SUST
| OTHER_TURB_MODEL.

Inductive ENUM_HYBRIDRANSLES : Type :=
| NO_HYBRIDRANSLES
| OTHER_HYBRIDRANSLES.

Inductive BC_TYPE : Type :=
| HEAT_FLUX
| ISOTHERMAL
| CHT_WALL_INTERFACE
| OTHER_BC.

Inductive ANSWER : Type :=
| NO
| YES.

Inductive ENUM_OBJECTIVE : Type :=
| BUFFET_SENSOR
| OTHER_OBJECTIVE.

(** The coupling selector is an [unsigned short]; [OTHER_CHT_COUPLING]
    carries any value that is none of the four enumerators. *)
Inductive ENUM_CHT_COUPLING : Type :=
| DIRECT_TEMPERATURE_NEUMANN_HEATFLUX
| AVERAGED_TEMPERATURE_NEUMANN_HEATFLUX
| DIRECT_TEMPERATURE_ROBIN_HEATFLUX
| AVERAGED_TEMPERATURE_ROBIN_HEATFLUX
| OTHER_CHT_COUPLING (raw : nat).

Definition time_int_eqb (a b : ENUM_TIME_INT) : bool :=
  match a, b with
  | EULER_IMPLICIT, EULER_IMPLICIT | OTHER_TIME_INT, OTHER_TIME_INT => true
  | _, _ => false
  end.

Definition turb_model_eqb (a b : ENUM_TURB_MODEL) : bool :=
  match a, b with
  | NONE, NONE | SST, SST | SST_SUST, SST_SUST
  | OTHER_TURB_MODEL, OTHER_TURB_MODEL => true
  | _, _ => false
  end.

Definition hybrid_eqb (a b : ENUM_HYBRIDRANSLES) : bool :=
  match a, b with
  | NO_HYBRIDRANSLES, NO_HYBRIDRANSLES
  | OTHER_HYBRIDRANSLES, OTHER_HYBRIDRANSLES => true
  | _, _ => false
  end.

Definition bc_eqb (a b : BC_TYPE) : bool :=
  match a, b with
  | HEAT_FLUX, HEAT_FLUX | ISOTHERMAL, ISOTHERMAL
  | CHT_WALL_INTERFACE, CHT_WALL_INTERFACE | OTHER_BC, OTHER_BC => true
  | _, _ => false
  end.

Definition answer_eqb (a b : ANSWER) : bool :=
  match a, b with
  | NO, NO | YES, YES => true
  | _, _ => false
  end.

Definition objective_eqb (a b : ENUM_OBJECTIVE) : bool :=
  match a, b with
  | BUFFET_SENSOR, BUFFET_SENSOR | OTHER_OBJECTIVE, OTHER_OBJECTIVE => true
  | _, _ => false
  end.

Definition cht_eqb (a b : ENUM_CHT_COUPLING) : bool :=
  match a, b with
  | DIRECT_TEMPERATURE_NEUMANN_HEATFLUX, DIRECT_TEMPERATURE_NEUMANN_HEATFLUX
  | AVERAGED_TEMPERATURE_NEUMANN_HEATFLUX, AVERAGED_TEMPERATURE_NEUMANN_HEATFLUX
  | DIRECT_TEMPERATURE_ROBIN_HEATFLUX, DIRECT_TEMPERATURE_ROBIN_HEATFLUX
  | AVERAGED_TEMPERATURE_ROBIN_HEATFLUX, AVERAGED_TEMPERATURE_ROBIN_HEATFLUX => true
  | OTHER_CHT_COUPLING a, OTHER_CHT_COUPLING b => Nat.eqb a b
  | _, _ => false
  end.

(** * Configuration and geometry providers *)

(** The getters of [CConfig] that the solver calls. *)
Record CConfig : Type := {
  GetKind_TimeIntScheme : ENUM_TIME_INT;
  GetKind_Turb_Model : ENUM_TURB_MODEL;
  GetKind_HybridRANSLES : ENUM_HYBRIDRANSLES;
  GetnMarker_All : nat;
  GetMarker_All_KindBC : nat -> BC_TYPE;
  GetMarker_All_Monitoring : nat -> ANSWER;
  GetMarker_All_TagBound : nat -> string;
  GetMarker_All_PyCustom : nat -> bool;
  GetViscous_Wall : nat -> bool;
  GetnMarker_Monitoring : nat;
  GetMarker_Monitoring_TagBound : nat -> string;
  GetWeight_ObjFunc : nat -> su2double;
  GetKind_ObjFunc : nat -> ENUM_OBJECTIVE;
  GetVelocity_FreeStream : su2vector;
  GetRefArea : su2double;
  GetBuffet_k : su2double;
  GetBuffet_lambda : su2double;
  GetWall_HeatFlux : string -> su2double;
  GetHeat_Flux_Ref : su2double;
  GetIsothermal_Temperature : string -> su2double;
  GetKind_CHT_Coupling : ENUM_CHT_COUPLING;
  GetViscosity_Ref : su2double;
  GetTemperature_Ref : su2double;
  GetPrandtl_Lam : su2double;
  GetPrandtl_Turb : su2double;
  GetGas_ConstantND : su2double
}.

(** [geometry->vertex[iMarker][iVertex]]. *)
Record CVertex : Type := {
  GetNode : nat;
  GetNormal : su2vector;
  GetNormal_Neighbor : nat
}.

(** The accessors of [CGeometry] (with its [nodes] and [edges]) that the
    solver calls. *)
Record CGeometry : Type := {
  nVertex : nat -> nat;
  vertex : nat -> nat -> CVertex;
  GetDomain : nat -> bool;
  GetCoord : nat -> su2vector;
  GetGridVel : nat -> su2vector;
  edges_GetNode : nat -> nat -> nat;
  edges_GetNormal : nat -> su2vector;
  GetCustomBoundaryHeatFlux : nat -> nat -> su2double;
  GetCustomBoundaryTemperature : nat -> nat -> su2double
}.

(** * Solver data

    The classes below are declared outside src/ ([CVariable], [CSysVector],
    [CSysMatrix], [CNumerics]); their members are modelled as the solver
    uses them. *)

(** [solver_container[TURB_SOL]->GetNodes()]. *)
Record CTurbVariable : Type := {
  GetmuT : nat -> su2double;
  GetSolution : nat -> nat -> su2double;
  GetDES_LengthScale : nat -> su2double
}.

(** The per-point arrays of [CNSVariable] that the solver reads and writes. *)
Record CNSVariable : Type := {
  Primitive : nat -> su2vector;
  Secondary : nat -> su2vector;
  Gradient_Primitive : nat -> su2matrix;
  Velocity_Old : nat -> su2vector;
  Res_TruncError : nat -> su2vector;
  Tau_Wall : nat -> su2double
}.

Module CVariable.

(** Modelled from the spec: the accessors of [CNSVariable] are not under
    src/.  The primitive tuple is laid out as the comment in
    [SetPrimitive_Variables] gives it:
    (T, vx, vy, vz, P, rho, h, c, lamMu, eddyMu, ThCond, Cp). *)
Definition GetTemperature (nodes : CNSVariable) (iPoint : nat) : su2double :=
  Primitive nodes iPoint 0%nat.

Definition GetVelocity (nodes : CNSVariable) (iPoint iDim : nat) : su2double :=
  Primitive nodes iPoint (iDim + 1)%nat.

Definition GetPressure (nDim : nat) (nodes : CNSVariable) (iPoint : nat)
  : su2double :=
  Primitive nodes iPoint (nDim + 1)%nat.

Definition GetDensity (nDim : nat) (nodes : CNSVariable) (iPoint : nat)
  : su2double :=
  Primitive nodes iPoint (nDim + 2)%nat.

Definition GetLaminarViscosity (nDim : nat) (nodes : CNSVariable) (iPoint : nat)
  : su2double :=
  Primitive nodes iPoint (nDim + 5)%nat.

Definition GetEddyViscosity (nDim : nat) (nodes : CNSVariable) (iPoint : nat)
  : su2double :=
  Primitive nodes iPoint (nDim + 6)%nat.

Definition GetTauWall (nodes : CNSVariable) (iPoint : nat) : su2double :=
  Tau_Wall nodes iPoint.

Definition SetTauWall (nodes : CNSVariable) (iPoint : nat) (val : su2double)
  : CNSVariable :=
  {| Primitive := Primitive nodes;
     Secondary := Secondary nodes;
     Gradient_Primitive := Gradient_Primitive nodes;
     Velocity_Old := Velocity_Old nodes;
     Res_TruncError := Res_TruncError nodes;
     Tau_Wall := fun p => if Nat.eqb p iPoint then val else Tau_Wall nodes p |}.

(** Modelled from the spec: "overwrite the stored old velocity" of the
    vertex with the given vector, component by component. *)
Definition SetVelocity_Old (nDim : nat) (nodes : CNSVariable) (iPoint : nat)
    (val_velocity : su2vector) : CNSVariable :=
  {| Primitive := Primitive nodes;
     Secondary := Secondary nodes;
     Gradient_Primitive := Gradient_Primitive nodes;
     Velocity_Old := fun p iDim =>
       if Nat.eqb p iPoint && Nat.ltb iDim nDim then val_velocity iDim
       else Velocity_Old nodes p iDim;
     Res_TruncError := Res_TruncError nodes;
     Tau_Wall := Tau_Wall nodes |}.

(** Modelled from the spec: "zero ... its accumulated truncation error"
    in the momentum rows of the vertex. *)
Definition SetVel_ResTruncError_Zero (nDim : nat) (nodes : CNSVariable)
    (iPoint : nat) : CNSVariable :=
  {| Primitive := Primitive nodes;
     Secondary := Secondary nodes;
     Gradient_Primitive := Gradient_Primitive nodes;
     Velocity_Old := Velocity_Old nodes;
     Res_TruncError := fun p iVar =>
       if Nat.eqb p iPoint && Nat.leb 1 iVar && Nat.leb iVar nDim then 0
       else Res_TruncError nodes p iVar;
     Tau_Wall := Tau_Wall nodes |}.

End CVariable.

(** A block vector: one block of [nVar] entries per point (or per edge). *)
Definition CSysVector : Type := nat -> su2vector.

(** A block matrix: the block in block row [i] and block column [j]. *)
Definition CSysMatrix : Type := nat -> nat -> su2matrix.

Module SysVector.

(** [vec(iPoint, iVar) = x]. *)
Definition SetEntry (vec : CSysVector) (iPoint iVar : nat) (x : su2double)
  : CSysVector :=
  fun p v => if Nat.eqb p iPoint && Nat.eqb v iVar then x else vec p v.

(** Modelled from the spec: "subtracts the flux from vertex i's residual". *)
Definition SubtractBlock (nVar : nat) (vec : CSysVector) (iPoint : nat)
    (block : su2vector) : CSysVector :=
  fun p v =>
    if Nat.eqb p iPoint && Nat.ltb v nVar then vec p v - block v else vec p v.

(** Modelled from the spec: "adds it to vertex j's residual". *)
Definition AddBlock (nVar : nat) (vec : CSysVector) (iPoint : nat)
    (block : su2vector) : CSysVector :=
  fun p v =>
    if Nat.eqb p iPoint && Nat.ltb v nVar then vec p v + block v else vec p v.

End SysVector.

Module SysMatrix.

(** Modelled from the spec: "add the moving-wall Jacobian block to the
    vertex's diagonal block". *)
Definition AddBlock2Diag (nVar : nat) (mat : CSysMatrix) (iPoint : nat)
    (block : su2matrix) : CSysMatrix :=
  fun bi bj iVar jVar =>
    if Nat.eqb bi iPoint && Nat.eqb bj iPoint
       && Nat.ltb iVar nVar && Nat.ltb jVar nVar
    then mat bi bj iVar jVar + block iVar jVar
    else mat bi bj iVar jVar.

(** Modelled from the spec: "forcibly zero every momentum-row off-diagonal
    entry in that vertex's Jacobian row ... and leave the diagonal ... at
    1.0"; the solver's own comment reads "modifying the velocity-rows of
    the Jacobian (1 on the diagonal)".  The scalar row [i] belongs to block
    row [i / nVar], at row [i mod nVar] inside the block. *)
Definition DeleteValsRowi (nVar : nat) (mat : CSysMatrix) (i : nat)
  : CSysMatrix :=
  let block_i := (i / nVar)%nat in
  let row := (i mod nVar)%nat in
  fun bi bj iVar jVar =>
    if Nat.eqb bi block_i && Nat.eqb iVar row then
      if Nat.eqb bj block_i && Nat.eqb jVar row then 1 else 0
    else mat bi bj iVar jVar.

(** Modelled from the spec: "updates the corresponding off-diagonal
    Jacobian blocks by subtraction for i and addition for j".  The block of
    row [i] that couples to [j] loses the flux derivative with respect to
    state [j]; the block of row [j] that couples to [i] gains the
    derivative with respect to state [i]. *)
Definition UpdateBlocksSub (nVar : nat) (mat : CSysMatrix) (iPoint jPoint : nat)
    (block_i block_j : su2matrix) : CSysMatrix :=
  fun bi bj iVar jVar =>
    if Nat.ltb iVar nVar && Nat.ltb jVar nVar then
      if Nat.eqb bi iPoint && Nat.eqb bj jPoint
      then mat bi bj iVar jVar - block_j iVar jVar
      else if Nat.eqb bi jPoint && Nat.eqb bj iPoint
      then mat bi bj iVar jVar + block_i iVar jVar
      else mat bi bj iVar jVar
    else mat bi bj iVar jVar.

End SysMatrix.

(** The members of [CNSSolver] (its own and the inherited ones) that the
    modelled routines touch. *)
Record CNSSolver : Type := {
  nDim : nat;
  nMarker : nat;
  Gamma : su2double;
  Gamma_Minus_One : su2double;
  dynamic_grid : bool;
  ReducerStrategy : bool;
  nodes : CNSVariable;
  LinSysRes : CSysVector;
  EdgeFluxes : CSysVector;
  Jacobian : CSysMatrix;
  ConjugateVar : nat -> nat -> nat -> su2double;
  CSkinFriction : nat -> nat -> nat -> su2double;
  Buffet_Sensor : nat -> nat -> su2double;
  Buffet_Metric : nat -> su2double;
  Surface_Buffet_Metric : nat -> su2double;
  Total_Buffet_Metric : su2double;
  Total_ComboObj : su2double
}.

(** Modelled from the spec: the conserved tuple of a vertex is (density,
    momentum, energy), [nDim + 2] equations; the energy row is [nDim + 1]. *)
Definition nVar (solver : CNSSolver) : nat := (nDim solver + 2)%nat.

(** [GetConjugateHeatVariable(val_marker, iVertex, pos)]. *)
Definition GetConjugateHeatVariable (solver : CNSSolver)
    (val_marker iVertex pos : nat) : su2double :=
  ConjugateVar solver val_marker iVertex pos.

Definition set_nodes (s : CNSSolver) (x : CNSVariable) : CNSSolver :=
  {| nDim := nDim s; nMarker := nMarker s; Gamma := Gamma s;
     Gamma_Minus_One := Gamma_Minus_One s; dynamic_grid := dynamic_grid s;
     ReducerStrategy := ReducerStrategy s; nodes := x;
     LinSysRes := LinSysRes s; EdgeFluxes := EdgeFluxes s;
     Jacobian := Jacobian s; ConjugateVar := ConjugateVar s;
     CSkinFriction := CSkinFriction s; Buffet_Sensor := Buffet_Sensor s;
     Buffet_Metric := Buffet_Metric s;
     Surface_Buffet_Metric := Surface_Buffet_Metric s;
     Total_Buffet_Metric := Total_Buffet_Metric s;
     Total_ComboObj := Total_ComboObj s |}.

Definition set_LinSysRes (s : CNSSolver) (x : CSysVector) : CNSSolver :=
  {| nDim := nDim s; nMarker := nMarker s; Gamma := Gamma s;
     Gamma_Minus_One := Gamma_Minus_One s; dynamic_grid := dynamic_grid s;
     ReducerStrategy := ReducerStrategy s; nodes := nodes s;
     LinSysRes := x; EdgeFluxes := EdgeFluxes s;
     Jacobian := Jacobian s; ConjugateVar := ConjugateVar s;
     CSkinFriction := CSkinFriction s; Buffet_Sensor := Buffet_Sensor s;
     Buffet_Metric := Buffet_Metric s;
     Surface_Buffet_Metric := Surface_Buffet_Metric s;
     Total_Buffet_Metric := Total_Buffet_Metric s;
     Total_ComboObj := Total_ComboObj s |}.

Definition set_EdgeFluxes (s : CNSSolver) (x : CSysVector) : CNSSolver :=
  {| nDim := nDim s; nMarker := nMarker s; Gamma := Gamma s;
     Gamma_Minus_One := Gamma_Minus_One s; dynamic_grid := dynamic_grid s;
     ReducerStrategy := ReducerStrategy s; nodes := nodes s;
     LinSysRes := LinSysRes s; EdgeFluxes := x;
     Jacobian := Jacobian s; ConjugateVar := ConjugateVar s;
     CSkinFriction := CSkinFriction s; Buffet_Sensor := Buffet_Sensor s;
     Buffet_Metric := Buffet_Metric s;
     Surface_Buffet_Metric := Surface_Buffet_Metric s;
     Total_Buffet_Metric := Total_Buffet_Metric s;
     Total_ComboObj := Total_ComboObj s |}.

Definition set_Jacobian (s : CNSSolver) (x : CSysMatrix) : CNSSolver :=
  {| nDim := nDim s; nMarker := nMarker s; Gamma := Gamma s;
     Gamma_Minus_One := Gamma_Minus_One s; dynamic_grid := dynamic_grid s;
     ReducerStrategy := ReducerStrategy s; nodes := nodes s;
     LinSysRes := LinSysRes s; EdgeFluxes := EdgeFluxes s;
     Jacobian := x; ConjugateVar := ConjugateVar s;
     CSkinFriction := CSkinFriction s; Buffet_Sensor := Buffet_Sensor s;
     Buffet_Metric := Buffet_Metric s;
     Surface_Buffet_Metric := Surface_Buffet_Metric s;
     Total_Buffet_Metric := Total_Buffet_Metric s;
     Total_ComboObj := Total_ComboObj s |}.

Definition set_Buffet_Sensor (s : CNSSolver) (x : nat -> nat -> su2double)
  : CNSSolver :=
  {| nDim := nDim s; nMarker := nMarker s; Gamma := Gamma s;
     Gamma_Minus_One := Gamma_Minus_One s; dynamic_grid := dynamic_grid s;
     ReducerStrategy := ReducerStrategy s; nodes := nodes s;
     LinSysRes := LinSysRes s; EdgeFluxes := EdgeFluxes s;
     Jacobian := Jacobian s; ConjugateVar := ConjugateVar s;
     CSkinFriction := CSkinFriction s; Buffet_Sensor := x;
     Buffet_Metric := Buffet_Metric s;
     Surface_Buffet_Metric := Surface_Buffet_Metric s;
     Total_Buffet_Metric := Total_Buffet_Metric s;
     Total_ComboObj := Total_ComboObj s |}.

Definition set_Buffet_Metric (s : CNSSolver) (x : nat -> su2double)
  : CNSSolver :=
  {| nDim := nDim s; nMarker := nMarker s; Gamma := Gamma s;
     Gamma_Minus_One := Gamma_Minus_One s; dynamic_grid := dynamic_grid s;
     ReducerStrategy := ReducerStrategy s; nodes := nodes s;
     LinSysRes := LinSysRes s; EdgeFluxes := EdgeFluxes s;
     Jacobian := Jacobian s; ConjugateVar := ConjugateVar s;
     CSkinFriction := CSkinFriction s; Buffet_Sensor := Buffet_Sensor s;
     Buffet_Metric := x;
     Surface_Buffet_Metric := Surface_Buffet_Metric s;
     Total_Buffet_Metric := Total_Buffet_Metric s;
     Total_ComboObj := Total_ComboObj s |}.

Definition set_Surface_Buffet_Metric (s : CNSSolver) (x : nat -> su2double)
  : CNSSolver :=
  {| nDim := nDim s; nMarker := nMarker s; Gamma := Gamma s;
     Gamma_Minus_One := Gamma_Minus_One s; dynamic_grid := dynamic_grid s;
     ReducerStrategy := ReducerStrategy s; nodes := nodes s;
     LinSysRes := LinSysRes s; EdgeFluxes := EdgeFluxes s;
     Jacobian := Jacobian s; ConjugateVar := ConjugateVar s;
     CSkinFriction := CSkinFriction s; Buffet_Sensor := Buffet_Sensor s;
     Buffet_Metric := Buffet_Metric s;
     Surface_Buffet_Metric := x;
     Total_Buffet_Metric := Total_Buffet_Metric s;
     Total_ComboObj := Total_ComboObj s |}.

Definition set_Total_Buffet_Metric (s : CNSSolver) (x : su2double)
  : CNSSolver :=
  {| nDim := nDim s; nMarker := nMarker s; Gamma := Gamma s;
     Gamma_Minus_One := Gamma_Minus_One s; dynamic_grid := dynamic_grid s;
     ReducerStrategy := ReducerStrategy s; nodes := nodes s;
     LinSysRes := LinSysRes s; EdgeFluxes := EdgeFluxes s;
     Jacobian := Jacobian s; ConjugateVar := ConjugateVar s;
     CSkinFriction := CSkinFriction s; Buffet_Sensor := Buffet_Sensor s;
     Buffet_Metric := Buffet_Metric s;
     Surface_Buffet_Metric := Surface_Buffet_Metric s;
     Total_Buffet_Metric := x;
     Total_ComboObj := Total_ComboObj s |}.

Definition set_Total_ComboObj (s : CNSSolver) (x : su2double) : CNSSolver :=
  {| nDim := nDim s; nMarker := nMarker s; Gamma := Gamma s;
     Gamma_Minus_One := Gamma_Minus_One s; dynamic_grid := dynamic_grid s;
     ReducerStrategy := ReducerStrategy s; nodes := nodes s;
     LinSysRes := LinSysRes s; EdgeFluxes := EdgeFluxes s;
     Jacobian := Jacobian s; ConjugateVar := ConjugateVar s;
     CSkinFriction := CSkinFriction s; Buffet_Sensor := Buffet_Sensor s;
     Buffet_Metric := Buffet_Metric s;
     Surface_Buffet_Metric := Surface_Buffet_Metric s;
     Total_Buffet_Metric := Total_Buffet_Metric s;
     Total_ComboObj := x |}.

(** * Primitive state updater: [CNSSolver::SetPrimitive_Variables] *)

Module PrimitiveUpdate.

Section Update.

(** Modelled from the spec: [CNSVariable::SetPrimVar], [SetSecondaryVar],
    [SetDES_LengthScale] and the fluid model are not under src/.  The
    update "is independent per vertex": the variable store is an array of
    per-vertex states, and the three setters read and write the state of
    the vertex they are called for; [SetPrimVar] also returns the physical
    flag. *)
Variable PointState : Type.
Variable CFluidModel : Type.
Variable SetPrimVar :
  PointState -> su2double -> su2double -> CFluidModel -> PointState * bool.
Variable SetSecondaryVar : PointState -> CFluidModel -> PointState.
Variable SetDES_LengthScale : PointState -> su2double -> PointState.

Definition VariableStore : Type := nat -> PointState.

Definition at_point (nodes : VariableStore) (iPoint : nat)
    (f : PointState -> PointState) : VariableStore :=
  fun k => if Nat.eqb k iPoint then f (nodes k) else nodes k.

Variable config : CConfig.
Variable TURB_SOL : option CTurbVariable.
Variable FluidModel : CFluidModel.

Definition tkeNeeded : bool :=
  turb_model_eqb (GetKind_Turb_Model config) SST
  || turb_model_eqb (GetKind_Turb_Model config) SST_SUST.

(** [turb_model != NONE && solver_container[TURB_SOL] != nullptr]. *)
Definition turbulence : option CTurbVariable :=
  if negb (turb_model_eqb (GetKind_Turb_Model config) NONE)
  then TURB_SOL else None.

Definition eddy_visc (iPoint : nat) : su2double :=
  match turbulence with
  | Some turb => GetmuT turb iPoint
  | None => 0
  end.

Definition turb_ke (iPoint : nat) : su2double :=
  match turbulence with
  | Some turb => if tkeNeeded then GetSolution turb iPoint 0 else 0
  | None => 0
  end.

(** The hybrid RANS/LES length scale is copied before the update. *)
Definition with_length_scale (iPoint : nat) (p : PointState) : PointState :=
  match turbulence with
  | Some turb =>
      if negb (hybrid_eqb (GetKind_HybridRANSLES config) NO_HYBRIDRANSLES)
      then SetDES_LengthScale p (GetDES_LengthScale turb iPoint)
      else p
  | None => p
  end.

(** [unsigned long] addition. *)
Definition ulong_add (a b : Z) : Z := ((a + b) mod 2 ^ 64)%Z.

(** The body of the loop over [iPoint]; [nonPhysicalPoints += !physical]. *)
Definition SetPrimitive_Variables_body
    (s : VariableStore * Z) (iPoint : nat) : VariableStore * Z :=
  let '(nodes, nonPhysicalPoints) := s in
  let nodes := at_point nodes iPoint (with_length_scale iPoint) in
  let '(prim, physical) :=
    SetPrimVar (nodes iPoint) (eddy_visc iPoint) (turb_ke iPoint) FluidModel in
  let nodes := at_point nodes iPoint (fun _ => prim) in
  let nodes := at_point nodes iPoint (fun p => SetSecondaryVar p FluidModel) in
  (nodes, ulong_add nonPhysicalPoints (if negb physical then 1 else 0)%Z).

(** One call of the routine: the updated store and the returned count.
    The loop is work-shared ([SU2_OMP_FOR_STAT], a macro defined outside
    src/): of the iterations 0 .. nPoint-1 the calling thread runs the ones
    that fall to it, which [share] lists in the order they are run, and
    [nonPhysicalPoints] is a local of the call ("local to the thread,
    needs further reduction if function is called in parallel"). *)
Definition SetPrimitive_Variables (share : list nat) (nodes : VariableStore)
  : VariableStore * Z :=
  fold_left SetPrimitive_Variables_body share (nodes, 0%Z).

(** A call that is not made by a team of threads (a build without OpenMP,
    or a team of one): the calling thread runs every iteration, in order. *)
Definition serial (nPoint : nat) : list nat := seq 0 nPoint.

(** The calls of the threads of a team on the store they share, each
    with its share of the iterations: the store they leave and the count
    returned to each thread.  An iteration reads and writes the state of
    its own vertex only, so the calls are run one after the other. *)
Definition SetPrimitive_Variables_team (shares : list (list nat))
    (nodes : VariableStore) : VariableStore * list Z :=
  fold_left
    (fun (s : VariableStore * list Z) share =>
       let '(nodes, returned) := s in
       let '(nodes, nonPhysicalPoints) := SetPrimitive_Variables share nodes in
       (nodes, returned ++ [nonPhysicalPoints]))
    shares (nodes, []).

(** What a work-sharing loop guarantees of the shares of a team: every
    iteration below [nPoint] is handed to a thread, and as many iterations
    are handed out as there are, so that each is run exactly once. *)
Definition work_shared (nPoint : nat) (shares : list (list nat)) : bool :=
  forallb (fun iPoint => existsb (Nat.eqb iPoint) (concat shares))
    (seq 0 nPoint)
  && Nat.eqb (length (concat shares)) nPoint.

(** What the update stores for one vertex, and the flag it reports. *)
Definition updated (nodes : VariableStore) (iPoint : nat) : PointState * bool :=
  let '(prim, physical) :=
    SetPrimVar (with_length_scale iPoint (nodes iPoint))
               (eddy_visc iPoint) (turb_ke iPoint) FluidModel in
  (SetSecondaryVar prim FluidModel, physical).

Definition nonphysical (nodes : VariableStore) (iPoint : nat) : bool :=
  negb (snd (updated nodes iPoint)).

(** How many of the first [n] vertices the update reports as non-physical. *)
Definition count_nonphysical (nodes : VariableStore) (n : nat) : nat :=
  length (filter (nonphysical nodes) (seq 0 n)).

(** How many of the vertices of a share it reports as non-physical. *)
Definition count_nonphysical_in (nodes : VariableStore) (share : list nat)
  : nat :=
  length (filter (nonphysical nodes) share).

End Update.

End PrimitiveUpdate.

(** * Edge viscous flux assembler: [CNSSolver::Viscous_Residual] *)

(** The inputs a [CNumerics] object holds for one edge. *)
Record CNumerics : Type := {
  Coord_i : su2vector;
  Coord_j : su2vector;
  Normal : su2vector;
  V_i : su2vector;
  V_j : su2vector;
  S_i : su2vector;
  S_j : su2vector;
  PrimVar_Grad_i : su2matrix;
  PrimVar_Grad_j : su2matrix;
  turb_ke_i : su2double;
  turb_ke_j : su2double;
  TauWall_i : su2double;
  TauWall_j : su2double
}.

(** What [ComputeResidual] returns: the flux and its two Jacobian blocks. *)
Record ResidualType : Type := {
  residual : su2vector;
  jacobian_i : su2matrix;
  jacobian_j : su2matrix
}.

Module Numerics.

(** Each setter stores its two arguments for the endpoints i and j. *)
Definition SetCoord (n : CNumerics) (val_coord_i val_coord_j : su2vector)
  : CNumerics :=
  {| Coord_i := val_coord_i; Coord_j := val_coord_j; Normal := Normal n;
     V_i := V_i n; V_j := V_j n; S_i := S_i n; S_j := S_j n;
     PrimVar_Grad_i := PrimVar_Grad_i n; PrimVar_Grad_j := PrimVar_Grad_j n;
     turb_ke_i := turb_ke_i n; turb_ke_j := turb_ke_j n;
     TauWall_i := TauWall_i n; TauWall_j := TauWall_j n |}.

Definition SetNormal (n : CNumerics) (val_normal : su2vector) : CNumerics :=
  {| Coord_i := Coord_i n; Coord_j := Coord_j n; Normal := val_normal;
     V_i := V_i n; V_j := V_j n; S_i := S_i n; S_j := S_j n;
     PrimVar_Grad_i := PrimVar_Grad_i n; PrimVar_Grad_j := PrimVar_Grad_j n;
     turb_ke_i := turb_ke_i n; turb_ke_j := turb_ke_j n;
     TauWall_i := TauWall_i n; TauWall_j := TauWall_j n |}.

Definition SetPrimitive (n : CNumerics) (val_v_i val_v_j : su2vector)
  : CNumerics :=
  {| Coord_i := Coord_i n; Coord_j := Coord_j n; Normal := Normal n;
     V_i := val_v_i; V_j := val_v_j; S_i := S_i n; S_j := S_j n;
     PrimVar_Grad_i := PrimVar_Grad_i n; PrimVar_Grad_j := PrimVar_Grad_j n;
     turb_ke_i := turb_ke_i n; turb_ke_j := turb_ke_j n;
     TauWall_i := TauWall_i n; TauWall_j := TauWall_j n |}.

Definition SetSecondary (n : CNumerics) (val_s_i val_s_j : su2vector)
  : CNumerics :=
  {| Coord_i := Coord_i n; Coord_j := Coord_j n; Normal := Normal n;
     V_i := V_i n; V_j := V_j n; S_i := val_s_i; S_j := val_s_j;
     PrimVar_Grad_i := PrimVar_Grad_i n; PrimVar_Grad_j := PrimVar_Grad_j n;
     turb_ke_i := turb_ke_i n; turb_ke_j := turb_ke_j n;
     TauWall_i := TauWall_i n; TauWall_j := TauWall_j n |}.

Definition SetPrimVarGradient (n : CNumerics) (val_grad_i val_grad_j : su2matrix)
  : CNumerics :=
  {| Coord_i := Coord_i n; Coord_j := Coord_j n; Normal := Normal n;
     V_i := V_i n; V_j := V_j n; S_i := S_i n; S_j := S_j n;
     PrimVar_Grad_i := val_grad_i; PrimVar_Grad_j := val_grad_j;
     turb_ke_i := turb_ke_i n; turb_ke_j := turb_ke_j n;
     TauWall_i := TauWall_i n; TauWall_j := TauWall_j n |}.

Definition SetTurbKineticEnergy (n : CNumerics) (val_ke_i val_ke_j : su2double)
  : CNumerics :=
  {| Coord_i := Coord_i n; Coord_j := Coord_j n; Normal := Normal n;
     V_i := V_i n; V_j := V_j n; S_i := S_i n; S_j := S_j n;
     PrimVar_Grad_i := PrimVar_Grad_i n; PrimVar_Grad_j := PrimVar_Grad_j n;
     turb_ke_i := val_ke_i; turb_ke_j := val_ke_j;
     TauWall_i := TauWall_i n; TauWall_j := TauWall_j n |}.

Definition SetTauWall (n : CNumerics) (val_tau_i val_tau_j : su2double)
  : CNumerics :=
  {| Coord_i := Coord_i n; Coord_j := Coord_j n; Normal := Normal n;
     V_i := V_i n; V_j := V_j n; S_i := S_i n; S_j := S_j n;
     PrimVar_Grad_i := PrimVar_Grad_i n; PrimVar_Grad_j := PrimVar_Grad_j n;
     turb_ke_i := turb_ke_i n; turb_ke_j := turb_ke_j n;
     TauWall_i := val_tau_i; TauWall_j := val_tau_j |}.

End Numerics.

Section ViscousResidual.

(** The flux kernel of the numerics object (a virtual method, implemented
    outside src/): a function of the inputs set on the object and of the
    configuration. *)
Variable ComputeResidual : CNumerics -> CConfig -> ResidualType.

(** The numerics object as [Viscous_Residual] loads it for [iEdge].  The
    turbulence variables are a required collaborator when the model needs
    the turbulent kinetic energy. *)
Definition Viscous_Residual_numerics (iEdge : nat) (geometry : CGeometry)
    (TURB_SOL : CTurbVariable) (numerics : CNumerics) (config : CConfig)
    (solver : CNSSolver) : CNumerics :=
  let tkeNeeded :=
    turb_model_eqb (GetKind_Turb_Model config) SST
    || turb_model_eqb (GetKind_Turb_Model config) SST_SUST in
  let turbNodes := TURB_SOL in
  let iPoint := edges_GetNode geometry iEdge 0 in
  let jPoint := edges_GetNode geometry iEdge 1 in
  let numerics :=
    Numerics.SetCoord numerics (GetCoord geometry iPoint)
                               (GetCoord geometry jPoint) in
  let numerics := Numerics.SetNormal numerics (edges_GetNormal geometry iEdge) in
  let numerics :=
    Numerics.SetPrimitive numerics (Primitive (nodes solver) iPoint)
                                   (Primitive (nodes solver) jPoint) in
  let numerics :=
    Numerics.SetSecondary numerics (Secondary (nodes solver) iPoint)
                                   (Secondary (nodes solver) jPoint) in
  let numerics :=
    Numerics.SetPrimVarGradient numerics
      (Gradient_Primitive (nodes solver) iPoint)
      (Gradient_Primitive (nodes solver) jPoint) in
  let numerics :=
    if tkeNeeded
    then Numerics.SetTurbKineticEnergy numerics
           (GetSolution turbNodes iPoint 0) (GetSolution turbNodes jPoint 0)
    else numerics in
  Numerics.SetTauWall numerics (CVariable.GetTauWall (nodes solver) iPoint)
                               (CVariable.GetTauWall (nodes solver) iPoint).

(** The flux of the edge: [numerics->ComputeResidual(config)]. *)
Definition Viscous_Residual_flux (iEdge : nat) (geometry : CGeometry)
    (TURB_SOL : CTurbVariable) (numerics : CNumerics) (config : CConfig)
    (solver : CNSSolver) : ResidualType :=
  ComputeResidual
    (Viscous_Residual_numerics iEdge geometry TURB_SOL numerics config solver)
    config.

(** [CNSSolver::Viscous_Residual]: the numerics object and the solver
    after the edge has been processed. *)
Definition Viscous_Residual (iEdge : nat) (geometry : CGeometry)
    (TURB_SOL : CTurbVariable) (numerics : CNumerics) (config : CConfig)
    (solver : CNSSolver) : CNumerics * CNSSolver :=
  let implicit := time_int_eqb (GetKind_TimeIntScheme config) EULER_IMPLICIT in
  let iPoint := edges_GetNode geometry iEdge 0 in
  let jPoint := edges_GetNode geometry iEdge 1 in
  let numerics :=
    Viscous_Residual_numerics iEdge geometry TURB_SOL numerics config solver in
  let res := ComputeResidual numerics config in
  let solver :=
    if ReducerStrategy solver then
      (* the edge overload of UpdateBlocksSub addresses the two
         off-diagonal blocks of the edge through iEdge *)
      let solver :=
        set_EdgeFluxes solver
          (SysVector.SubtractBlock (nVar solver) (EdgeFluxes solver) iEdge
                                   (residual res)) in
      if implicit
      then set_Jacobian solver
             (SysMatrix.UpdateBlocksSub (nVar solver) (Jacobian solver)
                iPoint jPoint (jacobian_i res) (jacobian_j res))
      else solver
    else
      let solver :=
        set_LinSysRes solver
          (SysVector.SubtractBlock (nVar solver) (LinSysRes solver) iPoint
                                   (residual res)) in
      let solver :=
        set_LinSysRes solver
          (SysVector.AddBlock (nVar solver) (LinSysRes solver) jPoint
                              (residual res)) in
      if implicit
      then set_Jacobian solver
             (SysMatrix.UpdateBlocksSub (nVar solver) (Jacobian solver)
                iPoint jPoint (jacobian_i res) (jacobian_j res))
      else solver in
  (numerics, solver).

End ViscousResidual.

(** * Monitoring aggregator: [Buffet_Monitoring] and [Evaluate_ObjFunc] *)

(** The body of the loop over the vertices of a wall marker. *)
Definition Buffet_Monitoring_vertex (geometry : CGeometry) (config : CConfig)
    (VelMag_FS : su2double) (iMarker : nat) (Monitoring : ANSWER)
    (solver : CNSSolver) (iVertex : nat) : CNSSolver :=
  let Vel_FS := GetVelocity_FreeStream config in
  let Sref := GetRefArea config in
  let k := GetBuffet_k config in
  let lam := GetBuffet_lambda config in
  let SkinFrictionMag :=
    accumulate (nDim solver) (fun iDim =>
      CSkinFriction solver iMarker iDim iVertex
      * CSkinFriction solver iMarker iDim iVertex) in
  let SkinFrictionDot :=
    accumulate (nDim solver) (fun iDim =>
      CSkinFriction solver iMarker iDim iVertex * Vel_FS iDim) in
  let SkinFrictionMag := sqrt SkinFrictionMag in
  let SkinFrictionDot := SkinFrictionDot / (SkinFrictionMag * VelMag_FS) in
  let solver :=
    set_Buffet_Sensor solver (fun m v =>
      if Nat.eqb m iMarker && Nat.eqb v iVertex
      then 1 / (1 + exp (2 * k * (SkinFrictionDot + lam)))
      else Buffet_Sensor solver m v) in
  if answer_eqb Monitoring YES then
    let Normal := GetNormal (vertex geometry iMarker iVertex) in
    let Area := GeometryToolbox.Norm (nDim solver) Normal in
    set_Buffet_Metric solver
      (vset (Buffet_Metric solver) iMarker
         (Buffet_Metric solver iMarker
          + Buffet_Sensor solver iMarker iVertex * Area / Sref))
  else solver.

(** The markers the monitor treats as viscous walls. *)
Definition buffet_wall (Boundary : BC_TYPE) : bool :=
  bc_eqb Boundary HEAT_FLUX || bc_eqb Boundary ISOTHERMAL
  || bc_eqb Boundary HEAT_FLUX || bc_eqb Boundary CHT_WALL_INTERFACE.

(** The body of the loop over the markers. *)
Definition Buffet_Monitoring_marker (geometry : CGeometry) (config : CConfig)
    (VelMag_FS : su2double) (solver : CNSSolver) (iMarker : nat) : CNSSolver :=
  let solver :=
    set_Buffet_Metric solver (vset (Buffet_Metric solver) iMarker 0) in
  let Boundary := GetMarker_All_KindBC config iMarker in
  let Monitoring := GetMarker_All_Monitoring config iMarker in
  if buffet_wall Boundary then
    let solver :=
      for_loop (nVertex geometry iMarker)
        (Buffet_Monitoring_vertex geometry config VelMag_FS iMarker Monitoring)
        solver in
    if answer_eqb Monitoring YES then
      let solver :=
        set_Total_Buffet_Metric solver
          (Total_Buffet_Metric solver + Buffet_Metric solver iMarker) in
      for_loop (GetnMarker_Monitoring config)
        (fun solver iMarker_Monitoring =>
           let Monitoring_Tag :=
             GetMarker_Monitoring_TagBound config iMarker_Monitoring in
           let Marker_Tag := GetMarker_All_TagBound config iMarker in
           if String.eqb Marker_Tag Monitoring_Tag
           then set_Surface_Buffet_Metric solver
                  (vset (Surface_Buffet_Metric solver) iMarker_Monitoring
                        (Buffet_Metric solver iMarker))
           else solver)
        solver
    else solver
  else solver.

(** [Buffet_Monitoring] on one rank, up to the reductions. *)
Definition Buffet_Monitoring_local (geometry : CGeometry) (config : CConfig)
    (solver : CNSSolver) : CNSSolver :=
  let Vel_FS := GetVelocity_FreeStream config in
  let VelMag_FS :=
    sqrt (accumulate (nDim solver) (fun iDim => Vel_FS iDim * Vel_FS iDim)) in
  let solver := set_Total_Buffet_Metric solver 0 in
  let solver :=
    for_loop (GetnMarker_Monitoring config)
      (fun solver iMarker_Monitoring =>
         set_Surface_Buffet_Metric solver
           (vset (Surface_Buffet_Metric solver) iMarker_Monitoring 0))
      solver in
  for_loop (nMarker solver)
    (Buffet_Monitoring_marker geometry config VelMag_FS) solver.

(** Modelled from the spec: [SU2_MPI::Allreduce] with [MPI_SUM] is not
    under src/; it is "a distributed sum reduction across mesh partitions":
    every rank receives the sum of the values the ranks send. *)
Definition Allreduce_SUM (sendbuf : list su2double) : su2double :=
  fold_right Rplus 0 sendbuf.

(** [CNSSolver::Buffet_Monitoring] run by every rank of the partition, each
    on its own geometry and solver; [HAVE_MPI] is the build flag. *)
Definition Buffet_Monitoring (HAVE_MPI : bool) (config : CConfig)
    (ranks : list (CGeometry * CNSSolver)) : list CNSSolver :=
  let locals :=
    map (fun r => Buffet_Monitoring_local (fst r) config (snd r)) ranks in
  if HAVE_MPI then
    let Total := Allreduce_SUM (map Total_Buffet_Metric locals) in
    let Surface := fun iMarker_Monitoring =>
      Allreduce_SUM
        (map (fun s => Surface_Buffet_Metric s iMarker_Monitoring) locals) in
    map (fun s =>
           set_Surface_Buffet_Metric (set_Total_Buffet_Metric s Total)
             (fun iMarker_Monitoring =>
                if Nat.ltb iMarker_Monitoring (GetnMarker_Monitoring config)
                then Surface iMarker_Monitoring
                else Surface_Buffet_Metric s iMarker_Monitoring))
        locals
  else locals.

Section ObjFunc.

(** The objective terms common to the Euler and Navier-Stokes solvers
    ([CEulerSolver::Evaluate_ObjFunc], outside src/). *)
Variable CEulerSolver_Evaluate_ObjFunc : CConfig -> CNSSolver -> CNSSolver.

(** The body of the loop over the monitored markers. *)
Definition Evaluate_ObjFunc_marker (config : CConfig) (solver : CNSSolver)
    (iMarker_Monitoring : nat) : CNSSolver :=
  let Weight_ObjFunc := GetWeight_ObjFunc config iMarker_Monitoring in
  let Kind_ObjFunc := GetKind_ObjFunc config iMarker_Monitoring in
  match Kind_ObjFunc with
  | BUFFET_SENSOR =>
      set_Total_ComboObj solver
        (Total_ComboObj solver
         + Weight_ObjFunc * Surface_Buffet_Metric solver iMarker_Monitoring)
  | _ => solver
  end.

Definition Evaluate_ObjFunc (config : CConfig) (solver : CNSSolver)
  : CNSSolver :=
  let solver := CEulerSolver_Evaluate_ObjFunc config solver in
  for_loop (GetnMarker_Monitoring config) (Evaluate_ObjFunc_marker config)
    solver.

End ObjFunc.

(** * Wall boundary enforcer *)

(** A routine that may end the run: [SU2_MPI::Error] prints the message
    and aborts. *)
Inductive Result (A : Type) : Type :=
| Ok (a : A)
| Fatal (message : string).

Arguments Ok {A} a.
Arguments Fatal {A} message.

(** A counted loop whose body may abort. *)
Fixpoint for_each_result {S : Type} (body : S -> nat -> Result S)
    (l : list nat) (s : S) : Result S :=
  match l with
  | [] => Ok s
  | i :: l' =>
      match body s i with
      | Ok s' => for_each_result body l' s'
      | Fatal m => Fatal m
      end
  end.

Definition for_loop_result {S : Type} (n : nat) (body : S -> nat -> Result S)
    (s : S) : Result S :=
  for_each_result body (seq 0 n) s.

(** [X[i][j] += x]. *)
Definition madd (X : su2matrix) (i j : nat) (x : su2double) : su2matrix :=
  mset X i j (X i j + x).

(** The state the loops over the wall vertices carry: the solver, the
    wall value declared before the loop (heat flux or temperature) and the
    scratch block [Jacobian_i] (null when it is not allocated). *)
Definition WallLoop : Type := (CNSSolver * su2double * option su2matrix)%type.

Section WallBoundary.

(** The stress tensor kernel [CNumerics::ComputeStressTensor] (outside
    src/): from the dimension, the velocity gradient and a viscosity. *)
Variable ComputeStressTensor : nat -> su2matrix -> su2double -> su2matrix.

(** [nodes->GetGradient_Primitive(iPoint)+1]: the rows of the velocity. *)
Definition velocity_gradient (solver : CNSSolver) (iPoint : nat) : su2matrix :=
  fun iDim jDim => Gradient_Primitive (nodes solver) iPoint (iDim + 1)%nat jDim.

(** [CNSSolver::AddDynamicGridResidualContribution]: the updated
    [Jacobian_i], [Res_Conv] and [Res_Visc]. *)
Definition AddDynamicGridResidualContribution (solver : CNSSolver)
    (iPoint Point_Normal : nat) (geometry : CGeometry)
    (UnitNormal : su2vector) (Area : su2double) (GridVel : su2vector)
    (Jacobian_i : option su2matrix) (Res_Conv Res_Visc : su2double)
  : option su2matrix * su2double * su2double :=
  let nDim := nDim solver in
  let Gamma := Gamma solver in
  let ProjGridVel := Area * GeometryToolbox.DotProduct nDim GridVel UnitNormal in
  let Density := CVariable.GetDensity nDim (nodes solver) iPoint in
  let Pressure := CVariable.GetPressure nDim (nodes solver) iPoint in
  let laminar_viscosity :=
    CVariable.GetLaminarViscosity nDim (nodes solver) iPoint in
  let eddy_viscosity := CVariable.GetEddyViscosity nDim (nodes solver) iPoint in
  let total_viscosity := laminar_viscosity + eddy_viscosity in
  let tau :=
    ComputeStressTensor nDim (velocity_gradient solver iPoint) total_viscosity in
  let tau_vel :=
    vfill nDim (fun iDim => GeometryToolbox.DotProduct nDim (tau iDim) GridVel) in
  let Res_Conv := Res_Conv + Pressure * ProjGridVel in
  let Res_Visc :=
    Res_Visc + GeometryToolbox.DotProduct nDim tau_vel UnitNormal * Area in
  let Jacobian_i :=
    match Jacobian_i with
    | None => None
    | Some Jacobian_i =>
        let GridVel2 := GeometryToolbox.SquaredNorm nDim GridVel in
        let Jacobian_i :=
          madd Jacobian_i (nDim + 1) 0
               (0.5 * (Gamma - 1.0) * GridVel2 * ProjGridVel) in
        let Jacobian_i :=
          for_loop nDim (fun Jacobian_i jDim =>
            madd Jacobian_i (nDim + 1) (jDim + 1)
                 (- (Gamma - 1.0) * GridVel jDim * ProjGridVel)) Jacobian_i in
        let Jacobian_i :=
          madd Jacobian_i (nDim + 1) (nDim + 1) ((Gamma - 1.0) * ProjGridVel) in
        let Coord_i := GetCoord geometry iPoint in
        let Coord_j := GetCoord geometry Point_Normal in
        let dist_ij := GeometryToolbox.Distance nDim Coord_i Coord_j in
        let theta2 := 1.0 in
        let factor := total_viscosity * Area / (Density * dist_ij) in
        if Nat.eqb nDim 2 then
          let thetax := theta2 + UnitNormal 0%nat * UnitNormal 0%nat / 3.0 in
          let thetay := theta2 + UnitNormal 1%nat * UnitNormal 1%nat / 3.0 in
          let etaz := UnitNormal 0%nat * UnitNormal 1%nat / 3.0 in
          let pix := GridVel 0%nat * thetax + GridVel 1%nat * etaz in
          let piy := GridVel 0%nat * etaz + GridVel 1%nat * thetay in
          let Jacobian_i :=
            madd Jacobian_i (nDim + 1) 0
                 (factor * (- pix * GridVel 0%nat + piy * GridVel 1%nat)) in
          let Jacobian_i := madd Jacobian_i (nDim + 1) 1 (factor * pix) in
          let Jacobian_i := madd Jacobian_i (nDim + 1) 2 (factor * piy) in
          Some Jacobian_i
        else
          let thetax := theta2 + UnitNormal 0%nat * UnitNormal 0%nat / 3.0 in
          let thetay := theta2 + UnitNormal 1%nat * UnitNormal 1%nat / 3.0 in
          let thetaz := theta2 + UnitNormal 2%nat * UnitNormal 2%nat / 3.0 in
          let etaz := UnitNormal 0%nat * UnitNormal 1%nat / 3.0 in
          let etax := UnitNormal 1%nat * UnitNormal 2%nat / 3.0 in
          let etay := UnitNormal 0%nat * UnitNormal 2%nat / 3.0 in
          let pix :=
            GridVel 0%nat * thetax + GridVel 1%nat * etaz
            + GridVel 2%nat * etay in
          let piy :=
            GridVel 0%nat * etaz + GridVel 1%nat * thetay
            + GridVel 2%nat * etax in
          let piz :=
            GridVel 0%nat * etay + GridVel 1%nat * etax
            + GridVel 2%nat * thetaz in
          let Jacobian_i :=
            madd Jacobian_i (nDim + 1) 0
                 (factor * (- pix * GridVel 0%nat + piy * GridVel 1%nat
                            + piz * GridVel 2%nat)) in
          let Jacobian_i := madd Jacobian_i (nDim + 1) 1 (factor * pix) in
          let Jacobian_i := madd Jacobian_i (nDim + 1) 2 (factor * piy) in
          let Jacobian_i := madd Jacobian_i (nDim + 1) 3 (factor * piz) in
          Some Jacobian_i
    end in
  (Jacobian_i, Res_Conv, Res_Visc).

(** The strong velocity condition both wall routines impose on [iPoint]:
    the old velocity is overwritten, the momentum rows of the residual
    and of the truncation error are zeroed. *)
Definition impose_wall_velocity (geometry : CGeometry) (solver : CNSSolver)
    (iPoint : nat) : CNSSolver :=
  let solver :=
    if dynamic_grid solver then
      set_nodes solver
        (CVariable.SetVelocity_Old (nDim solver) (nodes solver) iPoint
                                   (GetGridVel geometry iPoint))
    else
      let zero := zeros in
      set_nodes solver
        (CVariable.SetVelocity_Old (nDim solver) (nodes solver) iPoint zero) in
  let solver :=
    set_LinSysRes solver
      (for_loop (nDim solver)
         (fun vec iDim => SysVector.SetEntry vec iPoint (iDim + 1) 0)
         (LinSysRes solver)) in
  set_nodes solver
    (CVariable.SetVel_ResTruncError_Zero (nDim solver) (nodes solver) iPoint).

(** [for (iVar = 1; iVar <= nDim; iVar++) Jacobian.DeleteValsRowi(iPoint*nVar+iVar)]. *)
Definition delete_momentum_rows (solver : CNSSolver) (iPoint : nat)
  : CNSSolver :=
  fold_left
    (fun solver iVar =>
       let total_index := (iPoint * nVar solver + iVar)%nat in
       set_Jacobian solver
         (SysMatrix.DeleteValsRowi (nVar solver) (Jacobian solver) total_index))
    (seq 1 (nDim solver)) solver.

(** [LinSysRes(iPoint, nDim+1) += Res_Conv - Res_Visc]. *)
Definition add_energy_residual (solver : CNSSolver) (iPoint : nat)
    (Res_Conv Res_Visc : su2double) : CNSSolver :=
  set_LinSysRes solver
    (SysVector.SetEntry (LinSysRes solver) iPoint (nDim solver + 1)
       (LinSysRes solver iPoint (nDim solver + 1)%nat + (Res_Conv - Res_Visc))).

(** The energy residual of a heat-flux wall vertex: the scratch block and
    the convective and viscous parts, [Res_Conv] and [Res_Visc]. *)
Definition BC_HeatFlux_Wall_energy (geometry : CGeometry) (config : CConfig)
    (val_marker : nat) (solver : CNSSolver) (Wall_HeatFlux : su2double)
    (Jacobian_i : option su2matrix) (iVertex : nat)
  : option su2matrix * su2double * su2double :=
  let implicit := time_int_eqb (GetKind_TimeIntScheme config) EULER_IMPLICIT in
  let nDim := nDim solver in
  let iPoint := GetNode (vertex geometry val_marker iVertex) in
  let Normal := GetNormal (vertex geometry val_marker iVertex) in
  let Area := GeometryToolbox.Norm nDim Normal in
  let UnitNormal := vfill nDim (fun iDim => - Normal iDim / Area) in
  let Res_Conv := 0.0 in
  let Res_Visc := Wall_HeatFlux * Area in
  if dynamic_grid solver then
    let Jacobian_i :=
      if implicit then
        option_map
          (fun Jacobian_i =>
             for_loop (nVar solver)
               (fun Jacobian_i iVar => mset Jacobian_i (nDim + 1) iVar 0.0)
               Jacobian_i)
          Jacobian_i
      else Jacobian_i in
    let Point_Normal := GetNormal_Neighbor (vertex geometry val_marker iVertex) in
    AddDynamicGridResidualContribution solver iPoint Point_Normal geometry
      UnitNormal Area (GetGridVel geometry iPoint) Jacobian_i Res_Conv Res_Visc
  else (Jacobian_i, Res_Conv, Res_Visc).

(** The body of the loop over the vertices of a heat-flux marker. *)
Definition BC_HeatFlux_Wall_vertex (geometry : CGeometry) (config : CConfig)
    (val_marker : nat) (s : WallLoop) (iVertex : nat) : WallLoop :=
  let '(solver, Wall_HeatFlux, Jacobian_i) := s in
  let implicit := time_int_eqb (GetKind_TimeIntScheme config) EULER_IMPLICIT in
  let iPoint := GetNode (vertex geometry val_marker iVertex) in
  if negb (GetDomain geometry iPoint) then s
  else
    let Wall_HeatFlux :=
      if GetMarker_All_PyCustom config val_marker
      then GetCustomBoundaryHeatFlux geometry val_marker iVertex
      else Wall_HeatFlux in
    let solver := impose_wall_velocity geometry solver iPoint in
    let '(Jacobian_i, Res_Conv, Res_Visc) :=
      BC_HeatFlux_Wall_energy geometry config val_marker solver Wall_HeatFlux
                              Jacobian_i iVertex in
    let solver := add_energy_residual solver iPoint Res_Conv Res_Visc in
    let solver :=
      if implicit then
        let solver :=
          if dynamic_grid solver then
            match Jacobian_i with
            | Some block =>
                set_Jacobian solver
                  (SysMatrix.AddBlock2Diag (nVar solver) (Jacobian solver)
                                           iPoint block)
            | None => solver
            end
          else solver in
        delete_momentum_rows solver iPoint
      else solver in
    (solver, Wall_HeatFlux, Jacobian_i).

(** [CNSSolver::BC_HeatFlux_Wall]. *)
Definition BC_HeatFlux_Wall (geometry : CGeometry) (config : CConfig)
    (val_marker : nat) (solver : CNSSolver) : CNSSolver :=
  let implicit := time_int_eqb (GetKind_TimeIntScheme config) EULER_IMPLICIT in
  let Marker_Tag := GetMarker_All_TagBound config val_marker in
  let Wall_HeatFlux :=
    GetWall_HeatFlux config Marker_Tag / GetHeat_Flux_Ref config in
  let Jacobian_i : option su2matrix :=
    if dynamic_grid solver && implicit then Some zeros2 else None in
  fst (fst (for_loop (nVertex geometry val_marker)
              (BC_HeatFlux_Wall_vertex geometry config val_marker)
              (solver, Wall_HeatFlux, Jacobian_i))).

(** [CNSSolver::GetCHTWallTemperature]; the parameters are in the order of
    the definition. *)
Definition GetCHTWallTemperature (solver : CNSSolver) (config : CConfig)
    (val_marker iVertex : nat)
    (thermal_conductivity dist_ij There Temperature_Ref : su2double)
  : Result su2double :=
  let Tconjugate :=
    GetConjugateHeatVariable solver val_marker iVertex 0 / Temperature_Ref in
  if cht_eqb (GetKind_CHT_Coupling config) AVERAGED_TEMPERATURE_NEUMANN_HEATFLUX
     || cht_eqb (GetKind_CHT_Coupling config) AVERAGED_TEMPERATURE_ROBIN_HEATFLUX
  then
    let HF_FactorHere :=
      thermal_conductivity * GetViscosity_Ref config / dist_ij in
    let HF_FactorConjugate :=
      GetConjugateHeatVariable solver val_marker iVertex 2 in
    Ok ((There * HF_FactorHere + Tconjugate * HF_FactorConjugate)
        / (HF_FactorHere + HF_FactorConjugate))
  else if
    cht_eqb (GetKind_CHT_Coupling config) DIRECT_TEMPERATURE_NEUMANN_HEATFLUX
    || cht_eqb (GetKind_CHT_Coupling config) DIRECT_TEMPERATURE_ROBIN_HEATFLUX
  then Ok Tconjugate
  else Fatal "Unknown CHT coupling method.".

(** The specific heat and the conductivity of a wall vertex as
    [BC_Isothermal_Wall_Generic] computes them. *)
Definition Isothermal_Cp (config : CConfig) (solver : CNSSolver) : su2double :=
  (Gamma solver / Gamma_Minus_One solver) * GetGas_ConstantND config.

Definition Isothermal_thermal_conductivity (config : CConfig)
    (solver : CNSSolver) (iPoint : nat) : su2double :=
  let Prandtl_Lam := GetPrandtl_Lam config in
  let Prandtl_Turb := GetPrandtl_Turb config in
  let laminar_viscosity :=
    CVariable.GetLaminarViscosity (nDim solver) (nodes solver) iPoint in
  let eddy_viscosity :=
    CVariable.GetEddyViscosity (nDim solver) (nodes solver) iPoint in
  Isothermal_Cp config solver
  * (laminar_viscosity / Prandtl_Lam + eddy_viscosity / Prandtl_Turb).

(** The distance from the wall vertex to its normal neighbour. *)
Definition Isothermal_dist_ij (geometry : CGeometry) (solver : CNSSolver)
    (val_marker iVertex : nat) : su2double :=
  let iPoint := GetNode (vertex geometry val_marker iVertex) in
  let Point_Normal := GetNormal_Neighbor (vertex geometry val_marker iVertex) in
  let Coord_i := GetCoord geometry iPoint in
  let Coord_j := GetCoord geometry Point_Normal in
  GeometryToolbox.Distance (nDim solver) Coord_i Coord_j.

(** The wall temperature [BC_Isothermal_Wall_Generic] uses at a vertex:
    the conjugate one in CHT mode, the custom one on a customizable
    patch, else the value [Twall] holds on entry. *)
Definition Isothermal_Twall (geometry : CGeometry) (config : CConfig)
    (val_marker : nat) (cht_mode : bool) (solver : CNSSolver)
    (Twall : su2double) (iVertex : nat) : Result su2double :=
  let Temperature_Ref := GetTemperature_Ref config in
  let iPoint := GetNode (vertex geometry val_marker iVertex) in
  let Point_Normal := GetNormal_Neighbor (vertex geometry val_marker iVertex) in
  let dist_ij := Isothermal_dist_ij geometry solver val_marker iVertex in
  let thermal_conductivity :=
    Isothermal_thermal_conductivity config solver iPoint in
  let There := CVariable.GetTemperature (nodes solver) Point_Normal in
  if cht_mode then
    GetCHTWallTemperature solver config val_marker iVertex dist_ij
                          thermal_conductivity There Temperature_Ref
  else if GetMarker_All_PyCustom config val_marker then
    Ok (GetCustomBoundaryTemperature geometry val_marker iVertex)
  else Ok Twall.

(** The body of the loop over the vertices of an isothermal or CHT marker. *)
Definition BC_Isothermal_Wall_Generic_vertex (geometry : CGeometry)
    (config : CConfig) (val_marker : nat) (cht_mode : bool) (s : WallLoop)
    (iVertex : nat) : Result WallLoop :=
  let '(solver, Twall, Jacobian_i) := s in
  let implicit := time_int_eqb (GetKind_TimeIntScheme config) EULER_IMPLICIT in
  let Gas_Constant := GetGas_ConstantND config in
  let nDim := nDim solver in
  let Gamma := Gamma solver in
  let iPoint := GetNode (vertex geometry val_marker iVertex) in
  if negb (GetDomain geometry iPoint) then Ok s
  else
    let Normal := GetNormal (vertex geometry val_marker iVertex) in
    let Area := GeometryToolbox.Norm nDim Normal in
    let UnitNormal := vfill nDim (fun iDim => - Normal iDim / Area) in
    let Point_Normal := GetNormal_Neighbor (vertex geometry val_marker iVertex) in
    let dist_ij := Isothermal_dist_ij geometry solver val_marker iVertex in
    let solver := impose_wall_velocity geometry solver iPoint in
    let thermal_conductivity :=
      Isothermal_thermal_conductivity config solver iPoint in
    let There := CVariable.GetTemperature (nodes solver) Point_Normal in
    match
      Isothermal_Twall geometry config val_marker cht_mode solver Twall iVertex
    with
    | Fatal message => Fatal message
    | Ok Twall =>
        let dTdn := - (There - Twall) / dist_ij in
        let Res_Conv := 0.0 in
        let Res_Visc := thermal_conductivity * dTdn * Area in
        let Jacobian_i :=
          if implicit then
            option_map
              (fun Jacobian_i =>
                 let Density :=
                   CVariable.GetDensity nDim (nodes solver) iPoint in
                 let Vel2 :=
                   GeometryToolbox.SquaredNorm nDim
                     (fun iDim => Primitive (nodes solver) iPoint (iDim + 1)%nat) in
                 let dTdrho :=
                   1.0 / Density
                   * (- Twall + (Gamma - 1.0) / Gas_Constant * (Vel2 / 2.0)) in
                 let Jacobian_i :=
                   mset Jacobian_i (nDim + 1) 0
                        (thermal_conductivity / dist_ij * dTdrho * Area) in
                 let Jacobian_i :=
                   for_loop nDim
                     (fun Jacobian_i jDim =>
                        mset Jacobian_i (nDim + 1) (jDim + 1) 0.0)
                     Jacobian_i in
                 mset Jacobian_i (nDim + 1) (nDim + 1)
                      (thermal_conductivity / dist_ij * (Gamma - 1.0)
                       / (Gas_Constant * Density) * Area))
              Jacobian_i
          else Jacobian_i in
        let '(Jacobian_i, Res_Conv, Res_Visc) :=
          if dynamic_grid solver then
            AddDynamicGridResidualContribution solver iPoint Point_Normal
              geometry UnitNormal Area (GetGridVel geometry iPoint)
              Jacobian_i Res_Conv Res_Visc
          else (Jacobian_i, Res_Conv, Res_Visc) in
        let solver := add_energy_residual solver iPoint Res_Conv Res_Visc in
        let solver :=
          if implicit then
            let solver :=
              match Jacobian_i with
              | Some block =>
                  set_Jacobian solver
                    (SysMatrix.AddBlock2Diag (nVar solver) (Jacobian solver)
                                             iPoint block)
              | None => solver
              end in
            delete_momentum_rows solver iPoint
          else solver in
        Ok (solver, Twall, Jacobian_i)
    end.

(** [CNSSolver::BC_Isothermal_Wall_Generic]. *)
Definition BC_Isothermal_Wall_Generic (geometry : CGeometry) (config : CConfig)
    (val_marker : nat) (cht_mode : bool) (solver : CNSSolver)
  : Result CNSSolver :=
  let implicit := time_int_eqb (GetKind_TimeIntScheme config) EULER_IMPLICIT in
  let Temperature_Ref := GetTemperature_Ref config in
  let Marker_Tag := GetMarker_All_TagBound config val_marker in
  let Twall :=
    if negb cht_mode
    then GetIsothermal_Temperature config Marker_Tag / Temperature_Ref
    else 0.0 in
  let Jacobian_i : option su2matrix :=
    if implicit then Some zeros2 else None in
  match
    for_loop_result (nVertex geometry val_marker)
      (BC_Isothermal_Wall_Generic_vertex geometry config val_marker cht_mode)
      (solver, Twall, Jacobian_i)
  with
  | Ok s => Ok (fst (fst s))
  | Fatal message => Fatal message
  end.

(** [CNSSolver::BC_Isothermal_Wall]: the generic routine with [cht_mode]
    left at its default, off. *)
Definition BC_Isothermal_Wall (geometry : CGeometry) (config : CConfig)
    (val_marker : nat) (solver : CNSSolver) : Result CNSSolver :=
  BC_Isothermal_Wall_Generic geometry config val_marker false solver.

(** [CNSSolver::BC_ConjugateHeat_Interface]. *)
Definition BC_ConjugateHeat_Interface (geometry : CGeometry) (config : CConfig)
    (val_marker : nat) (solver : CNSSolver) : Result CNSSolver :=
  BC_Isothermal_Wall_Generic geometry config val_marker true solver.

End WallBoundary.

(** * Wall-function solver: [CNSSolver::SetTauWall_WF] *)

Module WallFunction.

Definition max_iter : nat := 10.
Definition tol : su2double := 1e-6.
Definition relax : su2double := 0.25.

(** Typical constants from boundary layer theory. *)
Definition kappa : su2double := 0.4.
Definition B : su2double := 5.5.

(** What is written to [cout] when the iteration gives up: the warning
    line and the three values of the second line. *)
Inductive Diagnostic : Type :=
| Tau_Wall_not_converged (Tau_Wall_Old Tau_Wall diff : su2double).

(** The quantities of a wall vertex that stay fixed during the iteration. *)
Record BoundaryLayer : Type := {
  VelTangMod : su2double;
  WallDistMod : su2double;
  T_Wall : su2double;
  Density_Wall : su2double;
  Lam_Visc_Wall : su2double;
  Recovery : su2double;
  Cp : su2double
}.

(** The variables of the [while] loop. *)
Record Iterate : Type := {
  it_Tau_Wall : su2double;
  it_Tau_Wall_Old : su2double;
  it_diff : su2double;
  it_counter : nat;
  it_cout : list Diagnostic
}.

(** The updated wall shear stress from the current guess (the statements
    of the loop body up to the assignment of [Tau_Wall]), read over the
    real numbers.  It is what the C++ computes, up to rounding, for the
    guesses that are [regular] below; for the others (a guess of zero
    among them, where the code divides zero by zero) the code leaves the
    real numbers and this value says nothing about it. *)
Definition Tau_Wall_update (bl : BoundaryLayer) (Tau_Wall_Old : su2double)
  : su2double :=
  let U_Tau := sqrt (Tau_Wall_Old / Density_Wall bl) in
  let U_Plus := VelTangMod bl / U_Tau in
  let Gam := Recovery bl * cmath.pow U_Tau 2 / (2.0 * Cp bl * T_Wall bl) in
  let Beta := 0.0 in
  let Q := sqrt (Beta * Beta + 4.0 * Gam) in
  let Phi := asin (-1.0 * Beta / Q) in
  let Y_Plus_White :=
    exp ((kappa / sqrt Gam) * (asin ((2.0 * Gam * U_Plus - Beta) / Q) - Phi))
    * exp (-1.0 * kappa * B) in
  let kUp := kappa * U_Plus in
  let Y_Plus :=
    U_Plus + Y_Plus_White
    - exp (-1.0 * kappa * B)
      * (1.0 + kUp * (1.0 + 0.5 * kUp + cmath.pow kUp 2 / 6.0)) in
  (1.0 / Density_Wall bl)
  * cmath.pow (Y_Plus * Lam_Visc_Wall bl / WallDistMod bl) 2.0.

(** The guesses for which every operation of the loop body stays within
    the real numbers: no division by zero, no square root of a negative
    number, no arc sine outside [-1, 1].  Elsewhere the C++ computes an
    infinity or a NaN, and a NaN ends the loop at once, since
    [diff > tol] is then false. *)
Definition regular (bl : BoundaryLayer) (Tau_Wall_Old : su2double) : Prop :=
  let U_Tau := sqrt (Tau_Wall_Old / Density_Wall bl) in
  let U_Plus := VelTangMod bl / U_Tau in
  let Gam := Recovery bl * cmath.pow U_Tau 2 / (2.0 * Cp bl * T_Wall bl) in
  let Beta := 0.0 in
  let Q := sqrt (Beta * Beta + 4.0 * Gam) in
  Density_Wall bl <> 0
  /\ 0 <= Tau_Wall_Old / Density_Wall bl
  /\ U_Tau <> 0
  /\ 2.0 * Cp bl * T_Wall bl <> 0
  /\ 0 <= Beta * Beta + 4.0 * Gam
  /\ Q <> 0
  /\ -1 <= -1.0 * Beta / Q <= 1
  /\ 0 <= Gam
  /\ sqrt Gam <> 0
  /\ -1 <= (2.0 * Gam * U_Plus - Beta) / Q <= 1
  /\ WallDistMod bl <> 0.

(** One execution of the loop body, up to [counter++]. *)
Definition body (bl : BoundaryLayer) (it : Iterate) : Iterate :=
  let Tau_Wall := Tau_Wall_update bl (it_Tau_Wall_Old it) in
  let diff := cmath.fabs (Tau_Wall - it_Tau_Wall_Old it) in
  let Tau_Wall_Old :=
    it_Tau_Wall_Old it + relax * (Tau_Wall - it_Tau_Wall_Old it) in
  {| it_Tau_Wall := Tau_Wall;
     it_Tau_Wall_Old := Tau_Wall_Old;
     it_diff := diff;
     it_counter := S (it_counter it);
     it_cout := it_cout it |}.

(** The two [cout] lines before [break]. *)
Definition warn (it : Iterate) : Iterate :=
  {| it_Tau_Wall := it_Tau_Wall it;
     it_Tau_Wall_Old := it_Tau_Wall_Old it;
     it_diff := it_diff it;
     it_counter := it_counter it;
     it_cout :=
       it_cout it
       ++ [Tau_Wall_not_converged (it_Tau_Wall_Old it) (it_Tau_Wall it)
                                  (it_diff it)] |}.

(** [while (diff > tol) { ...; counter++; if (counter > max_iter) { ...;
    break; } }]; [None] when the fuel runs out first. *)
Fixpoint while (fuel : nat) (bl : BoundaryLayer) (it : Iterate)
  : option Iterate :=
  if Rgt_dec (it_diff it) tol then
    match fuel with
    | O => None
    | S fuel' =>
        let it := body bl it in
        if Nat.ltb max_iter (it_counter it) then Some (warn it)
        else while fuel' bl it
    end
  else Some it.

(** The variables on entry to the loop, from the starting guess. *)
Definition start (Tau_Wall : su2double) : Iterate :=
  {| it_Tau_Wall := Tau_Wall;
     it_Tau_Wall_Old := Tau_Wall;
     it_diff := 1.0;
     it_counter := 0;
     it_cout := [] |}.


(** The loop run from the starting guess; [max_iter + 1] units of fuel
    are enough ([while_terminates]). *)
Definition solve (bl : BoundaryLayer) (Tau_Wall : su2double) : Iterate :=
  match while (S max_iter) bl (start Tau_Wall) with
  | Some it => it
  | None => start Tau_Wall
  end.

Section Solver.

Variable ComputeStressTensor : nat -> su2matrix -> su2double -> su2matrix.

(** The unit normal of a wall vertex, pointing into the fluid. *)
Definition UnitNormal (geometry : CGeometry) (solver : CNSSolver)
    (iMarker iVertex : nat) : su2vector :=
  let Normal := GetNormal (vertex geometry iMarker iVertex) in
  let Area := GeometryToolbox.Norm (nDim solver) Normal in
  vfill (nDim solver) (fun iDim => - Normal iDim / Area).

(** The boundary-layer quantities of a wall vertex. *)
Definition boundary_layer (geometry : CGeometry) (config : CConfig)
    (solver : CNSSolver) (iMarker iVertex : nat) : BoundaryLayer :=
  let Gas_Constant := GetGas_ConstantND config in
  let Cp := (Gamma solver / Gamma_Minus_One solver) * Gas_Constant in
  let Recovery := cmath.pow (GetPrandtl_Lam config) (1.0 / 3.0) in
  let nDim := nDim solver in
  let iPoint := GetNode (vertex geometry iMarker iVertex) in
  let Point_Normal := GetNormal_Neighbor (vertex geometry iMarker iVertex) in
  let Coord := GetCoord geometry iPoint in
  let Coord_Normal := GetCoord geometry Point_Normal in
  let UnitNormal := UnitNormal geometry solver iMarker iVertex in
  let Vel :=
    vfill nDim (fun iDim => CVariable.GetVelocity (nodes solver) Point_Normal iDim) in
  let P_Normal := CVariable.GetPressure nDim (nodes solver) Point_Normal in
  let T_Normal := CVariable.GetTemperature (nodes solver) Point_Normal in
  let VelNormal := GeometryToolbox.DotProduct nDim Vel UnitNormal in
  let VelTang :=
    vfill nDim (fun iDim => Vel iDim - VelNormal * UnitNormal iDim) in
  let VelTangMod := GeometryToolbox.Norm MAXNDIM VelTang in
  let WallDist := GeometryToolbox.DistanceVec nDim Coord Coord_Normal in
  let WallDistMod := GeometryToolbox.Norm MAXNDIM WallDist in
  let T_Wall := T_Normal + Recovery * cmath.pow VelTangMod 2.0 / (2.0 * Cp) in
  let P_Wall := P_Normal in
  let Density_Wall := P_Wall / (Gas_Constant * T_Wall) in
  let Lam_Visc_Wall := CVariable.GetLaminarViscosity nDim (nodes solver) iPoint in
  {| VelTangMod := VelTangMod;
     WallDistMod := WallDistMod;
     T_Wall := T_Wall;
     Density_Wall := Density_Wall;
     Lam_Visc_Wall := Lam_Visc_Wall;
     Recovery := Recovery;
     Cp := Cp |}.

(** The starting guess: "the shear stress at the wall in the regular
    fashion by using the stress tensor on the surface", the magnitude of
    the wall-tangential part of the traction. *)
Definition starting_guess (geometry : CGeometry) (solver : CNSSolver)
    (iMarker iVertex : nat) : su2double :=
  let nDim := nDim solver in
  let iPoint := GetNode (vertex geometry iMarker iVertex) in
  let UnitNormal := UnitNormal geometry solver iMarker iVertex in
  let Lam_Visc_Wall := CVariable.GetLaminarViscosity nDim (nodes solver) iPoint in
  let tau :=
    ComputeStressTensor nDim (velocity_gradient solver iPoint) Lam_Visc_Wall in
  let TauElem :=
    vfill nDim (fun iDim =>
      GeometryToolbox.DotProduct nDim (tau iDim) UnitNormal) in
  let TauNormal := GeometryToolbox.DotProduct nDim TauElem UnitNormal in
  let TauTangent :=
    vfill nDim (fun iDim => TauElem iDim - TauNormal * UnitNormal iDim) in
  GeometryToolbox.Norm MAXNDIM TauTangent.

(** The body of the loop over the vertices of a viscous wall marker: the
    solver and what has been written to [cout]. *)
Definition SetTauWall_WF_vertex (geometry : CGeometry) (config : CConfig)
    (iMarker : nat) (s : CNSSolver * list Diagnostic) (iVertex : nat)
  : CNSSolver * list Diagnostic :=
  let '(solver, cout) := s in
  let iPoint := GetNode (vertex geometry iMarker iVertex) in
  if negb (GetDomain geometry iPoint) then s
  else
    let bl := boundary_layer geometry config solver iMarker iVertex in
    let Tau_Wall := starting_guess geometry solver iMarker iVertex in
    let it := solve bl Tau_Wall in
    (set_nodes solver
       (CVariable.SetTauWall (nodes solver) iPoint (it_Tau_Wall it)),
     cout ++ it_cout it).

(** The body of the loop over the markers. *)
Definition SetTauWall_WF_marker (geometry : CGeometry) (config : CConfig)
    (s : CNSSolver * list Diagnostic) (iMarker : nat)
  : CNSSolver * list Diagnostic :=
  if negb (GetViscous_Wall config iMarker) then s
  else
    for_loop (nVertex geometry iMarker)
      (SetTauWall_WF_vertex geometry config iMarker) s.

(** [CNSSolver::SetTauWall_WF]. *)
Definition SetTauWall_WF (geometry : CGeometry) (config : CConfig)
    (solver : CNSSolver) : CNSSolver * list Diagnostic :=
  for_loop (GetnMarker_All config) (SetTauWall_WF_marker geometry config)
    (solver, []).

End Solver.

End WallFunction.

(** * What the wall boundary pass is to leave behind *)

(** The strong no-slip condition at a point of a stationary wall: the
    stored old velocity is zero, the momentum rows of the residual are
    zero and, under implicit time integration, each momentum row of the
    Jacobian holds 1 on the diagonal and 0 everywhere else. *)
Definition no_slip_enforced (implicit : bool) (solver : CNSSolver)
    (iPoint : nat) : Prop :=
  (forall iDim, (iDim < nDim solver)%nat ->
     Velocity_Old (nodes solver) iPoint iDim = 0)
  /\ (forall iDim, (iDim < nDim solver)%nat ->
        LinSysRes solver iPoint (iDim + 1)%nat = 0)
  /\ (implicit = true ->
      forall iVar, (1 <= iVar <= nDim solver)%nat ->
      forall jPoint jVar,
        Jacobian solver iPoint jPoint iVar jVar
        = if Nat.eqb jPoint iPoint && Nat.eqb jVar iVar then 1 else 0).

(** The solver a domain-owned wall vertex is left with by either wall
    routine: the velocity condition, the energy residual and, for an
    implicit scheme, the diagonal block (when there is one to add)
    followed by the deletion of the momentum rows. *)
Definition wall_vertex_outcome (geometry : CGeometry) (solver : CNSSolver)
    (iPoint : nat) (implicit : bool) (Res_Conv Res_Visc : su2double)
    (block : option su2matrix) : CNSSolver :=
  let solver :=
    add_energy_residual (impose_wall_velocity geometry solver iPoint) iPoint
      Res_Conv Res_Visc in
  if implicit then
    delete_momentum_rows
      match block with
      | Some b =>
          set_Jacobian solver
            (SysMatrix.AddBlock2Diag (nVar solver) (Jacobian solver) iPoint b)
      | None => solver
      end iPoint
  else solver.

(** The wall heat flux in effect at a vertex of a heat-flux marker: the
    configured one, made non-dimensional, or the custom one of a
    customizable patch. *)
Definition prescribed_heat_flux (geometry : CGeometry) (config : CConfig)
    (val_marker iVertex : nat) : su2double :=
  if GetMarker_All_PyCustom config val_marker
  then GetCustomBoundaryHeatFlux geometry val_marker iVertex
  else GetWall_HeatFlux config (GetMarker_All_TagBound config val_marker)
       / GetHeat_Flux_Ref config.

(** The dual-grid face area of a boundary vertex. *)
Definition face_area (geometry : CGeometry) (solver : CNSSolver)
    (val_marker iVertex : nat) : su2double :=
  GeometryToolbox.Norm (nDim solver)
    (GetNormal (vertex geometry val_marker iVertex)).

(** The solver with another wall-shear-stress cache, everything else
    unchanged. *)
Definition recached (solver : CNSSolver) (cache : nat -> su2double)
  : CNSSolver :=
  set_nodes solver
    {| Primitive := Primitive (nodes solver);
       Secondary := Secondary (nodes solver);
       Gradient_Primitive := Gradient_Primitive (nodes solver);
       Velocity_Old := Velocity_Old (nodes solver);
       Res_TruncError := Res_TruncError (nodes solver);
       Tau_Wall := cache |}.

(** * The buffet metrics as the specification words them *)

(** The magnitude of the freestream velocity. *)
Definition freestream_speed (config : CConfig) (solver : CNSSolver)
  : su2double :=
  sqrt (accumulate (nDim solver) (fun iDim =>
          GetVelocity_FreeStream config iDim
          * GetVelocity_FreeStream config iDim)).

(** The skin-friction vector of a vertex dotted with the freestream
    velocity and normalized by both magnitudes. *)
Definition friction_alignment (config : CConfig) (solver : CNSSolver)
    (iMarker iVertex : nat) : su2double :=
  accumulate (nDim solver) (fun iDim =>
    CSkinFriction solver iMarker iDim iVertex
    * GetVelocity_FreeStream config iDim)
  / (sqrt (accumulate (nDim solver) (fun iDim =>
             CSkinFriction solver iMarker iDim iVertex
             * CSkinFriction solver iMarker iDim iVertex))
     * freestream_speed config solver).

(** The smooth Heaviside value 1/(1 + exp(2 k (d + lambda))). *)
Definition buffet_sensor (config : CConfig) (solver : CNSSolver)
    (iMarker iVertex : nat) : su2double :=
  1 / (1 + exp (2 * GetBuffet_k config
                * (friction_alignment config solver iMarker iVertex
                   + GetBuffet_lambda config))).

(** The sum over the vertices of a marker of sensor times face area
    divided by the reference area. *)
Definition marker_metric (geometry : CGeometry) (config : CConfig)
    (solver : CNSSolver) (iMarker : nat) : su2double :=
  accumulate (nVertex geometry iMarker) (fun iVertex =>
    buffet_sensor config solver iMarker iVertex
    * face_area geometry solver iMarker iVertex / GetRefArea config).

(** A viscous wall marker that is monitored. *)
Definition monitored_wall (config : CConfig) (iMarker : nat) : bool :=
  buffet_wall (GetMarker_All_KindBC config iMarker)
  && answer_eqb (GetMarker_All_Monitoring config iMarker) YES.

(** The sum of the metrics of the monitored wall markers. *)
Definition total_metric (geometry : CGeometry) (config : CConfig)
    (solver : CNSSolver) : su2double :=
  accumulate (nMarker solver) (fun iMarker =>
    if monitored_wall config iMarker
    then marker_metric geometry config solver iMarker else 0).

(** The metric of the monitored surface [iMarker_Monitoring]: that of the
    last monitored wall marker below [n] that carries its tag, 0 when
    there is none. *)
Fixpoint surface_metric (geometry : CGeometry) (config : CConfig)
    (solver : CNSSolver) (n iMarker_Monitoring : nat) : su2double :=
  match n with
  | O => 0
  | S iMarker =>
      if monitored_wall config iMarker
         && String.eqb (GetMarker_All_TagBound config iMarker)
              (GetMarker_Monitoring_TagBound config iMarker_Monitoring)
      then marker_metric geometry config solver iMarker
      else surface_metric geometry config solver iMarker iMarker_Monitoring
  end.

(** The weighted buffet terms of the composite objective. *)
Definition buffet_objective (config : CConfig) (solver : CNSSolver)
  : su2double :=
  accumulate (GetnMarker_Monitoring config) (fun iMarker_Monitoring =>
    match GetKind_ObjFunc config iMarker_Monitoring with
    | BUFFET_SENSOR =>
        GetWeight_ObjFunc config iMarker_Monitoring
        * Surface_Buffet_Metric solver iMarker_Monitoring
    | _ => 0
    end).

(** A partition in two: every marker's vertices are dealt, in order, the
    first ones to the first rank and the rest to the second, each vertex
    with its normal and its skin friction; both ranks keep the dimension
    and the markers. *)
Definition split_in_two (whole first second : CGeometry * CNSSolver) : Prop :=
  let '(g, s) := whole in
  let '(g1, s1) := first in
  let '(g2, s2) := second in
  nDim s1 = nDim s /\ nDim s2 = nDim s
  /\ nMarker s1 = nMarker s /\ nMarker s2 = nMarker s
  /\ forall iMarker,
       nVertex g iMarker = (nVertex g1 iMarker + nVertex g2 iMarker)%nat
       /\ (forall iVertex iDim, (iVertex < nVertex g1 iMarker)%nat ->
             GetNormal (vertex g1 iMarker iVertex) iDim
             = GetNormal (vertex g iMarker iVertex) iDim
             /\ CSkinFriction s1 iMarker iDim iVertex
                = CSkinFriction s iMarker iDim iVertex)
       /\ (forall iVertex iDim, (iVertex < nVertex g2 iMarker)%nat ->
             GetNormal (vertex g2 iMarker iVertex) iDim
             = GetNormal (vertex g iMarker (nVertex g1 iMarker + iVertex)) iDim
             /\ CSkinFriction s2 iMarker iDim iVertex
                = CSkinFriction s iMarker iDim (nVertex g1 iMarker + iVertex)).

(** * The conjugate wall temperature as the specification words it

    "Flux-weighted average of the wall-adjacent interior temperature and
    the externally supplied conjugate temperature, weighted by their
    respective heat-transfer coefficients". *)
Definition flux_weighted_average (There Tconjugate h_here h_conjugate : su2double)
  : su2double :=
  (There * h_here + Tconjugate * h_conjugate) / (h_here + h_conjugate).

(** The specified wall temperature of a CHT vertex: the local coefficient
    is the thermal conductivity times the reference viscosity divided by
    the distance to the interior neighbour. *)
Definition specified_CHT_Twall (geometry : CGeometry) (config : CConfig)
    (solver : CNSSolver) (val_marker iVertex : nat) : su2double :=
  let iPoint := GetNode (vertex geometry val_marker iVertex) in
  let Point_Normal := GetNormal_Neighbor (vertex geometry val_marker iVertex) in
  let thermal_conductivity :=
    Isothermal_thermal_conductivity config solver iPoint in
  let dist_ij := Isothermal_dist_ij geometry solver val_marker iVertex in
  let There := CVariable.GetTemperature (nodes solver) Point_Normal in
  let Tconjugate :=
    GetConjugateHeatVariable solver val_marker iVertex 0
    / GetTemperature_Ref config in
  flux_weighted_average There Tconjugate
    (thermal_conductivity * GetViscosity_Ref config / dist_ij)
    (GetConjugateHeatVariable solver val_marker iVertex 2).

(** * Concrete inputs

    Small meshes, configurations and states on which the statements
    below are exercised. *)

(** A configuration of one monitored wall marker named "wall", with unit
    reference values; the time integration and the CHT coupling are left
    open. *)
Definition wall_config (scheme : ENUM_TIME_INT) (kind_bc : BC_TYPE)
    (coupling : ENUM_CHT_COUPLING) : CConfig :=
  {| GetKind_TimeIntScheme := scheme;
     GetKind_Turb_Model := NONE;
     GetKind_HybridRANSLES := NO_HYBRIDRANSLES;
     GetnMarker_All := 1;
     GetMarker_All_KindBC := fun _ => kind_bc;
     GetMarker_All_Monitoring := fun _ => YES;
     GetMarker_All_TagBound := fun _ => "wall"%string;
     GetMarker_All_PyCustom := fun _ => false;
     GetViscous_Wall := fun _ => true;
     GetnMarker_Monitoring := 1;
     GetMarker_Monitoring_TagBound := fun _ => "wall"%string;
     GetWeight_ObjFunc := fun _ => 1;
     GetKind_ObjFunc := fun _ => BUFFET_SENSOR;
     GetVelocity_FreeStream := vset zeros 0 1;
     GetRefArea := 1;
     GetBuffet_k := 1;
     GetBuffet_lambda := 0;
     GetWall_HeatFlux := fun _ => 2;
     GetHeat_Flux_Ref := 1;
     GetIsothermal_Temperature := fun _ => 1;
     GetKind_CHT_Coupling := coupling;
     GetViscosity_Ref := 1;
     GetTemperature_Ref := 1;
     GetPrandtl_Lam := 1;
     GetPrandtl_Turb := 1;
     GetGas_ConstantND := 1 |}.

(** A variable store whose per-vertex state is one integer, a pressure:
    the update keeps it and reports the vertex physical when it is
    positive.  The pressure is negative at the vertices 3, 17 and 42. *)
Definition pressure_SetPrimVar (p : Z) (eddy_visc turb_ke : su2double)
    (FluidModel : unit) : Z * bool :=
  (p, Z.ltb 0 p).

Definition pressure_SetSecondaryVar (p : Z) (FluidModel : unit) : Z := p.

Definition pressure_SetDES_LengthScale (p : Z) (scale : su2double) : Z := p.

Definition pressure_store : nat -> Z :=
  fun iPoint =>
    if Nat.eqb iPoint 3 || Nat.eqb iPoint 17 || Nat.eqb iPoint 42
    then (-1)%Z else 1%Z.

(** The hundred iterations of the loop over [pressure_store] dealt to a
    team of two threads in chunks of 25, the way [schedule(static, 25)]
    deals them: the chunks in turn, first to the first thread. *)
Definition two_threads : list (list nat) :=
  [seq 0 25 ++ seq 50 25; seq 25 25 ++ seq 75 25].

(** The Newtonian viscous stress tensor, the instance of the stress kernel
    used on the concrete inputs:
    tau_ij = mu (d_j u_i + d_i u_j) - 2/3 mu div(u) delta_ij. *)
Definition Newtonian_stress (nDim : nat) (velgrad : su2matrix)
    (viscosity : su2double) : su2matrix :=
  let divVel := accumulate nDim (fun iDim => velgrad iDim iDim) in
  fun iDim jDim =>
    viscosity * (velgrad iDim jDim + velgrad jDim iDim)
    - (if Nat.eqb iDim jDim then 2 / 3 * viscosity * divVel else 0).

(** A two-dimensional mesh of two points: the wall point 0 at the origin
    and its interior neighbour 1 at (0, 1), joined by the edge 0.  The one
    marker has the one vertex 0, whose normal (0, -1) points out of the
    fluid. *)
Definition wall_geometry : CGeometry :=
  {| nVertex := fun _ => 1%nat;
     vertex := fun _ _ =>
       {| GetNode := 0;
          GetNormal := vset zeros 1 (-1);
          GetNormal_Neighbor := 1 |};
     GetDomain := fun _ => true;
     GetCoord := fun iPoint =>
       if Nat.eqb iPoint 1 then vset zeros 1 1 else zeros;
     GetGridVel := fun _ => zeros;
     edges_GetNode := fun _ k => k;
     edges_GetNormal := fun _ => vset zeros 1 1;
     GetCustomBoundaryHeatFlux := fun _ _ => 0;
     GetCustomBoundaryTemperature := fun _ _ => 0 |}.

(** Fluid at rest with unit temperature, pressure, density and laminar
    viscosity, no eddy viscosity, and the velocity gradient of a unit
    shear du/dy = 1. *)
Definition shear_nodes (cached_Tau_Wall : su2double) : CNSVariable :=
  {| Primitive := fun _ k =>
       if Nat.eqb k 0 || Nat.eqb k 3 || Nat.eqb k 4 || Nat.eqb k 7
       then 1 else 0;
     Secondary := fun _ => zeros;
     Gradient_Primitive := fun _ i j =>
       if Nat.eqb i 1 && Nat.eqb j 1 then 1 else 0;
     Velocity_Old := fun _ _ => 3;
     Res_TruncError := fun _ _ => 3;
     Tau_Wall := fun _ => cached_Tau_Wall |}.

(** A solver on a static mesh over [shear_nodes], with residual entries 7
    and Jacobian entries 9 left from the interior assembly; the conjugate
    solver supplies the temperature 0 and the heat-transfer coefficient 1. *)
Definition shear_solver (cached_Tau_Wall : su2double) : CNSSolver :=
  {| nDim := 2;
     nMarker := 1;
     Gamma := 2;
     Gamma_Minus_One := 1;
     dynamic_grid := false;
     ReducerStrategy := false;
     nodes := shear_nodes cached_Tau_Wall;
     LinSysRes := fun _ _ => 7;
     EdgeFluxes := fun _ _ => 0;
     Jacobian := fun _ _ _ _ => 9;
     ConjugateVar := fun _ _ pos => if Nat.eqb pos 2 then 1 else 0;
     CSkinFriction := fun _ _ _ => 0;
     Buffet_Sensor := fun _ _ => 0;
     Buffet_Metric := fun _ => 0;
     Surface_Buffet_Metric := fun _ => 0;
     Total_Buffet_Metric := 0;
     Total_ComboObj := 0 |}.

(** Numerics inputs before any edge has been loaded. *)
Definition blank_numerics : CNumerics :=
  {| Coord_i := zeros; Coord_j := zeros; Normal := zeros;
     V_i := zeros; V_j := zeros; S_i := zeros; S_j := zeros;
     PrimVar_Grad_i := zeros2; PrimVar_Grad_j := zeros2;
     turb_ke_i := 0; turb_ke_j := 0; TauWall_i := 0; TauWall_j := 0 |}.

(** A flux kernel that reads the two wall shear stresses it was given. *)
Definition shear_flux_kernel (numerics : CNumerics) (config : CConfig)
  : ResidualType :=
  {| residual := fun _ => TauWall_i numerics + 2 * TauWall_j numerics;
     jacobian_i := fun _ _ => 1;
     jacobian_j := fun _ _ => 2 |}.

(** Turbulence variables of a laminar run. *)
Definition no_turbulence : CTurbVariable :=
  {| GetmuT := fun _ => 0;
     GetSolution := fun _ _ => 0;
     GetDES_LengthScale := fun _ => 0 |}.

(** A solver on [shear_nodes] that holds the given skin friction. *)
Definition friction_solver (friction : nat -> nat -> nat -> su2double)
  : CNSSolver :=
  {| nDim := 2;
     nMarker := 1;
     Gamma := 2;
     Gamma_Minus_One := 1;
     dynamic_grid := false;
     ReducerStrategy := false;
     nodes := shear_nodes 0;
     LinSysRes := fun _ _ => 0;
     EdgeFluxes := fun _ _ => 0;
     Jacobian := fun _ _ _ _ => 0;
     ConjugateVar := fun _ _ _ => 0;
     CSkinFriction := friction;
     Buffet_Sensor := fun _ _ => 0;
     Buffet_Metric := fun _ => 0;
     Surface_Buffet_Metric := fun _ => 0;
     Total_Buffet_Metric := 0;
     Total_ComboObj := 0 |}.

(** A wall marker of [n] vertices of unit face area, the vertex
    [iVertex] being the vertex [first + iVertex] of the undivided wall. *)
Definition wall_strip (first n : nat) : CGeometry :=
  {| nVertex := fun _ => n;
     vertex := fun _ iVertex =>
       {| GetNode := (first + iVertex)%nat;
          GetNormal := vset zeros 1 (-1);
          GetNormal_Neighbor := (first + iVertex + 4)%nat |};
     GetDomain := fun _ => true;
     GetCoord := fun _ => zeros;
     GetGridVel := fun _ => zeros;
     edges_GetNode := fun _ k => k;
     edges_GetNormal := fun _ => zeros;
     GetCustomBoundaryHeatFlux := fun _ _ => 0;
     GetCustomBoundaryTemperature := fun _ _ => 0 |}.

(** Skin friction along the freestream at the even vertices of the
    undivided wall and against it at the odd ones (separated flow). *)
Definition strip_friction (first : nat) : nat -> nat -> nat -> su2double :=
  fun _ iDim iVertex =>
    if Nat.eqb iDim 0
    then (if Nat.even (first + iVertex) then 1 else -1)
    else 0.

(** The undivided four-vertex wall and its two halves. *)
Definition undivided_wall : CGeometry * CNSSolver :=
  (wall_strip 0 4, friction_solver (strip_friction 0)).

Definition first_half : CGeometry * CNSSolver :=
  (wall_strip 0 2, friction_solver (strip_friction 0)).

Definition second_half : CGeometry * CNSSolver :=
  (wall_strip 2 2, friction_solver (strip_friction 2)).

(** The strip [wall_strip first (owned + halo)] on a rank that owns the
    points of its first [owned] vertices only: the last [halo] vertices
    of the marker's list are halo copies of points of another rank. *)
Definition halo_strip (first owned halo : nat) : CGeometry :=
  let strip := wall_strip first (owned + halo) in
  {| nVertex := nVertex strip;
     vertex := vertex strip;
     GetDomain := fun iPoint => Nat.ltb iPoint (first + owned);
     GetCoord := GetCoord strip;
     GetGridVel := GetGridVel strip;
     edges_GetNode := edges_GetNode strip;
     edges_GetNormal := edges_GetNormal strip;
     GetCustomBoundaryHeatFlux := GetCustomBoundaryHeatFlux strip;
     GetCustomBoundaryTemperature := GetCustomBoundaryTemperature strip |}.

(** The first rank of the partition of the undivided wall into
    [first_half] and [second_half], holding besides the vertices 0 and 1
    it owns a halo copy of vertex 2, which the second rank owns. *)
Definition first_half_with_halo : CGeometry * CNSSolver :=
  (halo_strip 0 2 1, friction_solver (strip_friction 0)).

(** The objective terms common to both solvers, taken to add nothing. *)
Definition no_common_objective (config : CConfig) (solver : CNSSolver)
  : CNSSolver :=
  solver.

(** * What the wall boundary pass leaves behind on any mesh *)

(** The strong velocity condition at a wall point, on a moving mesh or a
    stationary one: the stored old velocity is the velocity of the wall
    (the grid velocity of the point on a dynamic grid, zero otherwise),
    the momentum rows of the residual are zero and, under implicit time
    integration, each momentum row of the Jacobian holds 1 on the diagonal
    and 0 everywhere else. *)
Definition wall_velocity_enforced (geometry : CGeometry) (implicit : bool)
    (solver : CNSSolver) (iPoint : nat) : Prop :=
  (forall iDim, (iDim < nDim solver)%nat ->
     Velocity_Old (nodes solver) iPoint iDim
     = if dynamic_grid solver then GetGridVel geometry iPoint iDim else 0)
  /\ (forall iDim, (iDim < nDim solver)%nat ->
        LinSysRes solver iPoint (iDim + 1)%nat = 0)
  /\ (implicit = true ->
      forall iVar, (1 <= iVar <= nDim solver)%nat ->
      forall jPoint jVar,
        Jacobian solver iPoint jPoint iVar jVar
        = if Nat.eqb jPoint iPoint && Nat.eqb jVar iVar then 1 else 0).

(** A point on which no domain-owned vertex of the marker sits. *)
Definition off_the_wall (geometry : CGeometry) (val_marker q : nat) : Prop :=
  forall iVertex, (iVertex < nVertex geometry val_marker)%nat ->
    GetDomain geometry (GetNode (vertex geometry val_marker iVertex)) = true ->
    GetNode (vertex geometry val_marker iVertex) <> q.

(** The members of the solver a wall pass has no business with: the
    dimension and the gas constants, the mesh-motion flag, the flow state
    of every point (primitive and secondary variables, gradients, cached
    wall shear stress), the edge fluxes and the conjugate heat data. *)
Definition wall_pass_keeps (before after : CNSSolver) : Prop :=
  nDim after = nDim before
  /\ dynamic_grid after = dynamic_grid before
  /\ Gamma after = Gamma before
  /\ Gamma_Minus_One after = Gamma_Minus_One before
  /\ Primitive (nodes after) = Primitive (nodes before)
  /\ Secondary (nodes after) = Secondary (nodes before)
  /\ Gradient_Primitive (nodes after) = Gradient_Primitive (nodes before)
  /\ Tau_Wall (nodes after) = Tau_Wall (nodes before)
  /\ EdgeFluxes after = EdgeFluxes before
  /\ ConjugateVar after = ConjugateVar before.

(** The wall temperature in effect at a vertex of an isothermal marker:
    the configured one, made non-dimensional, or the custom one of a
    customizable patch. *)
Definition isothermal_wall_temperature (geometry : CGeometry)
    (config : CConfig) (val_marker iVertex : nat) : su2double :=
  if GetMarker_All_PyCustom config val_marker
  then GetCustomBoundaryTemperature geometry val_marker iVertex
  else GetIsothermal_Temperature config (GetMarker_All_TagBound config val_marker)
       / GetTemperature_Ref config.

(** The conductive heat flux into an isothermal wall vertex, per unit
    area: the conductivity times the one-sided normal temperature
    gradient -(There - Twall)/dist_ij between the wall and its interior
    neighbour. *)
Definition isothermal_heat_flux (geometry : CGeometry) (config : CConfig)
    (solver : CNSSolver) (val_marker iVertex : nat) : su2double :=
  let iPoint := GetNode (vertex geometry val_marker iVertex) in
  let Point_Normal := GetNormal_Neighbor (vertex geometry val_marker iVertex) in
  let There := CVariable.GetTemperature (nodes solver) Point_Normal in
  let Twall := isothermal_wall_temperature geometry config val_marker iVertex in
  Isothermal_thermal_conductivity config solver iPoint
  * (- (There - Twall) / Isothermal_dist_ij geometry solver val_marker iVertex).

(** The configuration of [wall_config] for an implicit run with an
    isothermal wall held at the temperature 3. *)
Definition hot_wall_config : CConfig :=
  {| GetKind_TimeIntScheme := EULER_IMPLICIT;
     GetKind_Turb_Model := NONE;
     GetKind_HybridRANSLES := NO_HYBRIDRANSLES;
     GetnMarker_All := 1;
     GetMarker_All_KindBC := fun _ => ISOTHERMAL;
     GetMarker_All_Monitoring := fun _ => YES;
     GetMarker_All_TagBound := fun _ => "wall"%string;
     GetMarker_All_PyCustom := fun _ => false;
     GetViscous_Wall := fun _ => true;
     GetnMarker_Monitoring := 1;
     GetMarker_Monitoring_TagBound := fun _ => "wall"%string;
     GetWeight_ObjFunc := fun _ => 1;
     GetKind_ObjFunc := fun _ => BUFFET_SENSOR;
     GetVelocity_FreeStream := vset zeros 0 1;
     GetRefArea := 1;
     GetBuffet_k := 1;
     GetBuffet_lambda := 0;
     GetWall_HeatFlux := fun _ => 2;
     GetHeat_Flux_Ref := 1;
     GetIsothermal_Temperature := fun _ => 3;
     GetKind_CHT_Coupling := AVERAGED_TEMPERATURE_NEUMANN_HEATFLUX;
     GetViscosity_Ref := 1;
     GetTemperature_Ref := 1;
     GetPrandtl_Lam := 1;
     GetPrandtl_Turb := 1;
     GetGas_ConstantND := 1 |}.

(** * What the wall-function pass leaves behind *)

(** Two solvers that differ at most in the cached wall shear stress. *)
Definition same_but_Tau_Wall (before after : CNSSolver) : Prop :=
  nDim after = nDim before
  /\ nMarker after = nMarker before
  /\ Gamma after = Gamma before
  /\ Gamma_Minus_One after = Gamma_Minus_One before
  /\ dynamic_grid after = dynamic_grid before
  /\ ReducerStrategy after = ReducerStrategy before
  /\ Primitive (nodes after) = Primitive (nodes before)
  /\ Secondary (nodes after) = Secondary (nodes before)
  /\ Gradient_Primitive (nodes after) = Gradient_Primitive (nodes before)
  /\ Velocity_Old (nodes after) = Velocity_Old (nodes before)
  /\ Res_TruncError (nodes after) = Res_TruncError (nodes before)
  /\ LinSysRes after = LinSysRes before
  /\ EdgeFluxes after = EdgeFluxes before
  /\ Jacobian after = Jacobian before
  /\ ConjugateVar after = ConjugateVar before
  /\ CSkinFriction after = CSkinFriction before
  /\ Buffet_Sensor after = Buffet_Sensor before
  /\ Buffet_Metric after = Buffet_Metric before
  /\ Surface_Buffet_Metric after = Surface_Buffet_Metric before
  /\ Total_Buffet_Metric after = Total_Buffet_Metric before
  /\ Total_ComboObj after = Total_ComboObj before.

(** A point on which a domain-owned vertex of a viscous wall marker sits:
    the points the wall-function pass solves for. *)
Definition wall_function_point (geometry : CGeometry) (config : CConfig)
    (p : nat) : Prop :=
  exists iMarker iVertex,
    (iMarker < GetnMarker_All config)%nat
    /\ GetViscous_Wall config iMarker = true
    /\ (iVertex < nVertex geometry iMarker)%nat
    /\ GetDomain geometry (GetNode (vertex geometry iMarker iVertex)) = true
    /\ GetNode (vertex geometry iMarker iVertex) = p.

(** * Ranges of the buffet metrics *)

(** The magnitude of the skin-friction vector of a vertex. *)
Definition skin_friction_magnitude (solver : CNSSolver)
    (iMarker iVertex : nat) : su2double :=
  sqrt (accumulate (nDim solver) (fun iDim =>
          CSkinFriction solver iMarker iDim iVertex
          * CSkinFriction solver iMarker iDim iVertex)).

(** The area of a marker: the sum of the face areas of its vertices. *)
Definition wall_area (geometry : CGeometry) (solver : CNSSolver)
    (iMarker : nat) : su2double :=
  accumulate (nVertex geometry iMarker) (face_area geometry solver iMarker).

(** The solver with other values in the four buffet members. *)
Definition with_stale_metrics (solver : CNSSolver)
    (sensor : nat -> nat -> su2double) (metric surface : nat -> su2double)
    (total : su2double) : CNSSolver :=
  set_Total_Buffet_Metric
    (set_Surface_Buffet_Metric
       (set_Buffet_Metric (set_Buffet_Sensor solver sensor) metric) surface)
    total.

(** * The scatter of an edge flux *)

(** What [Viscous_Residual] does with the flux [res] of the edge once the
    kernel has returned it (the statements after [ComputeResidual]). *)
Definition Viscous_Residual_scatter (iEdge : nat) (geometry : CGeometry)
    (config : CConfig) (res : ResidualType) (solver : CNSSolver) : CNSSolver :=
  snd (Viscous_Residual (fun _ _ => res) iEdge geometry no_turbulence
         blank_numerics config solver).

(** * Low-dissipation sensor: [CNSSolver::SetRoe_Dissipation] *)

(** The kinds of low-dissipation Roe scheme the solver compares against,
    and one constructor for every other value of the selector. *)
Inductive ENUM_ROELOWDISS : Type :=
| FD
| NTS
| NTS_DUCROS
| FD_DUCROS
| OTHER_ROELOWDISS.

Definition roe_eqb (a b : ENUM_ROELOWDISS) : bool :=
  match a, b with
  | FD, FD | NTS, NTS | NTS_DUCROS, NTS_DUCROS | FD_DUCROS, FD_DUCROS
  | OTHER_ROELOWDISS, OTHER_ROELOWDISS => true
  | _, _ => false
  end.

Module RoeDissipation.

Section Sensor.

(** The two setters of [CNSVariable] are implemented outside src/; each
    is called for one point and is taken to read and write the state of
    that point, as a function of the values passed with it. *)
Variable PointState : Type.
Variable SetRoe_Dissipation_FD : PointState -> su2double -> PointState.
Variable SetRoe_Dissipation_NTS :
  PointState -> su2double -> su2double -> PointState.

(** [geometry->nodes->GetWall_Distance] and [GetMaxLength]. *)
Variable GetWall_Distance : nat -> su2double.
Variable GetMaxLength : nat -> su2double.

(** [config->GetKind_RoeLowDiss()] and [config->GetConst_DES()]. *)
Variable GetKind_RoeLowDiss : ENUM_ROELOWDISS.
Variable GetConst_DES : su2double.

(** Whether the build defines [NDEBUG], which compiles [assert] out. *)
Variable NDEBUG : bool.

(** The body of the loop over [iPoint]; a failed [assert] ends the run
    with the text of the assertion. *)
Definition SetRoe_Dissipation_body (nodes : nat -> PointState) (iPoint : nat)
  : Result (nat -> PointState) :=
  let kind_roe_dissipation := GetKind_RoeLowDiss in
  if roe_eqb kind_roe_dissipation FD || roe_eqb kind_roe_dissipation FD_DUCROS
  then
    let wall_distance := GetWall_Distance iPoint in
    Ok (PrimitiveUpdate.at_point PointState nodes iPoint
          (fun p => SetRoe_Dissipation_FD p wall_distance))
  else if roe_eqb kind_roe_dissipation NTS
          || roe_eqb kind_roe_dissipation NTS_DUCROS
  then
    let delta := GetMaxLength iPoint in
    let assert := if NDEBUG then true else if Rgt_dec delta 0 then true else false in
    if assert then
      Ok (PrimitiveUpdate.at_point PointState nodes iPoint
            (fun p => SetRoe_Dissipation_NTS p delta GetConst_DES))
    else Fatal "Delta must be initialized and non-negative"
  else Ok nodes.

(** [CNSSolver::SetRoe_Dissipation]. *)
Definition SetRoe_Dissipation (nPoint : nat) (nodes : nat -> PointState)
  : Result (nat -> PointState) :=
  for_loop_result nPoint SetRoe_Dissipation_body nodes.

(** What the pass stores for one point. *)
Definition sensed (nodes : nat -> PointState) (iPoint : nat) : PointState :=
  match GetKind_RoeLowDiss with
  | FD | FD_DUCROS =>
      SetRoe_Dissipation_FD (nodes iPoint) (GetWall_Distance iPoint)
  | NTS | NTS_DUCROS =>
      SetRoe_Dissipation_NTS (nodes iPoint) (GetMaxLength iPoint) GetConst_DES
  | OTHER_ROELOWDISS => nodes iPoint
  end.

End Sensor.

End RoeDissipation.

(** * Strain and vorticity maxima of [CNSSolver::Preprocessing] *)

(** [nodes->GetStrainMag(iPoint)] and [nodes->GetVorticity(iPoint)], as
    [SetVorticity_StrainMag] (outside src/) has left them. *)
Record CStrainVariable : Type := {
  GetStrainMag : nat -> su2double;
  GetVorticity : nat -> su2vector
}.

Module Maxima.

(** The magnitude of the vorticity of a point; the three components are
    read whatever the dimension. *)
Definition Omega (nodes : CStrainVariable) (iPoint : nat) : su2double :=
  let Vorticity := GetVorticity nodes iPoint in
  sqrt (Vorticity 0%nat * Vorticity 0%nat + Vorticity 1%nat * Vorticity 1%nat
        + Vorticity 2%nat * Vorticity 2%nat).

(** The body of the loop over [iPoint], on the thread's own [strainMax]
    and [omegaMax]; [max] is [std::max]. *)
Definition body (nodes : CStrainVariable) (s : su2double * su2double)
    (iPoint : nat) : su2double * su2double :=
  let '(strainMax, omegaMax) := s in
  let StrainMag := GetStrainMag nodes iPoint in
  let Omega := Omega nodes iPoint in
  (Rmax strainMax StrainMag, Rmax omegaMax Omega).

(** One thread: the loop over its share of the points, from maxima of
    0.0, followed by the critical section on the solver's [StrainMag_Max]
    and [Omega_Max]. *)
Definition thread (nodes : CStrainVariable) (shared : su2double * su2double)
    (share : list nat) : su2double * su2double :=
  let '(strainMax, omegaMax) := fold_left (body nodes) share (0.0, 0.0) in
  let '(StrainMag_Max, Omega_Max) := shared in
  (Rmax StrainMag_Max strainMax, Rmax Omega_Max omegaMax).

(** The solver's [StrainMag_Max] and [Omega_Max] on a rank, before the
    reduction across ranks: the master thread sets both to 0.0, then the
    threads, each with its share of the points, go through the critical
    section in the order of the list. *)
Definition Preprocessing_maxima (nodes : CStrainVariable)
    (shares : list (list nat)) : su2double * su2double :=
  fold_left (thread nodes) shares (0.0, 0.0).

(** A schedule of the loop over [nPoint] points: every point below
    [nPoint] is in the share of some thread, and nothing else is. *)
Definition schedule (nPoint : nat) (shares : list (list nat)) : Prop :=
  forall iPoint, In iPoint (concat shares) <-> (iPoint < nPoint)%nat.

(** The build without OpenMP: one thread takes all the points in order. *)
Definition sequential (nPoint : nat) : list (list nat) := [seq 0 nPoint].

End Maxima.

(** Four points with strain magnitudes 1, 4, 2, 3 and a vorticity along
    z of 0, 3, 0, 4. *)
Definition four_point_strain : CStrainVariable :=
  {| GetStrainMag := fun iPoint =>
       match iPoint with
       | 0%nat => 1 | 1%nat => 4 | 2%nat => 2 | _ => 3
       end;
     GetVorticity := fun iPoint =>
       vset zeros 2
         match iPoint with
         | 1%nat => 3 | 3%nat => 4 | _ => 0
         end |}.

(** A scratch Jacobian block that is zero outside its energy row
    (a null block counts). *)
Definition energy_row_only (nDim : nat) (Jacobian_i : option su2matrix)
  : Prop :=
  match Jacobian_i with
  | Some block =>
      forall iVar jVar, iVar <> (nDim + 1)%nat -> block iVar jVar = 0
  | None => True
  end.

(** * Loops and arrays *)

Lemma for_loop_S {S : Type} (n : nat) (body : S -> nat -> S) (s : S) :
  for_loop (Datatypes.S n) body s = body (for_loop n body s) n.
Proof.
  unfold for_loop. rewrite seq_S, fold_left_app. reflexivity.
Qed.

(** * The primitive state updater counts the non-physical vertices *)

Section PrimitiveUpdateFacts.

Variable PointState : Type.
Variable CFluidModel : Type.
Variable SetPrimVar :
  PointState -> su2double -> su2double -> CFluidModel -> PointState * bool.
Variable SetSecondaryVar : PointState -> CFluidModel -> PointState.
Variable SetDES_LengthScale : PointState -> su2double -> PointState.
Variable config : CConfig.
Variable TURB_SOL : option CTurbVariable.
Variable FluidModel : CFluidModel.

Local Abbreviation run :=
  (PrimitiveUpdate.SetPrimitive_Variables PointState CFluidModel SetPrimVar
     SetSecondaryVar SetDES_LengthScale config TURB_SOL FluidModel).
Local Abbreviation team :=
  (PrimitiveUpdate.SetPrimitive_Variables_team PointState CFluidModel
     SetPrimVar SetSecondaryVar SetDES_LengthScale config TURB_SOL FluidModel).
Local Abbreviation body :=
  (PrimitiveUpdate.SetPrimitive_Variables_body PointState CFluidModel
     SetPrimVar SetSecondaryVar SetDES_LengthScale config TURB_SOL FluidModel).
Local Abbreviation updated :=
  (PrimitiveUpdate.updated PointState CFluidModel SetPrimVar
     SetSecondaryVar SetDES_LengthScale config TURB_SOL FluidModel).
Local Abbreviation nonphysical :=
  (PrimitiveUpdate.nonphysical PointState CFluidModel SetPrimVar
     SetSecondaryVar SetDES_LengthScale config TURB_SOL FluidModel).
Local Abbreviation count_nonphysical :=
  (PrimitiveUpdate.count_nonphysical PointState CFluidModel SetPrimVar
     SetSecondaryVar SetDES_LengthScale config TURB_SOL FluidModel).
Local Abbreviation Store := (PrimitiveUpdate.VariableStore PointState).
Local Abbreviation count_nonphysical_in :=
  (PrimitiveUpdate.count_nonphysical_in PointState CFluidModel SetPrimVar
     SetSecondaryVar SetDES_LengthScale config TURB_SOL FluidModel).

Lemma count_nonphysical_S nodes n :
  count_nonphysical nodes (S n)
  = (count_nonphysical nodes n + if nonphysical nodes n then 1 else 0)%nat.
Proof.
  unfold PrimitiveUpdate.count_nonphysical.
  rewrite seq_S, filter_app, length_app. simpl.
  destruct (nonphysical nodes n); reflexivity.
Qed.

Lemma count_nonphysical_le nodes n : (count_nonphysical nodes n <= n)%nat.
Proof.
  unfold PrimitiveUpdate.count_nonphysical.
  etransitivity; [apply filter_length_le | rewrite length_seq; reflexivity].
Qed.

Lemma count_nonphysical_in_le nodes share :
  (count_nonphysical_in nodes share <= length share)%nat.
Proof. apply filter_length_le. Qed.

Lemma count_nonphysical_in_app nodes a b :
  count_nonphysical_in nodes (a ++ b)
  = (count_nonphysical_in nodes a + count_nonphysical_in nodes b)%nat.
Proof.
  unfold PrimitiveUpdate.count_nonphysical_in.
  rewrite filter_app, length_app. reflexivity.
Qed.

(** The count of a list of vertices does not depend on their order. *)
Lemma count_nonphysical_in_Permutation nodes a b :
  Permutation a b -> count_nonphysical_in nodes a = count_nonphysical_in nodes b.
Proof.
  unfold PrimitiveUpdate.count_nonphysical_in.
  induction 1 as [|x a b _ IH|x y a|a b c _ IHab _ IHbc]; cbn [filter].
  - reflexivity.
  - destruct (nonphysical nodes x); cbn [length]; rewrite IH; reflexivity.
  - destruct (nonphysical nodes x), (nonphysical nodes y); reflexivity.
  - rewrite IHab. exact IHbc.
Qed.

(** The tuples and the flag of a vertex depend on its state alone. *)
Lemma updated_local nodes nodes0 iPoint :
  nodes iPoint = nodes0 iPoint -> updated nodes iPoint = updated nodes0 iPoint.
Proof.
  intros E. unfold PrimitiveUpdate.updated. rewrite E. reflexivity.
Qed.

(** One iteration: the vertex gets the tuples computed from its state,
    whatever the flag, and the count grows by one when the flag is off. *)
Lemma SetPrimitive_Variables_body_step (nodes : Store) count iPoint out :
  body (nodes, count) iPoint = out ->
  snd out
  = PrimitiveUpdate.ulong_add count
      (if nonphysical nodes iPoint then 1 else 0)%Z
  /\ forall k,
       fst out k
       = if Nat.eqb k iPoint then fst (updated nodes iPoint) else nodes k.
Proof.
  intros <-.
  unfold PrimitiveUpdate.SetPrimitive_Variables_body,
    PrimitiveUpdate.nonphysical, PrimitiveUpdate.updated.
  assert (Hat : PrimitiveUpdate.at_point PointState nodes iPoint
              (PrimitiveUpdate.with_length_scale PointState SetDES_LengthScale
                 config TURB_SOL iPoint) iPoint
            = PrimitiveUpdate.with_length_scale PointState SetDES_LengthScale
                 config TURB_SOL iPoint (nodes iPoint)).
  { unfold PrimitiveUpdate.at_point. rewrite Nat.eqb_refl. reflexivity. }
  rewrite Hat.
  destruct (SetPrimVar _ _ _ _) as [prim physical].
  cbn [fst snd]. split; [reflexivity|].
  intros k. unfold PrimitiveUpdate.at_point.
  destruct (Nat.eqb k iPoint); reflexivity.
Qed.

(** A call on a share whose vertices still hold their state on entry
    [nodes0]: the count grows by the number of non-physical vertices of
    the share, every vertex of the share gets its tuples, and no other
    vertex is written. *)
Lemma SetPrimitive_Variables_share (nodes0 : Store) :
  forall share (nodes : Store) count,
  NoDup share ->
  (forall iPoint, In iPoint share -> nodes iPoint = nodes0 iPoint) ->
  (0 <= count)%Z ->
  (count + Z.of_nat (length share) < 2 ^ 64)%Z ->
  snd (fold_left body share (nodes, count))
  = (count + Z.of_nat (count_nonphysical_in nodes0 share))%Z
  /\ forall k,
       fst (fold_left body share (nodes, count)) k
       = if existsb (Nat.eqb k) share then fst (updated nodes0 k)
         else nodes k.
Proof.
  induction share as [|a share IH]; intros nodes count Hnd Hin H0 Hlt.
  - cbn. split; [lia | reflexivity].
  - cbn [fold_left].
    destruct (body (nodes, count) a) as [nodes1 count1] eqn:Eb.
    destruct (SetPrimitive_Variables_body_step nodes count a _ Eb) as [Hc Hs].
    cbn [fst snd] in Hc, Hs.
    apply NoDup_cons_iff in Hnd as [Hna Hnd'].
    assert (Ea : nodes a = nodes0 a) by (apply Hin; left; reflexivity).
    assert (Hflag : nonphysical nodes a = nonphysical nodes0 a).
    { unfold PrimitiveUpdate.nonphysical.
      rewrite (updated_local nodes nodes0 a Ea). reflexivity. }
    assert (Hc1 : count1
              = (count + if nonphysical nodes0 a then 1 else 0)%Z).
    { rewrite Hc, Hflag. unfold PrimitiveUpdate.ulong_add.
      cbn [length] in Hlt.
      rewrite Z.mod_small; [reflexivity|].
      destruct (nonphysical nodes0 a); lia. }
    destruct (IH nodes1 count1) as [IHc IHs].
    + exact Hnd'.
    + intros i Hi. rewrite Hs.
      destruct (Nat.eqb_spec i a) as [->|_]; [contradiction|].
      apply Hin. right. exact Hi.
    + rewrite Hc1. destruct (nonphysical nodes0 a); lia.
    + rewrite Hc1. cbn [length] in Hlt.
      destruct (nonphysical nodes0 a); lia.
    + split.
      * rewrite IHc, Hc1. unfold PrimitiveUpdate.count_nonphysical_in.
        cbn [filter]. destruct (nonphysical nodes0 a); cbn [length]; lia.
      * intros k. rewrite IHs, Hs. cbn [existsb].
        destruct (Nat.eqb_spec k a) as [->|Hne].
        -- rewrite (updated_local nodes nodes0 a Ea).
           destruct (existsb (Nat.eqb a) share); reflexivity.
        -- cbn [orb]. reflexivity.
Qed.

Lemma NoDup_app_disjoint (l l' : list nat) :
  NoDup (l ++ l') -> forall x, In x l -> In x l' -> False.
Proof.
  induction l as [|a l IH]; intros Hnd x Hl Hl'; [destruct Hl|].
  cbn [app] in Hnd. apply NoDup_cons_iff in Hnd as [Hna Hnd].
  destruct Hl as [->|Hl].
  - apply Hna, in_or_app. right. exact Hl'.
  - exact (IH Hnd x Hl Hl').
Qed.

Lemma existsb_eqb_In k (l : list nat) :
  existsb (Nat.eqb k) l = true <-> In k l.
Proof.
  rewrite existsb_exists. split.
  - intros (x & Hx & E). apply Nat.eqb_eq in E. subst. exact Hx.
  - intros H. exists k. split; [exact H | apply Nat.eqb_refl].
Qed.

(** The calls of a team, thread after thread, on shares that do not
    overlap and whose vertices still hold their state on entry. *)
Lemma SetPrimitive_Variables_team_run (nodes0 : Store) :
  forall shares (nodes : Store) returned,
  NoDup (concat shares) ->
  (forall iPoint, In iPoint (concat shares) -> nodes iPoint = nodes0 iPoint) ->
  (Z.of_nat (length (concat shares)) < 2 ^ 64)%Z ->
  let after :=
    fold_left
      (fun (s : Store * list Z) share =>
         let '(nodes, returned) := s in
         let '(nodes, nonPhysicalPoints) := run share nodes in
         (nodes, returned ++ [nonPhysicalPoints]))
      shares (nodes, returned) in
  snd after
  = returned
    ++ map (fun share => Z.of_nat (count_nonphysical_in nodes0 share)) shares
  /\ forall k,
       fst after k
       = if existsb (Nat.eqb k) (concat shares) then fst (updated nodes0 k)
         else nodes k.
Proof.
  induction shares as [|share shares IH]; intros nodes returned Hnd Hin Hlt.
  - cbn. split; [rewrite app_nil_r; reflexivity | reflexivity].
  - cbn [concat] in Hnd, Hin, Hlt. rewrite length_app in Hlt.
    apply NoDup_app_remove_l in Hnd as Hnd2.
    apply NoDup_app_remove_r in Hnd as Hnd1.
    destruct (SetPrimitive_Variables_share nodes0 share nodes 0%Z)
      as [Hc Hs].
    + exact Hnd1.
    + intros i Hi. apply Hin, in_or_app. left. exact Hi.
    + lia.
    + lia.
    + cbn zeta. cbn [fold_left].
      change (fold_left body share (nodes, 0%Z)) with (run share nodes)
        in Hc, Hs.
      destruct (run share nodes) as [nodes1 count1].
      cbn [fst snd] in Hc, Hs.
      destruct (IH nodes1 (returned ++ [count1])) as [IHc IHs].
      * exact Hnd2.
      * intros i Hi. rewrite Hs.
        destruct (existsb (Nat.eqb i) share) eqn:E.
        -- exfalso. apply existsb_eqb_In in E.
           exact (NoDup_app_disjoint _ _ Hnd i E Hi).
        -- apply Hin, in_or_app. right. exact Hi.
      * lia.
      * split.
        -- rewrite IHc, Hc, <- app_assoc. reflexivity.
        -- intros k. rewrite IHs, Hs. cbn [concat].
           rewrite existsb_app.
           destruct (existsb (Nat.eqb k) (concat shares)) eqn:E.
           ++ rewrite orb_true_r. reflexivity.
           ++ rewrite orb_false_r. reflexivity.
Qed.

(** What [work_shared] says of the shares: no iteration is handed out
    twice, and the iterations handed out are the ones below [nPoint]. *)
Lemma work_shared_spec nPoint shares :
  PrimitiveUpdate.work_shared nPoint shares = true ->
  NoDup (concat shares)
  /\ length (concat shares) = nPoint
  /\ forall iPoint, In iPoint (concat shares) <-> (iPoint < nPoint)%nat.
Proof.
  unfold PrimitiveUpdate.work_shared. intros H.
  apply andb_true_iff in H as [Hall Hlen].
  apply Nat.eqb_eq in Hlen.
  assert (Hincl : incl (seq 0 nPoint) (concat shares)).
  { intros i Hi. rewrite forallb_forall in Hall.
    apply existsb_eqb_In, Hall, Hi. }
  assert (Hle : (length (concat shares) <= length (seq 0 nPoint))%nat)
    by (rewrite length_seq, Hlen; reflexivity).
  split; [|split; [exact Hlen|]].
  - eapply NoDup_incl_NoDup; [apply (seq_NoDup nPoint 0) | exact Hle |].
    exact Hincl.
  - intros i. split.
    + intros Hi.
      assert (Hback : incl (concat shares) (seq 0 nPoint)).
      { eapply NoDup_length_incl; [apply (seq_NoDup nPoint 0) | exact Hle |].
        exact Hincl. }
      apply Hback, in_seq in Hi. lia.
    + intros Hi. apply Hincl, in_seq. lia.
Qed.

Lemma count_nonphysical_in_concat nodes shares :
  fold_right Z.add 0%Z
    (map (fun share => Z.of_nat (count_nonphysical_in nodes share)) shares)
  = Z.of_nat (count_nonphysical_in nodes (concat shares)).
Proof.
  induction shares as [|share shares IH]; [reflexivity|].
  cbn [map fold_right concat].
  rewrite IH, count_nonphysical_in_app. lia.
Qed.

(** C6, as amended.  The count a call returns is the number of vertices,
    among those the calling thread updates, whose update reported a
    non-physical state.  For a team of threads among which the loop over
    [nPoint] vertices (a count that fits [unsigned long]) is shared, thread
    by thread: each thread is returned the count of its share, the counts
    add up to the number of non-physical vertices of the state set, and
    every vertex below [nPoint] holds, whatever its flag, the primitive
    and secondary tuples computed from its state on entry; nothing else is
    written, so no state is corrected in place.  A call that is not made
    by a team runs every iteration and returns that number itself. *)
Theorem SetPrimitive_Variables_counts_nonphysical (nodes : Store) nPoint
    shares :
  (Z.of_nat nPoint < 2 ^ 64)%Z ->
  PrimitiveUpdate.work_shared nPoint shares = true ->
  snd (team shares nodes)
  = map (fun share => Z.of_nat (count_nonphysical_in nodes share)) shares
  /\ fold_right Z.add 0%Z (snd (team shares nodes))
     = Z.of_nat (count_nonphysical nodes nPoint)
  /\ (forall iPoint,
        fst (team shares nodes) iPoint
        = if Nat.ltb iPoint nPoint then fst (updated nodes iPoint)
          else nodes iPoint)
  /\ snd (run (PrimitiveUpdate.serial nPoint) nodes)
     = Z.of_nat (count_nonphysical nodes nPoint)
  /\ (forall iPoint,
        fst (run (PrimitiveUpdate.serial nPoint) nodes) iPoint
        = if Nat.ltb iPoint nPoint then fst (updated nodes iPoint)
          else nodes iPoint).
Proof.
  intros Hn Hshared.
  destruct (work_shared_spec nPoint shares Hshared) as (Hnd & Hlen & Hin).
  destruct (SetPrimitive_Variables_team_run nodes shares nodes [])
    as [Hc Hs]; [exact Hnd | reflexivity | lia |].
  cbn zeta in Hc, Hs. cbn [app] in Hc.
  assert (Hmem : forall k,
            existsb (Nat.eqb k) (concat shares) = Nat.ltb k nPoint).
  { intros k. apply eq_true_iff_eq.
    rewrite existsb_eqb_In, Nat.ltb_lt. apply Hin. }
  assert (Hmem' : forall k,
            existsb (Nat.eqb k) (seq 0 nPoint) = Nat.ltb k nPoint).
  { intros k. apply eq_true_iff_eq.
    rewrite existsb_eqb_In, Nat.ltb_lt, in_seq. lia. }
  destruct (SetPrimitive_Variables_share nodes (seq 0 nPoint) nodes 0%Z)
    as [Sc Ss];
    [apply seq_NoDup | reflexivity | lia | rewrite length_seq; lia |].
  split; [exact Hc|]. split.
  { unfold PrimitiveUpdate.SetPrimitive_Variables_team. rewrite Hc.
    rewrite count_nonphysical_in_concat. f_equal.
    apply count_nonphysical_in_Permutation.
    apply NoDup_Permutation; [exact Hnd | apply seq_NoDup |].
    intros k. rewrite Hin, in_seq. lia. }
  split.
  { intros k. unfold PrimitiveUpdate.SetPrimitive_Variables_team.
    rewrite Hs, Hmem. reflexivity. }
  split.
  { unfold PrimitiveUpdate.SetPrimitive_Variables, PrimitiveUpdate.serial.
    rewrite Sc. reflexivity. }
  intros k.
  unfold PrimitiveUpdate.SetPrimitive_Variables, PrimitiveUpdate.serial.
  rewrite Ss, Hmem'. reflexivity.
Qed.

End PrimitiveUpdateFacts.

(** The hundred vertices of [pressure_store] dealt to [two_threads]: the
    first thread is returned 2 and the second 1, which add up to the 3
    vertices with a negative pressure; a call that is not made by a team
    is returned 3. *)
Lemma SetPrimitive_Variables_three_of_hundred :
  let config :=
    wall_config EULER_IMPLICIT HEAT_FLUX DIRECT_TEMPERATURE_NEUMANN_HEATFLUX in
  (Z.of_nat 100 < 2 ^ 64)%Z
  /\ PrimitiveUpdate.work_shared 100 two_threads = true
  /\ fold_right Z.add 0%Z
       (snd (PrimitiveUpdate.SetPrimitive_Variables_team Z unit
               pressure_SetPrimVar pressure_SetSecondaryVar
               pressure_SetDES_LengthScale config None tt two_threads
               pressure_store)) = 3%Z
  /\ snd (PrimitiveUpdate.SetPrimitive_Variables Z unit pressure_SetPrimVar
            pressure_SetSecondaryVar pressure_SetDES_LengthScale config
            None tt (PrimitiveUpdate.serial 100) pressure_store) = 3%Z.
Proof.
  intros config.
  assert (Hn : (Z.of_nat 100 < 2 ^ 64)%Z) by lia.
  assert (Hs : PrimitiveUpdate.work_shared 100 two_threads = true)
    by (vm_compute; reflexivity).
  split; [exact Hn|]. split; [exact Hs|].
  destruct (SetPrimitive_Variables_counts_nonphysical Z unit
              pressure_SetPrimVar pressure_SetSecondaryVar
              pressure_SetDES_LengthScale config None tt pressure_store 100
              two_threads Hn Hs) as (_ & Hsum & _ & Hserial & _).
  split; [rewrite Hsum | rewrite Hserial]; vm_compute; reflexivity.
Defined.

(** C6, as it was claimed, fails in a team: of the 3 vertices of
    [pressure_store] with a negative pressure, the call of the first of
    [two_threads] returns 2 and the call of the second returns 1. *)
Lemma SetPrimitive_Variables_returns_the_count_of_the_share :
  let config :=
    wall_config EULER_IMPLICIT HEAT_FLUX DIRECT_TEMPERATURE_NEUMANN_HEATFLUX in
  let returned :=
    snd (PrimitiveUpdate.SetPrimitive_Variables_team Z unit
           pressure_SetPrimVar pressure_SetSecondaryVar
           pressure_SetDES_LengthScale config None tt two_threads
           pressure_store) in
  PrimitiveUpdate.work_shared 100 two_threads = true
  /\ PrimitiveUpdate.count_nonphysical Z unit pressure_SetPrimVar
       pressure_SetSecondaryVar pressure_SetDES_LengthScale config None tt
       pressure_store 100 = 3%nat
  /\ returned = [2%Z; 1%Z]
  /\ Forall (fun nonPhysicalPoints => nonPhysicalPoints <> 3%Z) returned.
Proof.
  intros config returned.
  assert (Hr : returned = [2%Z; 1%Z]) by (vm_compute; reflexivity).
  split; [vm_compute; reflexivity|].
  split; [vm_compute; reflexivity|].
  split; [exact Hr|].
  rewrite Hr. repeat constructor; discriminate.
Qed.

(** * The edge viscous flux assembler *)

Section ViscousResidualFacts.

Variable ComputeResidual : CNumerics -> CConfig -> ResidualType.
Variable geometry : CGeometry.
Variable TURB_SOL : CTurbVariable.
Variable numerics : CNumerics.
Variable config : CConfig.

Lemma Viscous_Residual_loads_TauWall_of_i iEdge solver :
  let loaded :=
    Viscous_Residual_numerics iEdge geometry TURB_SOL numerics config solver in
  TauWall_i loaded
  = CVariable.GetTauWall (nodes solver) (edges_GetNode geometry iEdge 0)
  /\ TauWall_j loaded
     = CVariable.GetTauWall (nodes solver) (edges_GetNode geometry iEdge 0).
Proof. split; reflexivity. Qed.

(** C10.  For the edge (i, j) the assembler hands the flux kernel the
    cached wall shear stress of vertex i for both endpoints; the one cached
    at j is never read, so the inputs of the kernel, and with them the
    flux and its Jacobian blocks, do not change when the value cached at j
    is replaced by any other. *)
Theorem Viscous_Residual_ignores_TauWall_of_j iEdge solver (val : su2double) :
  edges_GetNode geometry iEdge 0 <> edges_GetNode geometry iEdge 1 ->
  let iPoint := edges_GetNode geometry iEdge 0 in
  let jPoint := edges_GetNode geometry iEdge 1 in
  let loaded :=
    Viscous_Residual_numerics iEdge geometry TURB_SOL numerics config solver in
  let recached :=
    set_nodes solver (CVariable.SetTauWall (nodes solver) jPoint val) in
  TauWall_i loaded = CVariable.GetTauWall (nodes solver) iPoint
  /\ TauWall_j loaded = CVariable.GetTauWall (nodes solver) iPoint
  /\ Viscous_Residual_numerics iEdge geometry TURB_SOL numerics config recached
     = loaded
  /\ Viscous_Residual_flux ComputeResidual iEdge geometry TURB_SOL numerics
       config recached
     = Viscous_Residual_flux ComputeResidual iEdge geometry TURB_SOL numerics
         config solver.
Proof.
  intros Hij iPoint jPoint loaded recached.
  assert (Hload :
    Viscous_Residual_numerics iEdge geometry TURB_SOL numerics config recached
    = loaded).
  { unfold loaded, recached, Viscous_Residual_numerics.
    cbn [set_nodes nodes CVariable.SetTauWall CVariable.GetTauWall
         Primitive Secondary Gradient_Primitive Tau_Wall].
    fold iPoint jPoint.
    destruct (Nat.eqb_spec iPoint jPoint) as [E|_]; [contradiction|].
    reflexivity. }
  repeat split; try reflexivity; try exact Hload.
  unfold Viscous_Residual_flux. rewrite Hload. reflexivity.
Qed.

(** C8.  In the direct-scatter mode the flux of the edge (i, j) is
    subtracted from the residual block of i and added to the block of j,
    every other residual block and the edge buffer are left as they were,
    and under implicit time integration the off-diagonal Jacobian block
    of row i loses the derivative with respect to state j while the
    off-diagonal block of row j gains the derivative with respect to
    state i; an explicit scheme leaves the Jacobian alone. *)
Theorem Viscous_Residual_direct_scatter iEdge solver :
  ReducerStrategy solver = false ->
  edges_GetNode geometry iEdge 0 <> edges_GetNode geometry iEdge 1 ->
  let iPoint := edges_GetNode geometry iEdge 0 in
  let jPoint := edges_GetNode geometry iEdge 1 in
  let flux :=
    Viscous_Residual_flux ComputeResidual iEdge geometry TURB_SOL numerics
      config solver in
  let after :=
    snd (Viscous_Residual ComputeResidual iEdge geometry TURB_SOL numerics
           config solver) in
  (forall iVar, (iVar < nVar solver)%nat ->
     LinSysRes after iPoint iVar
     = LinSysRes solver iPoint iVar - residual flux iVar
     /\ LinSysRes after jPoint iVar
        = LinSysRes solver jPoint iVar + residual flux iVar)
  /\ (forall kPoint iVar, kPoint <> iPoint -> kPoint <> jPoint ->
        LinSysRes after kPoint iVar = LinSysRes solver kPoint iVar)
  /\ EdgeFluxes after = EdgeFluxes solver
  /\ (GetKind_TimeIntScheme config = EULER_IMPLICIT ->
      forall iVar jVar, (iVar < nVar solver)%nat -> (jVar < nVar solver)%nat ->
        Jacobian after iPoint jPoint iVar jVar
        = Jacobian solver iPoint jPoint iVar jVar - jacobian_j flux iVar jVar
        /\ Jacobian after jPoint iPoint iVar jVar
           = Jacobian solver jPoint iPoint iVar jVar + jacobian_i flux iVar jVar)
  /\ (GetKind_TimeIntScheme config <> EULER_IMPLICIT ->
      Jacobian after = Jacobian solver).
Proof.
  intros Hdirect Hij iPoint jPoint flux after.
  assert (Hji : jPoint <> iPoint) by (intro E; apply Hij; symmetry; exact E).
  unfold after, Viscous_Residual. rewrite Hdirect.
  fold iPoint jPoint. fold (Viscous_Residual_flux ComputeResidual iEdge
    geometry TURB_SOL numerics config solver). fold flux.
  cbn [snd].
  repeat split.
  - destruct (time_int_eqb _ _); cbn; unfold SysVector.AddBlock,
      SysVector.SubtractBlock; rewrite Nat.eqb_refl;
    destruct (Nat.eqb_spec iPoint jPoint); try contradiction;
    apply Nat.ltb_lt in H; unfold nVar in *; cbn [nDim]; rewrite H; reflexivity.
  - destruct (time_int_eqb _ _); cbn; unfold SysVector.AddBlock,
      SysVector.SubtractBlock; rewrite Nat.eqb_refl;
    destruct (Nat.eqb_spec jPoint iPoint); try contradiction;
    apply Nat.ltb_lt in H; unfold nVar in *; cbn [nDim]; rewrite H; reflexivity.
  - intros kPoint iVar Hki Hkj.
    destruct (time_int_eqb _ _); cbn; unfold SysVector.AddBlock,
      SysVector.SubtractBlock;
    destruct (Nat.eqb_spec kPoint jPoint); try contradiction;
    destruct (Nat.eqb_spec kPoint iPoint); try contradiction; reflexivity.
  - destruct (time_int_eqb _ _); reflexivity.
  - rewrite H. cbn. unfold SysMatrix.UpdateBlocksSub.
    apply Nat.ltb_lt in H0, H1. unfold nVar in *. rewrite H0, H1.
    rewrite !Nat.eqb_refl. reflexivity.
  - rewrite H. cbn. unfold SysMatrix.UpdateBlocksSub.
    apply Nat.ltb_lt in H0, H1. unfold nVar in *. rewrite H0, H1.
    rewrite !Nat.eqb_refl.
    destruct (Nat.eqb_spec jPoint iPoint); try contradiction. reflexivity.
  - intros Hexp. destruct (GetKind_TimeIntScheme config); [contradiction|].
    reflexivity.
Qed.

End ViscousResidualFacts.

Lemma Viscous_Residual_ignores_TauWall_of_j_on_shear :
  edges_GetNode wall_geometry 0 0 <> edges_GetNode wall_geometry 0 1
  /\ Viscous_Residual_flux shear_flux_kernel 0 wall_geometry no_turbulence
       blank_numerics
       (wall_config EULER_IMPLICIT HEAT_FLUX DIRECT_TEMPERATURE_NEUMANN_HEATFLUX)
       (set_nodes (shear_solver 5)
          (CVariable.SetTauWall (nodes (shear_solver 5)) 1 7))
     = Viscous_Residual_flux shear_flux_kernel 0 wall_geometry no_turbulence
         blank_numerics
         (wall_config EULER_IMPLICIT HEAT_FLUX DIRECT_TEMPERATURE_NEUMANN_HEATFLUX)
         (shear_solver 5).
Proof.
  split; [discriminate|].
  apply (Viscous_Residual_ignores_TauWall_of_j shear_flux_kernel wall_geometry
           no_turbulence blank_numerics _ 0 (shear_solver 5) 7).
  discriminate.
Defined.

Lemma Viscous_Residual_direct_scatter_on_shear :
  ReducerStrategy (shear_solver 5) = false
  /\ edges_GetNode wall_geometry 0 0 <> edges_GetNode wall_geometry 0 1
  /\ forall iVar, (iVar < 4)%nat ->
       LinSysRes
         (snd (Viscous_Residual shear_flux_kernel 0 wall_geometry no_turbulence
                 blank_numerics
                 (wall_config EULER_IMPLICIT HEAT_FLUX
                    DIRECT_TEMPERATURE_NEUMANN_HEATFLUX)
                 (shear_solver 5))) 0%nat iVar = 7 - 15
       /\ LinSysRes
         (snd (Viscous_Residual shear_flux_kernel 0 wall_geometry no_turbulence
                 blank_numerics
                 (wall_config EULER_IMPLICIT HEAT_FLUX
                    DIRECT_TEMPERATURE_NEUMANN_HEATFLUX)
                 (shear_solver 5))) 1%nat iVar = 7 + 15.
Proof.
  split; [reflexivity|]. split; [discriminate|].
  intros iVar HiVar.
  destruct (proj1 (Viscous_Residual_direct_scatter shear_flux_kernel
                     wall_geometry no_turbulence blank_numerics
                     (wall_config EULER_IMPLICIT HEAT_FLUX
                        DIRECT_TEMPERATURE_NEUMANN_HEATFLUX)
                     0 (shear_solver 5) eq_refl ltac:(discriminate))
                  iVar HiVar) as [Hi Hj].
  split; [etransitivity; [exact Hi|] | etransitivity; [exact Hj|]]; cbn; lra.
Defined.

(** * The conjugate-heat-transfer wall temperature *)

Lemma for_each_result_all_or_nothing {S : Type}
    (body : S -> nat -> Result S) (stops : nat -> bool) (message : string) :
  (forall s i, body s i = if stops i then Fatal message else Ok s) ->
  forall l s,
    for_each_result body l s
    = if existsb stops l then Fatal message else Ok s.
Proof.
  intros Hbody l. induction l as [|i l IH]; intros s; cbn.
  - reflexivity.
  - rewrite Hbody. destruct (stops i); cbn; [reflexivity | apply IH].
Qed.

Lemma Isothermal_dist_ij_on_wall_geometry c :
  Isothermal_dist_ij wall_geometry (shear_solver c) 0 0 = 1.
Proof.
  unfold Isothermal_dist_ij, GeometryToolbox.Distance,
    GeometryToolbox.SquaredDistance.
  cbn. unfold vset, zeros. cbn.
  match goal with |- sqrt ?e = 1 => replace e with 1 by lra end.
  apply sqrt_1.
Qed.

Section ConjugateHeatFacts.

Variable ComputeStressTensor : nat -> su2matrix -> su2double -> su2matrix.
Variable geometry : CGeometry.
Variable config : CConfig.
Variable val_marker : nat.

(** What the code computes in the averaged modes: the flux-weighted
    average whose local coefficient is the distance times the reference
    viscosity divided by the thermal conductivity, because the call passes
    [dist_ij] and [thermal_conductivity] in the order opposite to the
    parameters of [GetCHTWallTemperature]. *)
Lemma Isothermal_Twall_averaged solver Twall iVertex :
  GetKind_CHT_Coupling config = AVERAGED_TEMPERATURE_NEUMANN_HEATFLUX
  \/ GetKind_CHT_Coupling config = AVERAGED_TEMPERATURE_ROBIN_HEATFLUX ->
  let iPoint := GetNode (vertex geometry val_marker iVertex) in
  let Point_Normal := GetNormal_Neighbor (vertex geometry val_marker iVertex) in
  Isothermal_Twall geometry config val_marker true solver Twall iVertex
  = Ok (flux_weighted_average
          (CVariable.GetTemperature (nodes solver) Point_Normal)
          (GetConjugateHeatVariable solver val_marker iVertex 0
           / GetTemperature_Ref config)
          (Isothermal_dist_ij geometry solver val_marker iVertex
           * GetViscosity_Ref config
           / Isothermal_thermal_conductivity config solver iPoint)
          (GetConjugateHeatVariable solver val_marker iVertex 2)).
Proof.
  intros Hkind iPoint Point_Normal.
  unfold Isothermal_Twall, GetCHTWallTemperature.
  destruct Hkind as [-> | ->]; reflexivity.
Qed.

(** C7.  With a coupling selector that is none of the four supported
    modes, [GetCHTWallTemperature] returns no temperature: it ends the run
    with the message "Unknown CHT coupling method.".  The abort reaches
    the boundary routine: the loop body fails at every domain-owned
    vertex, and so does [BC_ConjugateHeat_Interface] on a marker that has
    one. *)
Theorem GetCHTWallTemperature_unknown_coupling_is_fatal (raw : nat) :
  GetKind_CHT_Coupling config = OTHER_CHT_COUPLING raw ->
  (forall solver iVertex thermal_conductivity dist_ij There Temperature_Ref,
     GetCHTWallTemperature solver config val_marker iVertex
       thermal_conductivity dist_ij There Temperature_Ref
     = Fatal "Unknown CHT coupling method.")
  /\ (forall s iVertex,
        GetDomain geometry (GetNode (vertex geometry val_marker iVertex)) = true ->
        BC_Isothermal_Wall_Generic_vertex ComputeStressTensor geometry config
          val_marker true s iVertex
        = Fatal "Unknown CHT coupling method.")
  /\ (forall solver,
        (exists iVertex,
           (iVertex < nVertex geometry val_marker)%nat
           /\ GetDomain geometry (GetNode (vertex geometry val_marker iVertex))
              = true) ->
        BC_ConjugateHeat_Interface ComputeStressTensor geometry config
          val_marker solver
        = Fatal "Unknown CHT coupling method.").
Proof.
  intros Hkind.
  assert (Hget : forall solver iVertex thermal_conductivity dist_ij There
                        Temperature_Ref,
     GetCHTWallTemperature solver config val_marker iVertex
       thermal_conductivity dist_ij There Temperature_Ref
     = Fatal "Unknown CHT coupling method.").
  { intros. unfold GetCHTWallTemperature. rewrite Hkind. reflexivity. }
  assert (Hbody : forall s iVertex,
     BC_Isothermal_Wall_Generic_vertex ComputeStressTensor geometry config
       val_marker true s iVertex
     = if GetDomain geometry (GetNode (vertex geometry val_marker iVertex))
       then Fatal "Unknown CHT coupling method." else Ok s).
  { intros [[solver Twall] Jacobian_i] iVertex.
    unfold BC_Isothermal_Wall_Generic_vertex.
    destruct (GetDomain geometry _); cbn [negb]; [|reflexivity].
    unfold Isothermal_Twall. rewrite Hget. reflexivity. }
  split; [exact Hget|]. split.
  - intros s iVertex Hdom. rewrite Hbody, Hdom. reflexivity.
  - intros solver [iVertex [Hlt Hdom]].
    unfold BC_ConjugateHeat_Interface, BC_Isothermal_Wall_Generic,
      for_loop_result.
    rewrite (for_each_result_all_or_nothing _
               (fun iVertex =>
                  GetDomain geometry (GetNode (vertex geometry val_marker iVertex)))
               "Unknown CHT coupling method." Hbody).
    replace (existsb _ _) with true; [reflexivity|].
    symmetry. apply existsb_exists. exists iVertex. split; [|exact Hdom].
    apply in_seq. lia.
Qed.

End ConjugateHeatFacts.

Lemma GetCHTWallTemperature_unknown_coupling_on_shear :
  GetKind_CHT_Coupling
    (wall_config EULER_IMPLICIT CHT_WALL_INTERFACE (OTHER_CHT_COUPLING 4))
  = OTHER_CHT_COUPLING 4
  /\ BC_ConjugateHeat_Interface Newtonian_stress wall_geometry
       (wall_config EULER_IMPLICIT CHT_WALL_INTERFACE (OTHER_CHT_COUPLING 4))
       0 (shear_solver 5)
     = Fatal "Unknown CHT coupling method.".
Proof.
  split; [reflexivity|].
  apply (GetCHTWallTemperature_unknown_coupling_is_fatal Newtonian_stress
           wall_geometry
           (wall_config EULER_IMPLICIT CHT_WALL_INTERFACE (OTHER_CHT_COUPLING 4))
           0 4 eq_refl).
  exists 0%nat. split; [cbn; lia | reflexivity].
Defined.

(** C1.  On [wall_geometry] with the averaged Neumann coupling the
    interior temperature is 1, the conjugate temperature 0, the thermal
    conductivity 2, the distance 1 and both the reference viscosity and
    the conjugate coefficient 1.  The specified wall temperature is
    (1*2 + 0*1)/(2 + 1) = 2/3; the boundary routine uses 1/3, the average
    weighted by the local coefficient 1*1/2 that results from the
    swapped arguments. *)
Theorem CHT_wall_temperature_differs_from_specified :
  Isothermal_Twall wall_geometry
    (wall_config EULER_IMPLICIT CHT_WALL_INTERFACE
       AVERAGED_TEMPERATURE_NEUMANN_HEATFLUX)
    0 true (shear_solver 5) 0 0
  = Ok (1 / 3)
  /\ specified_CHT_Twall wall_geometry
       (wall_config EULER_IMPLICIT CHT_WALL_INTERFACE
          AVERAGED_TEMPERATURE_NEUMANN_HEATFLUX)
       (shear_solver 5) 0 0
     = 2 / 3
  /\ 1 / 3 <> 2 / 3.
Proof.
  split; [|split; [|lra]].
  - rewrite Isothermal_Twall_averaged by (left; reflexivity).
    rewrite Isothermal_dist_ij_on_wall_geometry.
    f_equal. unfold flux_weighted_average, Isothermal_thermal_conductivity,
      Isothermal_Cp. cbn. lra.
  - unfold specified_CHT_Twall.
    rewrite Isothermal_dist_ij_on_wall_geometry.
    unfold flux_weighted_average, Isothermal_thermal_conductivity,
      Isothermal_Cp. cbn. lra.
Qed.

(** * The strong velocity condition of the wall boundary pass *)

Lemma zero_momentum_rows n vec iPoint q v :
  for_loop n (fun vec iDim => SysVector.SetEntry vec iPoint (iDim + 1) 0) vec q v
  = if Nat.eqb q iPoint && Nat.leb 1 v && Nat.leb v n then 0 else vec q v.
Proof.
  induction n as [|n IH].
  - unfold for_loop. cbn [seq fold_left].
    destruct (Nat.eqb q iPoint), (Nat.leb_spec 1 v), (Nat.leb_spec v 0);
      cbn [andb]; try reflexivity; lia.
  - rewrite for_loop_S. unfold SysVector.SetEntry at 1. rewrite IH.
    destruct (Nat.eqb_spec q iPoint), (Nat.eqb_spec v (n + 1)),
      (Nat.leb_spec 1 v), (Nat.leb_spec v n), (Nat.leb_spec v (S n));
      cbn [andb]; try reflexivity; lia.
Qed.

Section ImposeWallVelocity.

Variable geometry : CGeometry.
Variable solver : CNSSolver.
Variable iPoint : nat.
Hypothesis static : dynamic_grid solver = false.

Lemma impose_wall_velocity_members :
  let s1 := impose_wall_velocity geometry solver iPoint in
  nDim s1 = nDim solver
  /\ dynamic_grid s1 = false
  /\ Jacobian s1 = Jacobian solver
  /\ Primitive (nodes s1) = Primitive (nodes solver)
  /\ Gradient_Primitive (nodes s1) = Gradient_Primitive (nodes solver).
Proof.
  unfold impose_wall_velocity. rewrite static.
  repeat split; try reflexivity. exact static.
Qed.

Lemma impose_wall_velocity_Velocity_Old q iDim :
  Velocity_Old (nodes (impose_wall_velocity geometry solver iPoint)) q iDim
  = if Nat.eqb q iPoint && Nat.ltb iDim (nDim solver) then 0
    else Velocity_Old (nodes solver) q iDim.
Proof.
  unfold impose_wall_velocity. rewrite static. reflexivity.
Qed.

Lemma impose_wall_velocity_LinSysRes q iVar :
  LinSysRes (impose_wall_velocity geometry solver iPoint) q iVar
  = if Nat.eqb q iPoint && Nat.leb 1 iVar && Nat.leb iVar (nDim solver) then 0
    else LinSysRes solver q iVar.
Proof.
  unfold impose_wall_velocity. rewrite static. cbn.
  apply zero_momentum_rows.
Qed.

End ImposeWallVelocity.

Lemma add_energy_residual_LinSysRes solver iPoint Res_Conv Res_Visc q iVar :
  LinSysRes (add_energy_residual solver iPoint Res_Conv Res_Visc) q iVar
  = if Nat.eqb q iPoint && Nat.eqb iVar (nDim solver + 1)
    then LinSysRes solver iPoint (nDim solver + 1)%nat + (Res_Conv - Res_Visc)
    else LinSysRes solver q iVar.
Proof. reflexivity. Qed.

Lemma row_of_total_index nVar iPoint iVar :
  (iVar < nVar)%nat ->
  ((iPoint * nVar + iVar) / nVar = iPoint
   /\ (iPoint * nVar + iVar) mod nVar = iVar)%nat.
Proof.
  intros H. split.
  - rewrite Nat.div_add_l by lia. rewrite Nat.div_small by lia. lia.
  - rewrite Nat.add_comm, Nat.Div0.mod_add. apply Nat.mod_small. lia.
Qed.

Lemma delete_rows_members l solver iPoint :
  let step := fun solver iVar =>
    set_Jacobian solver
      (SysMatrix.DeleteValsRowi (nVar solver) (Jacobian solver)
         (iPoint * nVar solver + iVar)) in
  nDim (fold_left step l solver) = nDim solver
  /\ dynamic_grid (fold_left step l solver) = dynamic_grid solver
  /\ nodes (fold_left step l solver) = nodes solver
  /\ LinSysRes (fold_left step l solver) = LinSysRes solver.
Proof.
  intros step. revert solver.
  induction l as [|iVar l IH]; intros solver; cbn [fold_left].
  - repeat split.
  - destruct (IH (step solver iVar)) as (H1 & H2 & H3 & H4).
    rewrite H1, H2, H3, H4. repeat split.
Qed.

Lemma delete_rows_Jacobian l solver iPoint :
  (forall iVar, In iVar l -> (iVar < nVar solver)%nat) ->
  forall bi bj iVar jVar,
    Jacobian
      (fold_left
         (fun solver iVar =>
            set_Jacobian solver
              (SysMatrix.DeleteValsRowi (nVar solver) (Jacobian solver)
                 (iPoint * nVar solver + iVar)))
         l solver) bi bj iVar jVar
    = if Nat.eqb bi iPoint && existsb (Nat.eqb iVar) l
      then (if Nat.eqb bj iPoint && Nat.eqb jVar iVar then 1 else 0)
      else Jacobian solver bi bj iVar jVar.
Proof.
  revert solver.
  induction l as [|r l IH]; intros solver Hl bi bj iVar jVar; cbn [fold_left].
  - cbn. rewrite andb_false_r. reflexivity.
  - rewrite IH by (intros k Hk; apply Hl; right; exact Hk).
    cbn [existsb set_Jacobian Jacobian].
    destruct (row_of_total_index (nVar solver) iPoint r) as [Hd Hm].
    { apply Hl. left. reflexivity. }
    unfold SysMatrix.DeleteValsRowi.
    change (nVar (set_Jacobian solver _)) with (nVar solver).
    rewrite Hd, Hm.
    destruct (Nat.eqb_spec bi iPoint), (Nat.eqb_spec iVar r),
      (existsb (Nat.eqb iVar) l); subst; cbn; reflexivity.
Qed.

Lemma delete_momentum_rows_Jacobian solver iPoint bi bj iVar jVar :
  Jacobian (delete_momentum_rows solver iPoint) bi bj iVar jVar
  = if Nat.eqb bi iPoint && Nat.leb 1 iVar && Nat.leb iVar (nDim solver)
    then (if Nat.eqb bj iPoint && Nat.eqb jVar iVar then 1 else 0)
    else Jacobian solver bi bj iVar jVar.
Proof.
  unfold delete_momentum_rows. rewrite delete_rows_Jacobian.
  - replace (existsb (Nat.eqb iVar) (seq 1 (nDim solver)))
      with (Nat.leb 1 iVar && Nat.leb iVar (nDim solver)).
    + rewrite andb_assoc. reflexivity.
    + destruct (existsb _ _) eqn:E.
      * apply existsb_exists in E. destruct E as [k [Hin Hk]].
        apply Nat.eqb_eq in Hk. subst k. apply in_seq in Hin.
        apply andb_true_iff. split; apply Nat.leb_le; lia.
      * apply andb_false_iff.
        destruct (Nat.leb_spec 1 iVar); [|left; reflexivity].
        destruct (Nat.leb_spec iVar (nDim solver)); [|right; reflexivity].
        exfalso. apply Bool.not_true_iff_false in E. apply E.
        apply existsb_exists. exists iVar. split; [apply in_seq; lia|].
        apply Nat.eqb_refl.
  - intros k Hk. apply in_seq in Hk. unfold nVar. lia.
Qed.

Lemma delete_momentum_rows_members solver iPoint :
  nDim (delete_momentum_rows solver iPoint) = nDim solver
  /\ dynamic_grid (delete_momentum_rows solver iPoint) = dynamic_grid solver
  /\ nodes (delete_momentum_rows solver iPoint) = nodes solver
  /\ LinSysRes (delete_momentum_rows solver iPoint) = LinSysRes solver.
Proof. apply delete_rows_members. Qed.

Lemma no_slip_enforced_agree implicit solver solver' q :
  nDim solver' = nDim solver ->
  (forall iDim, Velocity_Old (nodes solver') q iDim
                = Velocity_Old (nodes solver) q iDim) ->
  (forall iVar, LinSysRes solver' q iVar = LinSysRes solver q iVar) ->
  (forall jPoint iVar jVar,
     Jacobian solver' q jPoint iVar jVar = Jacobian solver q jPoint iVar jVar) ->
  no_slip_enforced implicit solver q ->
  no_slip_enforced implicit solver' q.
Proof.
  intros Hn Hv Hr Hj (Pv & Pr & Pj). unfold no_slip_enforced.
  rewrite Hn. repeat split.
  - intros iDim H. rewrite Hv. apply Pv, H.
  - intros iDim H. rewrite Hr. apply Pr, H.
  - intros Hi iVar H jPoint jVar. rewrite Hj. apply Pj; assumption.
Qed.

(** The solver a wall vertex is left with: the velocity condition, the
    energy residual and, for an implicit scheme, the optional diagonal
    block followed by the deletion of the momentum rows. *)
Section WallVertex.

Variable geometry : CGeometry.
Variable solver : CNSSolver.
Variable iPoint : nat.
Variable implicit : bool.
Variable Res_Conv Res_Visc : su2double.
Variable block : option su2matrix.
Hypothesis static : dynamic_grid solver = false.

Local Abbreviation s2 :=
  (add_energy_residual (impose_wall_velocity geometry solver iPoint) iPoint
     Res_Conv Res_Visc).

Local Abbreviation s3 :=
  (wall_vertex_outcome geometry solver iPoint implicit Res_Conv Res_Visc block).

Lemma wall_vertex_members :
  nDim s3 = nDim solver /\ dynamic_grid s3 = false
  /\ Primitive (nodes s3) = Primitive (nodes solver)
  /\ Gradient_Primitive (nodes s3) = Gradient_Primitive (nodes solver).
Proof.
  destruct (impose_wall_velocity_members geometry solver iPoint static)
    as (H1 & H2 & _ & H3 & H4).
  unfold wall_vertex_outcome. destruct implicit.
  - destruct (delete_momentum_rows_members
                match block with
                | Some b =>
                    set_Jacobian s2
                      (SysMatrix.AddBlock2Diag (nVar s2) (Jacobian s2) iPoint b)
                | None => s2
                end iPoint) as (D1 & D2 & D3 & _).
    rewrite D1, D2, D3. destruct block; repeat split; assumption.
  - repeat split; assumption.
Qed.

Lemma wall_vertex_Velocity_Old q iDim :
  Velocity_Old (nodes s3) q iDim
  = if Nat.eqb q iPoint && Nat.ltb iDim (nDim solver) then 0
    else Velocity_Old (nodes solver) q iDim.
Proof.
  rewrite <- (impose_wall_velocity_Velocity_Old geometry solver iPoint static).
  unfold wall_vertex_outcome. destruct implicit; [|reflexivity].
  destruct (delete_momentum_rows_members
                match block with
                | Some b =>
                    set_Jacobian s2
                      (SysMatrix.AddBlock2Diag (nVar s2) (Jacobian s2) iPoint b)
                | None => s2
                end iPoint) as (_ & _ & D3 & _).
  rewrite D3. destruct block; reflexivity.
Qed.

Lemma wall_vertex_LinSysRes q iVar :
  LinSysRes s3 q iVar
  = if Nat.eqb q iPoint && Nat.eqb iVar (nDim solver + 1)
    then LinSysRes solver iPoint (nDim solver + 1)%nat + (Res_Conv - Res_Visc)
    else if Nat.eqb q iPoint && Nat.leb 1 iVar && Nat.leb iVar (nDim solver)
    then 0 else LinSysRes solver q iVar.
Proof.
  assert (H2 : LinSysRes s3 = LinSysRes s2).
  { unfold wall_vertex_outcome. destruct implicit; [|reflexivity].
    destruct (delete_momentum_rows_members
                match block with
                | Some b =>
                    set_Jacobian s2
                      (SysMatrix.AddBlock2Diag (nVar s2) (Jacobian s2) iPoint b)
                | None => s2
                end iPoint) as (_ & _ & _ & D4).
    rewrite D4. destruct block; reflexivity. }
  rewrite H2. rewrite add_energy_residual_LinSysRes.
  destruct (impose_wall_velocity_members geometry solver iPoint static)
    as (H1 & _).
  rewrite H1, !(impose_wall_velocity_LinSysRes geometry solver iPoint static).
  rewrite Nat.eqb_refl.
  destruct (Nat.leb_spec (nDim solver + 1) (nDim solver)); [lia|].
  rewrite andb_false_r. reflexivity.
Qed.

Lemma wall_vertex_Jacobian_row iVar jPoint jVar :
  implicit = true -> (1 <= iVar <= nDim solver)%nat ->
  Jacobian s3 iPoint jPoint iVar jVar
  = if Nat.eqb jPoint iPoint && Nat.eqb jVar iVar then 1 else 0.
Proof.
  intros Hi Hrow. unfold wall_vertex_outcome. rewrite Hi.
  rewrite delete_momentum_rows_Jacobian.
  destruct (impose_wall_velocity_members geometry solver iPoint static)
    as (H1 & _).
  assert (Hn : nDim match block with
                    | Some b =>
                        set_Jacobian s2
                          (SysMatrix.AddBlock2Diag (nVar s2) (Jacobian s2)
                             iPoint b)
                    | None => s2
                    end = nDim solver) by (destruct block; exact H1).
  rewrite Hn, Nat.eqb_refl.
  replace (Nat.leb 1 iVar) with true by (symmetry; apply Nat.leb_le; lia).
  replace (Nat.leb iVar (nDim solver)) with true
    by (symmetry; apply Nat.leb_le; lia).
  reflexivity.
Qed.

Lemma wall_vertex_Jacobian_other q jPoint iVar jVar :
  q <> iPoint ->
  Jacobian s3 q jPoint iVar jVar = Jacobian solver q jPoint iVar jVar.
Proof.
  intros Hq.
  destruct (impose_wall_velocity_members geometry solver iPoint static)
    as (_ & _ & HJ & _).
  assert (H2 : Jacobian s2 = Jacobian solver) by exact HJ.
  unfold wall_vertex_outcome. destruct implicit; [|rewrite H2; reflexivity].
  rewrite delete_momentum_rows_Jacobian.
  destruct (Nat.eqb_spec q iPoint) as [E|_]; [contradiction|].
  cbn [andb]. destruct block as [b|]; [|rewrite H2; reflexivity].
  cbn [set_Jacobian Jacobian]. unfold SysMatrix.AddBlock2Diag.
  destruct (Nat.eqb_spec q iPoint) as [E|_]; [contradiction|].
  cbn [andb]. rewrite H2. reflexivity.
Qed.

Lemma wall_vertex_enforces : no_slip_enforced implicit s3 iPoint.
Proof.
  destruct wall_vertex_members as (Hn & _).
  unfold no_slip_enforced. rewrite Hn. repeat split.
  - intros iDim H. rewrite wall_vertex_Velocity_Old, Nat.eqb_refl.
    replace (Nat.ltb iDim (nDim solver)) with true
      by (symmetry; apply Nat.ltb_lt; exact H).
    reflexivity.
  - intros iDim H. rewrite wall_vertex_LinSysRes, Nat.eqb_refl.
    destruct (Nat.eqb_spec (iDim + 1) (nDim solver + 1)); [lia|].
    replace (Nat.leb 1 (iDim + 1)) with true
      by (symmetry; apply Nat.leb_le; lia).
    replace (Nat.leb (iDim + 1) (nDim solver)) with true
      by (symmetry; apply Nat.leb_le; lia).
    reflexivity.
  - intros Hi iVar Hrow jPoint jVar.
    apply wall_vertex_Jacobian_row; assumption.
Qed.

Lemma wall_vertex_keeps q :
  no_slip_enforced implicit solver q -> no_slip_enforced implicit s3 q.
Proof.
  intros Hq. destruct (Nat.eq_dec q iPoint) as [->|Hne].
  - apply wall_vertex_enforces.
  - destruct wall_vertex_members as (Hn & _).
    apply (no_slip_enforced_agree implicit solver s3 q Hn); [| | |exact Hq].
    + intros iDim. rewrite wall_vertex_Velocity_Old.
      destruct (Nat.eqb_spec q iPoint); [contradiction|reflexivity].
    + intros iVar. rewrite wall_vertex_LinSysRes.
      destruct (Nat.eqb_spec q iPoint); [contradiction|reflexivity].
    + intros jPoint iVar jVar. apply wall_vertex_Jacobian_other, Hne.
Qed.

End WallVertex.

Lemma for_loop_result_S {S : Type} (n : nat) (body : S -> nat -> Result S)
    (s : S) :
  for_loop_result (Datatypes.S n) body s
  = match for_loop_result n body s with
    | Ok s' => body s' n
    | Fatal message => Fatal message
    end.
Proof.
  unfold for_loop_result. rewrite seq_S. cbn [Nat.add].
  generalize (seq 0 n) as l. intros l. revert s.
  induction l as [|i l IH]; intros s; cbn.
  - destruct (body s n); reflexivity.
  - destruct (body s i); [apply IH | reflexivity].
Qed.

Section WallPass.

Variable ComputeStressTensor : nat -> su2matrix -> su2double -> su2matrix.
Variable geometry : CGeometry.
Variable config : CConfig.
Variable val_marker : nat.

Local Abbreviation implicit :=
  (time_int_eqb (GetKind_TimeIntScheme config) EULER_IMPLICIT).
Local Abbreviation node iVertex :=
  (GetNode (vertex geometry val_marker iVertex)).
Local Abbreviation heat_flux_body :=
  (BC_HeatFlux_Wall_vertex ComputeStressTensor geometry config val_marker).
Local Abbreviation isothermal_body :=
  (BC_Isothermal_Wall_Generic_vertex ComputeStressTensor geometry config
     val_marker false).

Lemma face_area_nDim solver solver' iVertex :
  nDim solver' = nDim solver ->
  face_area geometry solver' val_marker iVertex
  = face_area geometry solver val_marker iVertex.
Proof. intros H. unfold face_area. rewrite H. reflexivity. Qed.

Lemma BC_HeatFlux_Wall_energy_static solver Wall_HeatFlux Jacobian_i iVertex :
  dynamic_grid solver = false ->
  BC_HeatFlux_Wall_energy ComputeStressTensor geometry config val_marker solver
    Wall_HeatFlux Jacobian_i iVertex
  = (Jacobian_i, 0.0,
     Wall_HeatFlux * face_area geometry solver val_marker iVertex).
Proof.
  intros H. unfold BC_HeatFlux_Wall_energy. rewrite H. reflexivity.
Qed.

Lemma BC_HeatFlux_Wall_vertex_static solver Wall_HeatFlux Jacobian_i iVertex :
  dynamic_grid solver = false ->
  GetDomain geometry (node iVertex) = true ->
  heat_flux_body (solver, Wall_HeatFlux, Jacobian_i) iVertex
  = (wall_vertex_outcome geometry solver (node iVertex) implicit 0.0
       ((if GetMarker_All_PyCustom config val_marker
         then GetCustomBoundaryHeatFlux geometry val_marker iVertex
         else Wall_HeatFlux)
        * face_area geometry solver val_marker iVertex) None,
     if GetMarker_All_PyCustom config val_marker
     then GetCustomBoundaryHeatFlux geometry val_marker iVertex
     else Wall_HeatFlux,
     Jacobian_i).
Proof.
  intros Hstatic Hdom.
  destruct (impose_wall_velocity_members geometry solver (node iVertex) Hstatic)
    as (Hn & Hd & _).
  unfold BC_HeatFlux_Wall_vertex. rewrite Hdom. cbn [negb].
  rewrite (BC_HeatFlux_Wall_energy_static _ _ _ _ Hd).
  rewrite (face_area_nDim solver _ iVertex Hn).
  unfold wall_vertex_outcome.
  change (dynamic_grid (add_energy_residual ?s _ _ _)) with (dynamic_grid s).
  rewrite Hd. reflexivity.
Qed.

Lemma BC_Isothermal_Wall_vertex_static solver Twall Jacobian_i iVertex :
  dynamic_grid solver = false ->
  GetDomain geometry (node iVertex) = true ->
  exists Res_Visc Twall' Jacobian_i',
    isothermal_body (solver, Twall, Jacobian_i) iVertex
    = Ok (wall_vertex_outcome geometry solver (node iVertex) implicit 0.0
            Res_Visc Jacobian_i',
          Twall', Jacobian_i').
Proof.
  intros Hstatic Hdom.
  destruct (impose_wall_velocity_members geometry solver (node iVertex) Hstatic)
    as (Hn & Hd & _).
  unfold BC_Isothermal_Wall_Generic_vertex. rewrite Hdom. cbn [negb].
  unfold Isothermal_Twall.
  destruct (GetMarker_All_PyCustom config val_marker);
    rewrite Hd; do 3 eexists; unfold wall_vertex_outcome; reflexivity.
Qed.

(** The members the loop over a heat-flux marker keeps. *)
Lemma BC_HeatFlux_Wall_loop_members solver Wall_HeatFlux Jacobian_i n :
  dynamic_grid solver = false ->
  let s := for_loop n heat_flux_body (solver, Wall_HeatFlux, Jacobian_i) in
  nDim (fst (fst s)) = nDim solver
  /\ dynamic_grid (fst (fst s)) = false
  /\ (GetMarker_All_PyCustom config val_marker = false ->
      snd (fst s) = Wall_HeatFlux).
Proof.
  intros Hstatic. induction n as [|n IH]; cbn zeta.
  - repeat split. exact Hstatic.
  - rewrite for_loop_S. cbn zeta in IH.
    destruct (for_loop n _ _) as [[solver_n W_n] J_n].
    cbn [fst snd] in IH. destruct IH as (Hn & Hd & HW).
    destruct (GetDomain geometry (node n)) eqn:Hdom.
    + rewrite (BC_HeatFlux_Wall_vertex_static _ _ _ _ Hd Hdom). cbn [fst snd].
      destruct (wall_vertex_members geometry solver_n (node n) implicit 0.0
                  ((if GetMarker_All_PyCustom config val_marker
                    then GetCustomBoundaryHeatFlux geometry val_marker n
                    else W_n)
                   * face_area geometry solver_n val_marker n) None Hd)
        as (Hn' & Hd' & _).
      rewrite Hn', Hn. repeat split; [exact Hd'|].
      intros Hc. rewrite Hc. apply HW, Hc.
    + unfold BC_HeatFlux_Wall_vertex. rewrite Hdom. cbn [negb fst snd].
      repeat split; assumption.
Qed.

Lemma BC_HeatFlux_Wall_loop_enforces solver Wall_HeatFlux Jacobian_i n :
  dynamic_grid solver = false ->
  forall iVertex, (iVertex < n)%nat ->
    GetDomain geometry (node iVertex) = true ->
    no_slip_enforced implicit
      (fst (fst (for_loop n heat_flux_body (solver, Wall_HeatFlux, Jacobian_i))))
      (node iVertex).
Proof.
  intros Hstatic. induction n as [|n IH]; intros iVertex Hlt Hdom; [lia|].
  rewrite for_loop_S.
  pose proof (BC_HeatFlux_Wall_loop_members solver Wall_HeatFlux Jacobian_i n
                Hstatic) as Hm. cbn zeta in Hm.
  destruct (for_loop n _ _) as [[solver_n W_n] J_n].
  cbn [fst snd] in *. destruct Hm as (_ & Hd & _).
  destruct (GetDomain geometry (node n)) eqn:Hdn.
  - rewrite (BC_HeatFlux_Wall_vertex_static _ _ _ _ Hd Hdn). cbn [fst].
    destruct (Nat.eq_dec iVertex n) as [->|Hne].
    + apply wall_vertex_enforces, Hd.
    + apply wall_vertex_keeps; [exact Hd|]. apply IH; [lia | exact Hdom].
  - unfold BC_HeatFlux_Wall_vertex. rewrite Hdn. cbn [negb fst].
    destruct (Nat.eq_dec iVertex n) as [->|Hne]; [congruence|].
    apply IH; [lia | exact Hdom].
Qed.

Lemma BC_Isothermal_Wall_loop solver Twall Jacobian_i n :
  dynamic_grid solver = false ->
  exists solver_n Twall_n Jacobian_n,
    for_loop_result n isothermal_body (solver, Twall, Jacobian_i)
    = Ok (solver_n, Twall_n, Jacobian_n)
    /\ nDim solver_n = nDim solver
    /\ dynamic_grid solver_n = false
    /\ forall iVertex, (iVertex < n)%nat ->
         GetDomain geometry (node iVertex) = true ->
         no_slip_enforced implicit solver_n (node iVertex).
Proof.
  intros Hstatic. induction n as [|n IH].
  - exists solver, Twall, Jacobian_i.
    split; [reflexivity|]. split; [reflexivity|]. split; [exact Hstatic|].
    intros iVertex H. lia.
  - destruct IH as (solver_n & Twall_n & J_n & Hrun & Hn & Hd & Hall).
    rewrite for_loop_result_S, Hrun.
    destruct (GetDomain geometry (node n)) eqn:Hdn.
    + destruct (BC_Isothermal_Wall_vertex_static solver_n Twall_n J_n n Hd Hdn)
        as (rv & Twall' & J' & Hstep).
      rewrite Hstep. do 3 eexists. split; [reflexivity|].
      destruct (wall_vertex_members geometry solver_n (node n) implicit 0.0 rv
                  J' Hd) as (Hn' & Hd' & _).
      rewrite Hn', Hn. split; [reflexivity|]. split; [exact Hd'|].
      intros iVertex Hlt Hdom.
      destruct (Nat.eq_dec iVertex n) as [->|Hne].
      * apply wall_vertex_enforces, Hd.
      * apply wall_vertex_keeps; [exact Hd|]. apply Hall; [lia | exact Hdom].
    + unfold BC_Isothermal_Wall_Generic_vertex. rewrite Hdn. cbn [negb].
      do 3 eexists. split; [reflexivity|].
      split; [exact Hn|]. split; [exact Hd|].
      intros iVertex Hlt Hdom.
      destruct (Nat.eq_dec iVertex n) as [->|Hne]; [congruence|].
      apply Hall; [lia | exact Hdom].
Qed.

(** C4.  On a stationary mesh, after [BC_HeatFlux_Wall] or
    [BC_Isothermal_Wall] (which returns normally) every domain-owned
    vertex of the marker satisfies [no_slip_enforced]: its stored old
    velocity is zero, the momentum rows of its residual are zero, and
    under implicit time integration every off-diagonal entry of its
    momentum rows of the Jacobian is zero with 1.0 on the diagonal. *)
Theorem wall_pass_enforces_no_slip solver :
  dynamic_grid solver = false ->
  (forall iVertex, (iVertex < nVertex geometry val_marker)%nat ->
     GetDomain geometry (node iVertex) = true ->
     no_slip_enforced implicit
       (BC_HeatFlux_Wall ComputeStressTensor geometry config val_marker solver)
       (node iVertex))
  /\ exists after,
       BC_Isothermal_Wall ComputeStressTensor geometry config val_marker solver
       = Ok after
       /\ forall iVertex, (iVertex < nVertex geometry val_marker)%nat ->
            GetDomain geometry (node iVertex) = true ->
            no_slip_enforced implicit after (node iVertex).
Proof.
  intros Hstatic. split.
  - intros iVertex Hlt Hdom. unfold BC_HeatFlux_Wall.
    apply BC_HeatFlux_Wall_loop_enforces; assumption.
  - unfold BC_Isothermal_Wall, BC_Isothermal_Wall_Generic. cbv zeta.
    match goal with
    | |- exists after,
           match for_loop_result ?n _ (_, ?T, ?J) with _ => _ end = _ /\ _ =>
        destruct (BC_Isothermal_Wall_loop solver T J n Hstatic)
          as (solver_n & Twall_n & J_n & Hrun & _ & _ & Hall)
    end.
    unfold su2double in *. rewrite Hrun.
    exists solver_n. split; [reflexivity | exact Hall].
Qed.

Lemma BC_HeatFlux_Wall_loop_energy solver Jacobian_i n :
  dynamic_grid solver = false ->
  (n <= nVertex geometry val_marker)%nat ->
  (forall v w, (v < nVertex geometry val_marker)%nat ->
     (w < nVertex geometry val_marker)%nat -> node v = node w -> v = w) ->
  forall iVertex, (iVertex < nVertex geometry val_marker)%nat ->
    GetDomain geometry (node iVertex) = true ->
    LinSysRes
      (fst (fst (for_loop n heat_flux_body
                   (solver,
                    GetWall_HeatFlux config
                      (GetMarker_All_TagBound config val_marker)
                    / GetHeat_Flux_Ref config,
                    Jacobian_i))))
      (node iVertex) (nDim solver + 1)%nat
    = if Nat.ltb iVertex n
      then LinSysRes solver (node iVertex) (nDim solver + 1)%nat
           + (0.0 - prescribed_heat_flux geometry config val_marker iVertex
                    * face_area geometry solver val_marker iVertex)
      else LinSysRes solver (node iVertex) (nDim solver + 1)%nat.
Proof.
  intros Hstatic Hn Hinj. induction n as [|n IH]; intros iVertex Hlt Hdom.
  - reflexivity.
  - rewrite for_loop_S.
    pose proof (BC_HeatFlux_Wall_loop_members solver
                  (GetWall_HeatFlux config
                     (GetMarker_All_TagBound config val_marker)
                   / GetHeat_Flux_Ref config) Jacobian_i n Hstatic) as Hm.
    cbn zeta in Hm.
    assert (IH' := fun v => IH ltac:(lia) v).
    destruct (for_loop n _ _) as [[solver_n W_n] J_n].
    cbn [fst snd] in *. destruct Hm as (HnD & Hd & HW).
    destruct (GetDomain geometry (node n)) eqn:Hdn.
    + rewrite (BC_HeatFlux_Wall_vertex_static _ _ _ _ Hd Hdn). cbn [fst].
      rewrite (wall_vertex_LinSysRes geometry solver_n (node n) implicit 0.0 _
                 None Hd).
      rewrite HnD, Nat.eqb_refl, andb_true_r.
      destruct (Nat.eq_dec iVertex n) as [->|Hne].
      * rewrite Nat.eqb_refl.
        replace (Nat.ltb n (S n)) with true
          by (symmetry; apply Nat.ltb_lt; lia).
        rewrite (IH' n Hlt Hdom), Nat.ltb_irrefl.
        rewrite (face_area_nDim solver solver_n n HnD).
        unfold prescribed_heat_flux.
        destruct (GetMarker_All_PyCustom config val_marker) eqn:Hc;
          [reflexivity|]. rewrite (HW eq_refl). reflexivity.
      * destruct (Nat.eqb_spec (node iVertex) (node n)) as [E|_].
        { exfalso. apply Hne. apply Hinj; [exact Hlt | lia | exact E]. }
        cbn [andb]. rewrite (IH' iVertex Hlt Hdom).
        destruct (Nat.ltb_spec iVertex n), (Nat.ltb_spec iVertex (S n));
          try lia; reflexivity.
    + unfold BC_HeatFlux_Wall_vertex. rewrite Hdn. cbn [negb fst].
      destruct (Nat.eq_dec iVertex n) as [->|Hne]; [congruence|].
      rewrite (IH' iVertex Hlt Hdom).
      destruct (Nat.ltb_spec iVertex n), (Nat.ltb_spec iVertex (S n));
        try lia; reflexivity.
Qed.

(** C5.  On a static mesh, at a domain-owned vertex of a heat-flux marker
    with heat flux Q ([prescribed_heat_flux]) and face area A: the
    convective part of the energy residual is zero and the viscous part
    is exactly Q*A, and when the vertices of the marker lie on distinct
    points the pass adds the convective part minus the viscous part,
    that is -Q*A, to the energy residual of the vertex's point. *)
Theorem BC_HeatFlux_Wall_energy_residual solver iVertex :
  dynamic_grid solver = false ->
  (iVertex < nVertex geometry val_marker)%nat ->
  GetDomain geometry (node iVertex) = true ->
  let Q := prescribed_heat_flux geometry config val_marker iVertex in
  let A := face_area geometry solver val_marker iVertex in
  let energy := (nDim solver + 1)%nat in
  let after :=
    BC_HeatFlux_Wall ComputeStressTensor geometry config val_marker solver in
  (forall Jacobian_i,
     let '(_, Res_Conv, Res_Visc) :=
       BC_HeatFlux_Wall_energy ComputeStressTensor geometry config val_marker
         solver Q Jacobian_i iVertex in
     Res_Conv = 0 /\ Res_Visc = Q * A)
  /\ ((forall v w, (v < nVertex geometry val_marker)%nat ->
         (w < nVertex geometry val_marker)%nat -> node v = node w -> v = w) ->
      LinSysRes after (node iVertex) energy
      = LinSysRes solver (node iVertex) energy + (0 - Q * A)
      /\ LinSysRes after (node iVertex) energy
         = LinSysRes solver (node iVertex) energy - Q * A).
Proof.
  intros Hstatic Hlt Hdom Q A energy after. split.
  - intros Jacobian_i.
    rewrite (BC_HeatFlux_Wall_energy_static _ _ _ _ Hstatic).
    split; [lra | reflexivity].
  - intros Hinj.
    assert (H : LinSysRes after (node iVertex) energy
                = LinSysRes solver (node iVertex) energy + (0.0 - Q * A)).
    { unfold after, BC_HeatFlux_Wall. cbv zeta.
      rewrite (BC_HeatFlux_Wall_loop_energy solver _ _ Hstatic (le_n _) Hinj
                 iVertex Hlt Hdom).
      replace (Nat.ltb iVertex (nVertex geometry val_marker)) with true
        by (symmetry; apply Nat.ltb_lt; exact Hlt).
      reflexivity. }
    rewrite H. split; lra.
Qed.

End WallPass.

Lemma face_area_on_wall_geometry c :
  face_area wall_geometry (shear_solver c) 0 0 = 1.
Proof.
  unfold face_area, GeometryToolbox.Norm, GeometryToolbox.SquaredNorm.
  cbn. unfold vset, zeros. cbn.
  replace (0 + 0 * 0 + -1 * -1) with 1 by lra.
  apply sqrt_1.
Qed.

(** On [wall_geometry] the implicit heat-flux pass turns the old velocity
    3, the momentum residual 7 and the Jacobian entries 9 of the wall
    point into 0, 0 and the rows of the identity. *)
Lemma wall_pass_enforces_no_slip_on_shear :
  dynamic_grid (shear_solver 5) = false
  /\ let after :=
       BC_HeatFlux_Wall Newtonian_stress wall_geometry
         (wall_config EULER_IMPLICIT HEAT_FLUX
            DIRECT_TEMPERATURE_NEUMANN_HEATFLUX) 0 (shear_solver 5) in
     Velocity_Old (nodes after) 0%nat 1%nat = 0
     /\ LinSysRes after 0%nat 2%nat = 0
     /\ Jacobian after 0%nat 1%nat 2%nat 3%nat = 0
     /\ Jacobian after 0%nat 0%nat 2%nat 2%nat = 1.
Proof.
  split; [reflexivity|]. intros after.
  destruct (proj1 (wall_pass_enforces_no_slip Newtonian_stress wall_geometry
                     (wall_config EULER_IMPLICIT HEAT_FLUX
                        DIRECT_TEMPERATURE_NEUMANN_HEATFLUX)
                     0 (shear_solver 5) eq_refl)
                  0%nat ltac:(cbn; lia) eq_refl) as (Hv & Hr & Hj).
  split; [apply (Hv 1%nat); cbn; lia|].
  split; [apply (Hr 1%nat); cbn; lia|].
  split; [apply (Hj eq_refl 2%nat ltac:(cbn; lia) 1%nat 3%nat)
         | apply (Hj eq_refl 2%nat ltac:(cbn; lia) 0%nat 2%nat)].
Defined.

(** On [wall_geometry] the heat flux is 2 and the face area 1: the pass
    takes 2 off the energy residual 7 of the wall point. *)
Lemma BC_HeatFlux_Wall_energy_residual_on_shear :
  dynamic_grid (shear_solver 5) = false
  /\ (0 < nVertex wall_geometry 0)%nat
  /\ GetDomain wall_geometry (GetNode (vertex wall_geometry 0 0)) = true
  /\ LinSysRes
       (BC_HeatFlux_Wall Newtonian_stress wall_geometry
          (wall_config EULER_IMPLICIT HEAT_FLUX
             DIRECT_TEMPERATURE_NEUMANN_HEATFLUX) 0 (shear_solver 5))
       0%nat 3%nat
     = 7 - 2.
Proof.
  split; [reflexivity|]. split; [cbn; lia|]. split; [reflexivity|].
  destruct (proj2 (BC_HeatFlux_Wall_energy_residual Newtonian_stress
                     wall_geometry
                     (wall_config EULER_IMPLICIT HEAT_FLUX
                        DIRECT_TEMPERATURE_NEUMANN_HEATFLUX)
                     0 (shear_solver 5) 0%nat eq_refl ltac:(cbn; lia) eq_refl))
    as [_ H].
  { intros v w Hv Hw _. cbn in Hv, Hw. lia. }
  etransitivity; [exact H|].
  rewrite face_area_on_wall_geometry. cbn. lra.
Defined.

(** * The wall-function iteration *)

Lemma pow_square x y : y = 2 -> cmath.pow x y = x * x.
Proof.
  intros ->. unfold cmath.pow.
  assert (H : Int_part 2 = 2%Z) by (symmetry; apply Int_part_spec; lra).
  rewrite H. destruct (Req_EM_T (IZR 2) 2) as [_|N]; [|contradiction].
  unfold su2double in *. change (powerRZ x 2) with (x * (x * 1)). ring.
Qed.

Lemma while_unfold fuel bl it :
  WallFunction.while (S fuel) bl it
  = if Rgt_dec (WallFunction.it_diff it) WallFunction.tol then
      if Nat.ltb WallFunction.max_iter
           (WallFunction.it_counter (WallFunction.body bl it))
      then Some (WallFunction.warn (WallFunction.body bl it))
      else WallFunction.while fuel bl (WallFunction.body bl it)
    else Some it.
Proof. reflexivity. Qed.

(** Enough fuel always gives a result: the loop stops by itself. *)
Lemma while_terminates fuel bl it :
  (1 <= fuel)%nat ->
  (S WallFunction.max_iter <= fuel + WallFunction.it_counter it)%nat ->
  exists it', WallFunction.while fuel bl it = Some it'.
Proof.
  revert it. induction fuel as [|fuel IH]; intros it H1 H; [lia|].
  rewrite while_unfold.
  destruct (Rgt_dec _ _); [|eexists; reflexivity].
  destruct (Nat.ltb_spec WallFunction.max_iter
              (WallFunction.it_counter (WallFunction.body bl it)))
    as [Hgt|Hle]; [eexists; reflexivity|].
  cbn [WallFunction.body WallFunction.it_counter] in Hle.
  apply IH; cbn [WallFunction.body WallFunction.it_counter]; lia.
Qed.

(** The loop body runs at most [max_iter + 1] times. *)
Lemma while_counter_bound fuel bl it it' :
  (WallFunction.it_counter it <= WallFunction.max_iter)%nat ->
  WallFunction.while fuel bl it = Some it' ->
  (WallFunction.it_counter it' <= S WallFunction.max_iter)%nat.
Proof.
  revert it. induction fuel as [|fuel IH]; intros it Hc Hrun.
  - cbn in Hrun. destruct (Rgt_dec _ _); [discriminate|].
    injection Hrun as <-. lia.
  - rewrite while_unfold in Hrun.
    destruct (Rgt_dec _ _); [|injection Hrun as <-; lia].
    destruct (Nat.ltb_spec WallFunction.max_iter
                (WallFunction.it_counter (WallFunction.body bl it)))
      as [Hgt|Hle].
    + injection Hrun as <-.
      cbn [WallFunction.warn WallFunction.body WallFunction.it_counter]. lia.
    + apply (IH _ Hle Hrun).
Qed.

(** With no tangential velocity the updated wall shear stress is zero,
    whatever the current guess. *)
Lemma Tau_Wall_update_at_rest bl Tau_Wall_Old :
  WallFunction.VelTangMod bl = 0 ->
  WallFunction.Tau_Wall_update bl Tau_Wall_Old = 0.
Proof.
  intros Hrest. unfold WallFunction.Tau_Wall_update. cbv zeta.
  rewrite Hrest. unfold su2double in *.
  assert (Hdiv : forall u, 0 / u = 0) by (intros; unfold Rdiv; ring).
  assert (H0 : 0.0 = 0) by lra.
  rewrite H0, !Hdiv.
  replace (-1.0 * 0) with 0 by ring.
  rewrite !Rmult_0_r, Rminus_0_r, !Hdiv, asin_0, Rminus_0_r, Rmult_0_r, exp_0.
  rewrite (pow_square _ 2.0) by lra.
  assert (H1 : 1.0 = 1) by lra. rewrite !H1.
  unfold Rdiv. ring.
Qed.

Lemma body_at_rest bl it :
  WallFunction.VelTangMod bl = 0 ->
  WallFunction.body bl it
  = {| WallFunction.it_Tau_Wall := 0;
       WallFunction.it_Tau_Wall_Old :=
         WallFunction.it_Tau_Wall_Old it
         + WallFunction.relax * (0 - WallFunction.it_Tau_Wall_Old it);
       WallFunction.it_diff :=
         cmath.fabs (0 - WallFunction.it_Tau_Wall_Old it);
       WallFunction.it_counter := S (WallFunction.it_counter it);
       WallFunction.it_cout := WallFunction.it_cout it |}.
Proof.
  intros Hrest. unfold WallFunction.body.
  rewrite (Tau_Wall_update_at_rest bl _ Hrest). reflexivity.
Qed.

(** A layer at rest never converges from a guess whose tenth relaxed
    value is still above the tolerance: the loop uses up all the
    [fuel] it is given and leaves with the warning. *)
Lemma while_at_rest bl fuel :
  WallFunction.VelTangMod bl = 0 ->
  forall it,
    (fuel + WallFunction.it_counter it = WallFunction.max_iter)%nat ->
    WallFunction.tol < WallFunction.it_diff it ->
    0 < WallFunction.it_Tau_Wall_Old it ->
    WallFunction.tol < WallFunction.it_Tau_Wall_Old it * (3 / 4) ^ fuel ->
    exists it',
      WallFunction.while (S fuel) bl it = Some it'
      /\ WallFunction.it_counter it' = S WallFunction.max_iter
      /\ WallFunction.it_Tau_Wall it' = 0
      /\ WallFunction.it_Tau_Wall_Old it'
         = WallFunction.it_Tau_Wall_Old it * (3 / 4) ^ S fuel
      /\ WallFunction.it_diff it'
         = WallFunction.it_Tau_Wall_Old it * (3 / 4) ^ fuel
      /\ WallFunction.it_cout it'
         = WallFunction.it_cout it
           ++ [WallFunction.Tau_Wall_not_converged
                 (WallFunction.it_Tau_Wall_Old it') 0
                 (WallFunction.it_diff it')].
Proof.
  intros Hrest. induction fuel as [|fuel IH];
    intros it Hfuel Hdiff Hpos Htenth.
  - rewrite while_unfold.
    destruct (Rgt_dec _ _) as [_|N]; [|exfalso; apply N; exact Hdiff].
    rewrite (body_at_rest bl it Hrest).
    cbn [WallFunction.it_counter].
    replace (Nat.ltb WallFunction.max_iter (S (WallFunction.it_counter it)))
      with true by (symmetry; apply Nat.ltb_lt; lia).
    eexists. split; [reflexivity|].
    cbn [WallFunction.warn WallFunction.it_counter WallFunction.it_Tau_Wall
         WallFunction.it_Tau_Wall_Old WallFunction.it_diff
         WallFunction.it_cout].
    unfold cmath.fabs, WallFunction.relax.
    rewrite Rabs_left1 by lra.
    split; [lia|]. split; [reflexivity|].
    split; [simpl; lra|]. split; [simpl; lra|]. reflexivity.
  - rewrite while_unfold.
    destruct (Rgt_dec _ _) as [_|N]; [|exfalso; apply N; exact Hdiff].
    rewrite (body_at_rest bl it Hrest).
    cbn [WallFunction.it_counter].
    replace (Nat.ltb WallFunction.max_iter (S (WallFunction.it_counter it)))
      with false by (symmetry; apply Nat.ltb_ge; lia).
    assert (Hpow : 0 < (3 / 4) ^ fuel) by (apply pow_lt; lra).
    assert (Hle : (3 / 4) ^ fuel <= 1).
    { rewrite <- (pow1 fuel). apply pow_incr. lra. }
    simpl in Htenth.
    match goal with
    | |- exists it', WallFunction.while _ _ ?next = _ /\ _ =>
        destruct (IH next) as (it' & Hrun & Hc & Ht & Ho & Hd & Hw);
          [| | | | exists it'; split; [exact Hrun|]]
    end.
    + cbn [WallFunction.it_counter]. lia.
    + cbn [WallFunction.it_diff]. unfold cmath.fabs.
      rewrite Rabs_left1 by lra. nra.
    + cbn [WallFunction.it_Tau_Wall_Old]. unfold WallFunction.relax. lra.
    + cbn [WallFunction.it_Tau_Wall_Old]. unfold WallFunction.relax. nra.
    + cbn [WallFunction.it_Tau_Wall_Old WallFunction.it_cout] in *.
      unfold WallFunction.relax in *.
      split; [exact Hc|]. split; [exact Ht|].
      split; [rewrite Ho; simpl; lra|].
      split; [rewrite Hd; simpl; lra|]. exact Hw.
Qed.

Lemma wall_area_is_one : sqrt (0 + 0 * 0 + -1 * -1) = 1.
Proof. replace (0 + 0 * 0 + -1 * -1) with 1 by lra. apply sqrt_1. Qed.

(** On [wall_geometry] the unit shear gives the wall traction (1, 0):
    the starting guess is 1, whatever the cache holds. *)
Lemma starting_guess_on_shear c :
  WallFunction.starting_guess Newtonian_stress wall_geometry (shear_solver c) 0 0
  = 1.
Proof.
  unfold WallFunction.starting_guess, WallFunction.UnitNormal,
    GeometryToolbox.Norm, GeometryToolbox.SquaredNorm,
    GeometryToolbox.DotProduct, Newtonian_stress, velocity_gradient, MAXNDIM.
  cbn. unfold vset, zeros, vfill. cbn.
  rewrite !wall_area_is_one.
  match goal with |- sqrt ?e = 1 => replace e with 1 by lra end.
  apply sqrt_1.
Qed.

Lemma VelTangMod_on_shear config c :
  WallFunction.VelTangMod
    (WallFunction.boundary_layer wall_geometry config (shear_solver c) 0 0) = 0.
Proof.
  unfold WallFunction.boundary_layer. cbn [WallFunction.VelTangMod].
  unfold WallFunction.UnitNormal,
    GeometryToolbox.Norm, GeometryToolbox.SquaredNorm,
    GeometryToolbox.DotProduct, CVariable.GetVelocity, MAXNDIM.
  cbn. unfold vset, zeros, vfill. cbn.
  rewrite !wall_area_is_one.
  match goal with |- sqrt ?e = 0 => replace e with 0 by lra end.
  apply sqrt_0.
Qed.

(** The solve on [wall_geometry]: the unit shear gives the starting
    guess 1, every update gives 0, and the change (3/4)^k of the first
    ten passes stays above the tolerance. *)
Lemma solve_on_shear config :
  let bl := WallFunction.boundary_layer wall_geometry config (shear_solver 5) 0 0 in
  let guess :=
    WallFunction.starting_guess Newtonian_stress wall_geometry
      (shear_solver 5) 0 0 in
  let it := WallFunction.solve bl guess in
  WallFunction.it_counter it = 11%nat
  /\ WallFunction.it_Tau_Wall it = 0
  /\ WallFunction.it_diff it = (3 / 4) ^ 10
  /\ WallFunction.it_cout it
     = [WallFunction.Tau_Wall_not_converged ((3 / 4) ^ 11) 0 ((3 / 4) ^ 10)].
Proof.
  intros bl guess it.
  assert (Hguess : guess = 1) by apply starting_guess_on_shear.
  destruct (while_at_rest bl 10 (VelTangMod_on_shear config 5)
              (WallFunction.start guess))
    as (it' & Hrun & Hc & Ht & Ho & Hd & Hw).
  { reflexivity. }
  { cbn. unfold WallFunction.tol. lra. }
  { cbn. rewrite Hguess. lra. }
  { cbn [WallFunction.start WallFunction.it_Tau_Wall_Old]. rewrite Hguess.
    unfold WallFunction.tol. simpl. lra. }
  assert (Hit : it = it').
  { unfold it, WallFunction.solve.
    change (S WallFunction.max_iter) with 11%nat. rewrite Hrun. reflexivity. }
  cbn [WallFunction.start WallFunction.it_Tau_Wall_Old WallFunction.it_cout]
    in Ho, Hd, Hw.
  rewrite Hguess in Ho, Hd. rewrite Hit.
  split; [exact Hc|]. split; [exact Ht|]. split; [rewrite Hd; lra|].
  rewrite Hw, Ho, Hd. cbn [app]. f_equal. f_equal; simpl; lra.
Qed.

Lemma SetTauWall_WF_on_shear config :
  GetViscous_Wall config 0 = true -> GetnMarker_All config = 1%nat ->
  WallFunction.SetTauWall_WF Newtonian_stress wall_geometry config
    (shear_solver 5)
  = let it :=
      WallFunction.solve
        (WallFunction.boundary_layer wall_geometry config (shear_solver 5) 0 0)
        (WallFunction.starting_guess Newtonian_stress wall_geometry
           (shear_solver 5) 0 0) in
    (set_nodes (shear_solver 5)
       (CVariable.SetTauWall (nodes (shear_solver 5)) 0
          (WallFunction.it_Tau_Wall it)),
     WallFunction.it_cout it).
Proof.
  intros Hwall Hone. unfold WallFunction.SetTauWall_WF. rewrite Hone.
  unfold for_loop. cbn [seq fold_left].
  unfold WallFunction.SetTauWall_WF_marker. rewrite Hwall. reflexivity.
Qed.

(** C3.  On [wall_geometry] (unit shear at the wall, interior neighbour
    at rest) the starting guess is 1 and every update gives 0, so the
    change of the first ten iterations, (3/4)^k, stays above the
    tolerance: the loop body runs eleven times, one more than
    [max_iter] = 10, before the warning is written and the loop left.
    The value stored for the wall point is the last one computed, 0. *)
Theorem SetTauWall_WF_runs_eleven_iterations :
  let config :=
    wall_config EULER_IMPLICIT HEAT_FLUX DIRECT_TEMPERATURE_NEUMANN_HEATFLUX in
  let bl := WallFunction.boundary_layer wall_geometry config (shear_solver 5) 0 0 in
  let guess :=
    WallFunction.starting_guess Newtonian_stress wall_geometry
      (shear_solver 5) 0 0 in
  let it := WallFunction.solve bl guess in
  let after :=
    WallFunction.SetTauWall_WF Newtonian_stress wall_geometry config
      (shear_solver 5) in
  WallFunction.max_iter = 10%nat
  /\ WallFunction.it_counter it = 11%nat
  /\ WallFunction.tol < WallFunction.it_diff it
  /\ snd after
     = [WallFunction.Tau_Wall_not_converged ((3 / 4) ^ 11) 0 ((3 / 4) ^ 10)]
  /\ CVariable.GetTauWall (nodes (fst after)) 0 = 0.
Proof.
  intros config bl guess it after.
  destruct (solve_on_shear config) as (Hc & Ht & Hd & Hw).
  fold bl guess it in Hc, Ht, Hd, Hw.
  split; [reflexivity|]. split; [exact Hc|]. split.
  { rewrite Hd. unfold WallFunction.tol. simpl. lra. }
  unfold after.
  rewrite (SetTauWall_WF_on_shear config eq_refl eq_refl). cbv zeta.
  fold bl guess it. cbn [fst snd]. split; [exact Hw|].
  cbn. exact Ht.
Qed.

(** On [wall_geometry] the cache holds 5 and the starting guess is 1;
    after the solve the cache holds 0 and the starting guess of the next
    call is 1 again. *)
Lemma SetTauWall_WF_guess_is_not_the_cache :
  let config :=
    wall_config EULER_IMPLICIT HEAT_FLUX DIRECT_TEMPERATURE_NEUMANN_HEATFLUX in
  let before := shear_solver 5 in
  let after :=
    fst (WallFunction.SetTauWall_WF Newtonian_stress wall_geometry config
           before) in
  (CVariable.GetTauWall (nodes before) 0 = 5
   /\ WallFunction.starting_guess Newtonian_stress wall_geometry before 0 0 = 1
   /\ WallFunction.starting_guess Newtonian_stress wall_geometry before 0 0
      <> CVariable.GetTauWall (nodes before) 0)
  /\ (CVariable.GetTauWall (nodes after) 0 = 0
      /\ WallFunction.starting_guess Newtonian_stress wall_geometry after 0 0 = 1
      /\ WallFunction.starting_guess Newtonian_stress wall_geometry after 0 0
         <> CVariable.GetTauWall (nodes after) 0).
Proof.
  intros config before after.
  assert (H1 : WallFunction.starting_guess Newtonian_stress wall_geometry
                 before 0 0 = 1) by apply starting_guess_on_shear.
  assert (H3 : CVariable.GetTauWall (nodes after) 0 = 0).
  { unfold after, before.
    rewrite (SetTauWall_WF_on_shear config eq_refl eq_refl). cbn.
    apply (solve_on_shear config). }
  assert (H2 : WallFunction.starting_guess Newtonian_stress wall_geometry
                 after 0 0 = 1).
  { unfold after, before.
    rewrite (SetTauWall_WF_on_shear config eq_refl eq_refl).
    apply starting_guess_on_shear. }
  split; (split; [|split]); try assumption.
  - reflexivity.
  - rewrite H1. cbn. lra.
  - rewrite H2, H3. lra.
Qed.

Section WallFunctionFacts.

Variable ComputeStressTensor : nat -> su2matrix -> su2double -> su2matrix.
Variable geometry : CGeometry.
Variable config : CConfig.

(** C2, as amended.  At a domain-owned vertex of a wall marker the
    wall-function solve starts from the wall shear stress it computes
    from the laminar stress tensor at the wall point; neither that guess
    nor the boundary-layer quantities depend on the cached wall shear
    stress.  The loop returns, and the wall shear stress it computed last
    is stored in the cache of the point, so that the stored value is the
    same whatever the cache held before. *)
Theorem SetTauWall_WF_vertex_guess_and_store iMarker iVertex solver cout :
  GetDomain geometry (GetNode (vertex geometry iMarker iVertex)) = true ->
  let iPoint := GetNode (vertex geometry iMarker iVertex) in
  let guess :=
    WallFunction.starting_guess ComputeStressTensor geometry solver iMarker
      iVertex in
  let bl := WallFunction.boundary_layer geometry config solver iMarker iVertex in
  let stored (s : CNSSolver) :=
    CVariable.GetTauWall
      (nodes (fst (WallFunction.SetTauWall_WF_vertex ComputeStressTensor
                     geometry config iMarker (s, cout) iVertex))) iPoint in
  (forall cache,
     WallFunction.starting_guess ComputeStressTensor geometry
       (recached solver cache) iMarker iVertex = guess
     /\ WallFunction.boundary_layer geometry config (recached solver cache)
          iMarker iVertex = bl)
  /\ (exists it,
        WallFunction.while (S WallFunction.max_iter) bl
          (WallFunction.start guess) = Some it
        /\ WallFunction.it_Tau_Wall_Old (WallFunction.start guess) = guess
        /\ stored solver = WallFunction.it_Tau_Wall it)
  /\ (forall cache, stored (recached solver cache) = stored solver).
Proof.
  intros Hdom iPoint guess bl stored.
  assert (Hcache : forall cache,
     WallFunction.starting_guess ComputeStressTensor geometry
       (recached solver cache) iMarker iVertex = guess
     /\ WallFunction.boundary_layer geometry config (recached solver cache)
          iMarker iVertex = bl) by (intros cache; split; reflexivity).
  assert (Hstored : forall s,
     stored s
     = WallFunction.it_Tau_Wall
         (WallFunction.solve
            (WallFunction.boundary_layer geometry config s iMarker iVertex)
            (WallFunction.starting_guess ComputeStressTensor geometry s
               iMarker iVertex))).
  { intros s. unfold stored, iPoint, WallFunction.SetTauWall_WF_vertex.
    rewrite Hdom. cbn [negb fst].
    cbn [set_nodes nodes CVariable.SetTauWall CVariable.GetTauWall Tau_Wall].
    rewrite Nat.eqb_refl. reflexivity. }
  split; [exact Hcache|]. split.
  - destruct (while_terminates (S WallFunction.max_iter) bl
                (WallFunction.start guess)) as [it Hit].
    + lia.
    + cbn [WallFunction.start WallFunction.it_counter]. lia.
    + exists it. split; [exact Hit|]. split; [reflexivity|].
      rewrite Hstored. unfold WallFunction.solve. fold bl guess.
      rewrite Hit. reflexivity.
  - intros cache. rewrite !Hstored.
    destruct (Hcache cache) as [-> ->]. reflexivity.
Qed.

End WallFunctionFacts.

Lemma SetTauWall_WF_vertex_guess_and_store_on_shear :
  GetDomain wall_geometry (GetNode (vertex wall_geometry 0 0)) = true
  /\ forall cache,
       CVariable.GetTauWall
         (nodes (fst (WallFunction.SetTauWall_WF_vertex Newtonian_stress
                        wall_geometry
                        (wall_config EULER_IMPLICIT HEAT_FLUX
                           DIRECT_TEMPERATURE_NEUMANN_HEATFLUX)
                        0 (recached (shear_solver 5) cache, []) 0))) 0
       = CVariable.GetTauWall
           (nodes (fst (WallFunction.SetTauWall_WF_vertex Newtonian_stress
                          wall_geometry
                          (wall_config EULER_IMPLICIT HEAT_FLUX
                             DIRECT_TEMPERATURE_NEUMANN_HEATFLUX)
                          0 (shear_solver 5, []) 0))) 0.
Proof.
  split; [reflexivity|].
  apply (SetTauWall_WF_vertex_guess_and_store Newtonian_stress wall_geometry
           (wall_config EULER_IMPLICIT HEAT_FLUX
              DIRECT_TEMPERATURE_NEUMANN_HEATFLUX)
           0 0 (shear_solver 5) [] eq_refl).
Defined.

(** * The buffet monitor *)

Lemma accumulate_ext n f g :
  (forall i, (i < n)%nat -> f i = g i) -> accumulate n f = accumulate n g.
Proof.
  induction n as [|n IH]; intros H; cbn; [reflexivity|].
  rewrite IH by (intros i Hi; apply H; lia). rewrite H by lia. reflexivity.
Qed.

Lemma accumulate_split n1 n2 f :
  accumulate (n1 + n2) f
  = accumulate n1 f + accumulate n2 (fun i => f (n1 + i)%nat).
Proof.
  induction n2 as [|n2 IH]; cbn.
  - rewrite Nat.add_0_r. lra.
  - rewrite Nat.add_succ_r. cbn. rewrite IH. lra.
Qed.

Lemma accumulate_plus n f g :
  accumulate n (fun i => f i + g i) = accumulate n f + accumulate n g.
Proof.
  induction n as [|n IH]; cbn; [|rewrite IH]; lra.
Qed.

Lemma buffet_sensor_inputs config s s' iMarker iVertex :
  nDim s' = nDim s -> CSkinFriction s' = CSkinFriction s ->
  buffet_sensor config s' iMarker iVertex = buffet_sensor config s iMarker iVertex.
Proof.
  intros Hn Hc.
  unfold buffet_sensor, friction_alignment, freestream_speed.
  rewrite Hn, Hc. reflexivity.
Qed.

Lemma marker_metric_inputs geometry config s s' iMarker :
  nDim s' = nDim s -> CSkinFriction s' = CSkinFriction s ->
  marker_metric geometry config s' iMarker
  = marker_metric geometry config s iMarker.
Proof.
  intros Hn Hc. unfold marker_metric. apply accumulate_ext. intros v _.
  rewrite (buffet_sensor_inputs config s s' _ _ Hn Hc).
  unfold face_area. rewrite Hn. reflexivity.
Qed.

Section VertexLoop.

Variable geometry : CGeometry.
Variable config : CConfig.
Variable VelMag_FS : su2double.
Variable iMarker : nat.
Variable Monitoring : ANSWER.
Variable s0 : CNSSolver.
Hypothesis speed : VelMag_FS = freestream_speed config s0.

Lemma Buffet_Monitoring_vertex_loop n :
  let s :=
    for_loop n
      (Buffet_Monitoring_vertex geometry config VelMag_FS iMarker Monitoring)
      s0 in
  (nDim s = nDim s0 /\ nMarker s = nMarker s0
   /\ CSkinFriction s = CSkinFriction s0
   /\ Total_Buffet_Metric s = Total_Buffet_Metric s0
   /\ Surface_Buffet_Metric s = Surface_Buffet_Metric s0
   /\ Total_ComboObj s = Total_ComboObj s0)
  /\ (forall m v,
        Buffet_Sensor s m v
        = if Nat.eqb m iMarker && Nat.ltb v n
          then buffet_sensor config s0 iMarker v
          else Buffet_Sensor s0 m v)
  /\ (forall m, m <> iMarker -> Buffet_Metric s m = Buffet_Metric s0 m)
  /\ (Monitoring = YES -> Buffet_Metric s0 iMarker = 0 ->
      Buffet_Metric s iMarker
      = accumulate n (fun v =>
          buffet_sensor config s0 iMarker v
          * face_area geometry s0 iMarker v / GetRefArea config))
  /\ (Monitoring = NO -> Buffet_Metric s iMarker = Buffet_Metric s0 iMarker).
Proof.
  induction n as [|n IH]; cbn zeta.
  - split; [repeat split|]. split; [|split; [|split]].
    + intros m v. rewrite andb_false_r. reflexivity.
    + reflexivity.
    + intros _ H. exact H.
    + reflexivity.
  - rewrite for_loop_S. cbn zeta in IH.
    set (s := for_loop n _ s0) in *.
    destruct IH as ((Hn & Hm & Hc & Ht & Hs & Ho) & Hsens & Hoth & Hyes & Hno).
    assert (Hval :
      1 / (1 + exp (2 * GetBuffet_k config
                    * (accumulate (nDim s) (fun iDim =>
                         CSkinFriction s iMarker iDim n
                         * GetVelocity_FreeStream config iDim)
                       / (sqrt (accumulate (nDim s) (fun iDim =>
                                  CSkinFriction s iMarker iDim n
                                  * CSkinFriction s iMarker iDim n))
                          * VelMag_FS)
                       + GetBuffet_lambda config)))
      = buffet_sensor config s0 iMarker n).
    { unfold buffet_sensor, friction_alignment. rewrite Hn, Hc, speed.
      reflexivity. }
    unfold Buffet_Monitoring_vertex. rewrite Hval.
    destruct Monitoring; cbn [answer_eqb].
    + split; [repeat split; assumption|]. split; [|split; [|split]].
      * intros m v. cbn [set_Buffet_Sensor Buffet_Sensor]. rewrite Hsens.
        destruct (Nat.eqb_spec m iMarker), (Nat.eqb_spec v n),
          (Nat.ltb_spec v n), (Nat.ltb_spec v (S n));
          cbn [andb]; subst; try reflexivity; lia.
      * intros m Hne. cbn. apply Hoth, Hne.
      * intros H. discriminate H.
      * intros _. cbn. apply Hno. reflexivity.
    + split; [repeat split; assumption|]. split; [|split; [|split]].
      * intros m v. cbn [set_Buffet_Metric set_Buffet_Sensor Buffet_Sensor].
        rewrite Hsens.
        destruct (Nat.eqb_spec m iMarker), (Nat.eqb_spec v n),
          (Nat.ltb_spec v n), (Nat.ltb_spec v (S n));
          cbn [andb]; subst; try reflexivity; lia.
      * intros m Hne.
        cbn [set_Buffet_Metric set_Buffet_Sensor Buffet_Metric].
        unfold vset. destruct (Nat.eqb_spec m iMarker); [contradiction|].
        apply Hoth, Hne.
      * intros _ Hz.
        cbn [set_Buffet_Metric set_Buffet_Sensor Buffet_Metric Buffet_Sensor
             nDim].
        unfold vset. rewrite !Nat.eqb_refl. cbn [andb accumulate].
        rewrite (Hyes eq_refl Hz). unfold face_area. rewrite Hn. reflexivity.
      * intros H. discriminate H.
Qed.

End VertexLoop.

Section MarkerLoop.

Variable geometry : CGeometry.
Variable config : CConfig.

(** The loop that copies a marker's metric to the monitored surfaces that
    carry its tag. *)
Lemma Buffet_Monitoring_surface_loop iMarker s0 n :
  let s :=
    for_loop n
      (fun solver iMarker_Monitoring =>
         if String.eqb (GetMarker_All_TagBound config iMarker)
              (GetMarker_Monitoring_TagBound config iMarker_Monitoring)
         then set_Surface_Buffet_Metric solver
                (vset (Surface_Buffet_Metric solver) iMarker_Monitoring
                      (Buffet_Metric solver iMarker))
         else solver)
      s0 in
  (nDim s = nDim s0 /\ nMarker s = nMarker s0
   /\ CSkinFriction s = CSkinFriction s0
   /\ Total_Buffet_Metric s = Total_Buffet_Metric s0
   /\ Buffet_Sensor s = Buffet_Sensor s0
   /\ Buffet_Metric s = Buffet_Metric s0
   /\ Total_ComboObj s = Total_ComboObj s0)
  /\ forall i,
       Surface_Buffet_Metric s i
       = if Nat.ltb i n
            && String.eqb (GetMarker_All_TagBound config iMarker)
                 (GetMarker_Monitoring_TagBound config i)
         then Buffet_Metric s0 iMarker
         else Surface_Buffet_Metric s0 i.
Proof.
  induction n as [|n IH]; cbn zeta.
  - split; [repeat split|]. intros i. reflexivity.
  - rewrite for_loop_S. cbn zeta in IH.
    set (s := for_loop n _ s0) in *.
    destruct IH as ((Hn & Hm & Hc & Ht & Hse & Hme & Ho) & Hsurf).
    destruct (String.eqb _ (GetMarker_Monitoring_TagBound config n)) eqn:Htag.
    + split; [repeat split; assumption|].
      intros i. cbn [set_Surface_Buffet_Metric Surface_Buffet_Metric].
      unfold vset. rewrite Hme.
      destruct (Nat.eqb_spec i n) as [->|Hne].
      * replace (Nat.ltb n (S n)) with true
          by (symmetry; apply Nat.ltb_lt; lia).
        rewrite Htag. reflexivity.
      * rewrite Hsurf.
        destruct (Nat.ltb_spec i n), (Nat.ltb_spec i (S n)); try lia;
          reflexivity.
    + split; [repeat split; assumption|].
      intros i. rewrite Hsurf.
      destruct (Nat.eqb_spec i n) as [->|Hne].
      * rewrite Nat.ltb_irrefl.
        replace (Nat.ltb n (S n)) with true
          by (symmetry; apply Nat.ltb_lt; lia).
        rewrite Htag. reflexivity.
      * destruct (Nat.ltb_spec i n), (Nat.ltb_spec i (S n)); try lia;
          reflexivity.
Qed.

(** The loop over the markers, from a solver whose monitored surface
    metrics are still zero. *)
Lemma Buffet_Monitoring_marker_loop s0 n :
  (forall i, (i < GetnMarker_Monitoring config)%nat ->
     Surface_Buffet_Metric s0 i = 0) ->
  let s :=
    for_loop n
      (Buffet_Monitoring_marker geometry config (freestream_speed config s0))
      s0 in
  (nDim s = nDim s0 /\ nMarker s = nMarker s0
   /\ CSkinFriction s = CSkinFriction s0
   /\ Total_ComboObj s = Total_ComboObj s0)
  /\ (forall m v,
        Buffet_Sensor s m v
        = if Nat.ltb m n && buffet_wall (GetMarker_All_KindBC config m)
             && Nat.ltb v (nVertex geometry m)
          then buffet_sensor config s0 m v
          else Buffet_Sensor s0 m v)
  /\ (forall m,
        Buffet_Metric s m
        = if Nat.ltb m n
          then (if monitored_wall config m
                then marker_metric geometry config s0 m else 0)
          else Buffet_Metric s0 m)
  /\ Total_Buffet_Metric s
     = Total_Buffet_Metric s0
       + accumulate n (fun m =>
           if monitored_wall config m
           then marker_metric geometry config s0 m else 0)
  /\ (forall i,
        Surface_Buffet_Metric s i
        = if Nat.ltb i (GetnMarker_Monitoring config)
          then surface_metric geometry config s0 n i
          else Surface_Buffet_Metric s0 i).
Proof.
  intros Hzero. induction n as [|n IH]; cbn zeta.
  - split; [repeat split|]. split; [reflexivity|]. split; [reflexivity|].
    split; [cbn; lra|].
    intros i. destruct (Nat.ltb_spec i (GetnMarker_Monitoring config));
      [apply Hzero; assumption | reflexivity].
  - rewrite for_loop_S. cbn zeta in IH.
    set (s := for_loop n _ s0) in *.
    destruct IH as ((Hn & Hm & Hc & Ho) & Hsens & Hmet & Htot & Hsurf).
    unfold Buffet_Monitoring_marker.
    set (s1 := set_Buffet_Metric s (vset (Buffet_Metric s) n 0)).
    assert (Hspeed : freestream_speed config s0 = freestream_speed config s1).
    { unfold freestream_speed. cbn [s1 set_Buffet_Metric nDim].
      rewrite Hn. reflexivity. }
    assert (Hs1 : forall m v,
              buffet_sensor config s1 m v = buffet_sensor config s0 m v).
    { intros m v. apply buffet_sensor_inputs; [exact Hn | exact Hc]. }
    assert (Hm1 : forall m,
              marker_metric geometry config s1 m
              = marker_metric geometry config s0 m).
    { intros m. apply marker_metric_inputs; [exact Hn | exact Hc]. }
    assert (H1n : nDim s1 = nDim s) by reflexivity.
    assert (H1m : nMarker s1 = nMarker s) by reflexivity.
    assert (H1c : CSkinFriction s1 = CSkinFriction s) by reflexivity.
    assert (H1o : Total_ComboObj s1 = Total_ComboObj s) by reflexivity.
    assert (Hz1 : Buffet_Metric s1 n = 0).
    { cbn [s1 set_Buffet_Metric Buffet_Metric]. unfold vset.
      rewrite Nat.eqb_refl. reflexivity. }
    unfold monitored_wall in *.
    destruct (buffet_wall (GetMarker_All_KindBC config n)) eqn:Hwall.
    + pose proof (Buffet_Monitoring_vertex_loop geometry config
                    (freestream_speed config s0) n
                    (GetMarker_All_Monitoring config n) s1 Hspeed
                    (nVertex geometry n)) as Hv.
      cbn zeta in Hv. set (s2 := for_loop (nVertex geometry n) _ s1) in *.
      destruct Hv as ((Vn & Vm & Vc & Vt & Vs & Vo) & Vsens & Voth & Vyes & Vno).
      destruct (GetMarker_All_Monitoring config n) eqn:Hmon; cbn [answer_eqb].
      * (* a wall that is not monitored *)
        split; [repeat split; congruence|].
        split; [|split; [|split]].
        -- intros m v. rewrite Vsens. cbn [s1 set_Buffet_Metric Buffet_Sensor].
           rewrite Hsens, Hs1.
           destruct (Nat.eqb_spec m n) as [->|Hne].
           ++ rewrite Nat.ltb_irrefl, Hwall.
              replace (Nat.ltb n (S n)) with true
                by (symmetry; apply Nat.ltb_lt; lia).
              cbn [andb]. reflexivity.
           ++ cbn [andb].
              destruct (Nat.ltb_spec m n), (Nat.ltb_spec m (S n)); try lia;
                reflexivity.
        -- intros m. destruct (Nat.eqb_spec m n) as [->|Hne].
           ++ rewrite (Vno eq_refl), Hz1.
              replace (Nat.ltb n (S n)) with true
                by (symmetry; apply Nat.ltb_lt; lia).
              rewrite Hwall, Hmon. reflexivity.
           ++ rewrite (Voth m Hne).
              cbn [s1 set_Buffet_Metric Buffet_Metric]. unfold vset.
              destruct (Nat.eqb_spec m n); [contradiction|].
              rewrite Hmet.
              destruct (Nat.ltb_spec m n), (Nat.ltb_spec m (S n)); try lia;
                reflexivity.
        -- rewrite Vt. cbn [s1 set_Buffet_Metric Total_Buffet_Metric accumulate].
           rewrite Htot, Hwall, Hmon. cbn [answer_eqb andb]. lra.
        -- intros i. rewrite Vs.
           cbn [s1 set_Buffet_Metric Surface_Buffet_Metric surface_metric].
           unfold monitored_wall.
           rewrite Hsurf, Hwall, Hmon. reflexivity.
      * (* a monitored wall *)
        pose proof (Buffet_Monitoring_surface_loop n
                      (set_Total_Buffet_Metric s2
                         (Total_Buffet_Metric s2 + Buffet_Metric s2 n))
                      (GetnMarker_Monitoring config)) as Hs.
        cbn zeta in Hs.
        set (s3 := for_loop (GetnMarker_Monitoring config) _ _) in *.
        destruct Hs as ((Sn & Sm & Sc & St & Sse & Sme & So) & Ssurf).
        cbn [set_Total_Buffet_Metric nDim nMarker CSkinFriction
             Total_Buffet_Metric Buffet_Sensor Buffet_Metric Total_ComboObj
             Surface_Buffet_Metric] in Sn, Sm, Sc, St, Sse, Sme, So, Ssurf.
        assert (Hmetric : Buffet_Metric s2 n
                          = marker_metric geometry config s0 n).
        { rewrite (Vyes eq_refl Hz1). rewrite <- Hm1. unfold marker_metric.
          reflexivity. }
        split; [repeat split; congruence|].
        split; [|split; [|split]].
        -- intros m v. rewrite Sse, Vsens.
           cbn [s1 set_Buffet_Metric Buffet_Sensor].
           rewrite Hsens, Hs1.
           destruct (Nat.eqb_spec m n) as [->|Hne].
           ++ rewrite Nat.ltb_irrefl, Hwall.
              replace (Nat.ltb n (S n)) with true
                by (symmetry; apply Nat.ltb_lt; lia).
              cbn [andb]. reflexivity.
           ++ cbn [andb].
              destruct (Nat.ltb_spec m n), (Nat.ltb_spec m (S n)); try lia;
                reflexivity.
        -- intros m. rewrite Sme. destruct (Nat.eqb_spec m n) as [->|Hne].
           ++ rewrite Hmetric.
              replace (Nat.ltb n (S n)) with true
                by (symmetry; apply Nat.ltb_lt; lia).
              rewrite Hwall, Hmon. reflexivity.
           ++ rewrite (Voth m Hne).
              cbn [s1 set_Buffet_Metric Buffet_Metric]. unfold vset.
              destruct (Nat.eqb_spec m n); [contradiction|].
              rewrite Hmet.
              destruct (Nat.ltb_spec m n), (Nat.ltb_spec m (S n)); try lia;
                reflexivity.
        -- rewrite St, Vt, Hmetric.
           cbn [s1 set_Buffet_Metric Total_Buffet_Metric accumulate].
           rewrite Htot, Hwall, Hmon. cbn [answer_eqb andb]. lra.
        -- intros i. rewrite Ssurf, Hmetric, Vs.
           cbn [s1 set_Buffet_Metric Surface_Buffet_Metric surface_metric].
           unfold monitored_wall.
           rewrite Hsurf, Hwall, Hmon. cbn [answer_eqb andb].
           destruct (Nat.ltb_spec i (GetnMarker_Monitoring config));
             cbn [andb]; [|reflexivity].
           destruct (String.eqb _ _); reflexivity.
    + (* not a wall *)
      split; [repeat split; assumption|].
      split; [|split; [|split]].
      * intros m v. cbn [s1 set_Buffet_Metric Buffet_Sensor]. rewrite Hsens.
        destruct (Nat.eqb_spec m n) as [->|Hne].
        -- rewrite Nat.ltb_irrefl, Hwall, !andb_false_r. cbn [andb]. reflexivity.
        -- destruct (Nat.ltb_spec m n), (Nat.ltb_spec m (S n)); try lia;
             reflexivity.
      * intros m. cbn [s1 set_Buffet_Metric Buffet_Metric]. unfold vset.
        destruct (Nat.eqb_spec m n) as [->|Hne].
        -- replace (Nat.ltb n (S n)) with true
             by (symmetry; apply Nat.ltb_lt; lia).
           rewrite Hwall. reflexivity.
        -- rewrite Hmet.
           destruct (Nat.ltb_spec m n), (Nat.ltb_spec m (S n)); try lia;
             reflexivity.
      * cbn [s1 set_Buffet_Metric Total_Buffet_Metric accumulate].
        rewrite Htot, Hwall. cbn [andb]. lra.
      * intros i.
        cbn [s1 set_Buffet_Metric Surface_Buffet_Metric surface_metric].
           unfold monitored_wall.
        rewrite Hsurf, Hwall. reflexivity.
Qed.

End MarkerLoop.

Lemma zero_surface_loop s0 n :
  let s :=
    for_loop n
      (fun solver iMarker_Monitoring =>
         set_Surface_Buffet_Metric solver
           (vset (Surface_Buffet_Metric solver) iMarker_Monitoring 0))
      s0 in
  (nDim s = nDim s0 /\ nMarker s = nMarker s0
   /\ CSkinFriction s = CSkinFriction s0
   /\ Total_Buffet_Metric s = Total_Buffet_Metric s0
   /\ Total_ComboObj s = Total_ComboObj s0)
  /\ forall i,
       Surface_Buffet_Metric s i
       = if Nat.ltb i n then 0 else Surface_Buffet_Metric s0 i.
Proof.
  induction n as [|n IH]; cbn zeta.
  - split; [repeat split|]. intros i. reflexivity.
  - rewrite for_loop_S. cbn zeta in IH.
    set (s := for_loop n _ s0) in *.
    destruct IH as ((Hn & Hm & Hc & Ht & Ho) & Hsurf).
    split; [repeat split; assumption|].
    intros i. cbn [set_Surface_Buffet_Metric Surface_Buffet_Metric].
    unfold vset. rewrite Hsurf.
    destruct (Nat.eqb_spec i n), (Nat.ltb_spec i n), (Nat.ltb_spec i (S n));
      try lia; reflexivity.
Qed.

Lemma surface_metric_inputs geometry config s s' n i :
  nDim s' = nDim s -> CSkinFriction s' = CSkinFriction s ->
  surface_metric geometry config s' n i = surface_metric geometry config s n i.
Proof.
  intros Hn Hc. induction n as [|n IH]; cbn; [reflexivity|].
  rewrite IH, (marker_metric_inputs geometry config s s' n Hn Hc).
  reflexivity.
Qed.

(** What one rank computes before the reductions. *)
Lemma Buffet_Monitoring_local_metrics geometry config solver :
  let s := Buffet_Monitoring_local geometry config solver in
  (forall iMarker iVertex,
     (iMarker < nMarker solver)%nat ->
     buffet_wall (GetMarker_All_KindBC config iMarker) = true ->
     (iVertex < nVertex geometry iMarker)%nat ->
     Buffet_Sensor s iMarker iVertex
     = buffet_sensor config solver iMarker iVertex)
  /\ (forall iMarker,
        (iMarker < nMarker solver)%nat ->
        Buffet_Metric s iMarker
        = if monitored_wall config iMarker
          then marker_metric geometry config solver iMarker else 0)
  /\ Total_Buffet_Metric s = total_metric geometry config solver
  /\ (forall i, (i < GetnMarker_Monitoring config)%nat ->
        Surface_Buffet_Metric s i
        = surface_metric geometry config solver (nMarker solver) i)
  /\ Total_ComboObj s = Total_ComboObj solver.
Proof.
  unfold Buffet_Monitoring_local. cbv zeta.
  pose proof (zero_surface_loop (set_Total_Buffet_Metric solver 0)
                (GetnMarker_Monitoring config)) as Hz.
  cbn zeta in Hz. set (s0 := for_loop (GetnMarker_Monitoring config) _ _) in *.
  destruct Hz as ((Zn & Zm & Zc & Zt & Zo) & Zsurf).
  cbn [set_Total_Buffet_Metric nDim nMarker CSkinFriction Total_Buffet_Metric
       Total_ComboObj Surface_Buffet_Metric] in Zn, Zm, Zc, Zt, Zo, Zsurf.
  assert (Hspeed :
    sqrt (accumulate (nDim solver) (fun iDim =>
            GetVelocity_FreeStream config iDim
            * GetVelocity_FreeStream config iDim))
    = freestream_speed config s0).
  { unfold freestream_speed. rewrite Zn. reflexivity. }
  rewrite Hspeed.
  pose proof (Buffet_Monitoring_marker_loop geometry config s0 (nMarker s0))
    as Hl.
  cbn zeta in Hl.
  destruct Hl as ((Ln & Lm & Lc & Lo) & Lsens & Lmet & Ltot & Lsurf).
  { intros i Hi. rewrite Zsurf.
    replace (Nat.ltb i (GetnMarker_Monitoring config)) with true
      by (symmetry; apply Nat.ltb_lt; exact Hi).
    reflexivity. }
  split; [|split; [|split; [|split]]].
  - intros iMarker iVertex Hm Hw Hv. rewrite Lsens, Zm, Hw.
    replace (Nat.ltb iMarker (nMarker solver)) with true
      by (symmetry; apply Nat.ltb_lt; exact Hm).
    replace (Nat.ltb iVertex (nVertex geometry iMarker)) with true
      by (symmetry; apply Nat.ltb_lt; exact Hv).
    cbn [andb]. apply buffet_sensor_inputs; assumption.
  - intros iMarker Hm. rewrite Lmet, Zm.
    replace (Nat.ltb iMarker (nMarker solver)) with true
      by (symmetry; apply Nat.ltb_lt; exact Hm).
    rewrite (marker_metric_inputs geometry config solver s0 _ Zn Zc).
    reflexivity.
  - rewrite Ltot, Zt, Zm. unfold total_metric.
    rewrite (accumulate_ext (nMarker solver) _
               (fun iMarker =>
                  if monitored_wall config iMarker
                  then marker_metric geometry config solver iMarker else 0)).
    + lra.
    + intros m _.
      rewrite (marker_metric_inputs geometry config solver s0 _ Zn Zc).
      reflexivity.
  - intros i Hi. rewrite Lsurf, Zm.
    replace (Nat.ltb i (GetnMarker_Monitoring config)) with true
      by (symmetry; apply Nat.ltb_lt; exact Hi).
    apply surface_metric_inputs; assumption.
  - rewrite Lo, Zo. reflexivity.
Qed.

Lemma buffet_sensor_pointwise config s s' iMarker v v' :
  nDim s' = nDim s ->
  (forall iDim, CSkinFriction s' iMarker iDim v' = CSkinFriction s iMarker iDim v) ->
  buffet_sensor config s' iMarker v' = buffet_sensor config s iMarker v.
Proof.
  intros Hn Hc. unfold buffet_sensor, friction_alignment, freestream_speed.
  rewrite Hn.
  rewrite (accumulate_ext (nDim s)
             (fun iDim => CSkinFriction s' iMarker iDim v'
                          * GetVelocity_FreeStream config iDim)
             (fun iDim => CSkinFriction s iMarker iDim v
                          * GetVelocity_FreeStream config iDim))
    by (intros i _; rewrite Hc; reflexivity).
  rewrite (accumulate_ext (nDim s)
             (fun iDim => CSkinFriction s' iMarker iDim v'
                          * CSkinFriction s' iMarker iDim v')
             (fun iDim => CSkinFriction s iMarker iDim v
                          * CSkinFriction s iMarker iDim v))
    by (intros i _; rewrite Hc; reflexivity).
  reflexivity.
Qed.

Lemma face_area_pointwise g g' s s' iMarker v v' :
  nDim s' = nDim s ->
  (forall iDim, GetNormal (vertex g' iMarker v') iDim
                = GetNormal (vertex g iMarker v) iDim) ->
  face_area g' s' iMarker v' = face_area g s iMarker v.
Proof.
  intros Hn Hnormal.
  unfold face_area, GeometryToolbox.Norm, GeometryToolbox.SquaredNorm.
  rewrite Hn. f_equal. apply accumulate_ext. intros i _.
  rewrite Hnormal. reflexivity.
Qed.

Section Partition.

Variable config : CConfig.
Variable whole first second : CGeometry * CNSSolver.
Hypothesis split : split_in_two whole first second.

Lemma split_marker_metric iMarker :
  marker_metric (fst whole) config (snd whole) iMarker
  = marker_metric (fst first) config (snd first) iMarker
    + marker_metric (fst second) config (snd second) iMarker.
Proof.
  destruct whole as [g s], first as [g1 s1], second as [g2 s2].
  cbn [fst snd]. cbn in split.
  destruct split as (Hn1 & Hn2 & _ & _ & Hmk).
  destruct (Hmk iMarker) as (Hnv & H1 & H2).
  unfold marker_metric. rewrite Hnv, accumulate_split. f_equal.
  - apply accumulate_ext. intros v Hv.
    rewrite (buffet_sensor_pointwise config s s1 iMarker v v Hn1)
      by (intros iDim; apply H1; exact Hv).
    rewrite (face_area_pointwise g g1 s s1 iMarker v v Hn1)
      by (intros iDim; apply H1; exact Hv).
    reflexivity.
  - apply accumulate_ext. intros v Hv.
    rewrite (buffet_sensor_pointwise config s s2 iMarker
               (nVertex g1 iMarker + v) v Hn2)
      by (intros iDim; apply H2; exact Hv).
    rewrite (face_area_pointwise g g2 s s2 iMarker
               (nVertex g1 iMarker + v) v Hn2)
      by (intros iDim; apply H2; exact Hv).
    reflexivity.
Qed.

Lemma split_nMarker :
  nMarker (snd first) = nMarker (snd whole)
  /\ nMarker (snd second) = nMarker (snd whole).
Proof.
  destruct whole as [g s], first as [g1 s1], second as [g2 s2].
  cbn in split. destruct split as (_ & _ & Hm1 & Hm2 & _).
  split; assumption.
Qed.

Lemma split_total_metric :
  total_metric (fst whole) config (snd whole)
  = total_metric (fst first) config (snd first)
    + total_metric (fst second) config (snd second).
Proof.
  unfold total_metric. destruct split_nMarker as [-> ->].
  rewrite <- accumulate_plus. apply accumulate_ext. intros m _.
  rewrite split_marker_metric. destruct (monitored_wall config m); lra.
Qed.

Lemma split_surface_metric n i :
  surface_metric (fst whole) config (snd whole) n i
  = surface_metric (fst first) config (snd first) n i
    + surface_metric (fst second) config (snd second) n i.
Proof.
  induction n as [|n IH]; cbn [surface_metric]; [lra|].
  destruct (monitored_wall config n && _); [apply split_marker_metric|].
  exact IH.
Qed.

End Partition.

Section Objective.

Variable CEulerSolver_Evaluate_ObjFunc : CConfig -> CNSSolver -> CNSSolver.
Variable config : CConfig.

Lemma Evaluate_ObjFunc_loop s0 n :
  let s := for_loop n (Evaluate_ObjFunc_marker config) s0 in
  Surface_Buffet_Metric s = Surface_Buffet_Metric s0
  /\ Total_ComboObj s
     = Total_ComboObj s0
       + accumulate n (fun iMarker_Monitoring =>
           match GetKind_ObjFunc config iMarker_Monitoring with
           | BUFFET_SENSOR =>
               GetWeight_ObjFunc config iMarker_Monitoring
               * Surface_Buffet_Metric s0 iMarker_Monitoring
           | _ => 0
           end).
Proof.
  induction n as [|n IH]; cbn zeta.
  - split; [reflexivity | cbn; lra].
  - rewrite for_loop_S. cbn zeta in IH.
    set (s := for_loop n _ s0) in *. destruct IH as [Hs Hc].
    unfold Evaluate_ObjFunc_marker. cbn [accumulate].
    destruct (GetKind_ObjFunc config n).
    + cbn [set_Total_ComboObj Surface_Buffet_Metric Total_ComboObj].
      split; [exact Hs|]. rewrite Hc, Hs. lra.
    + split; [exact Hs|]. rewrite Hc. lra.
Qed.

Lemma Evaluate_ObjFunc_adds_buffet solver :
  let common := CEulerSolver_Evaluate_ObjFunc config solver in
  Total_ComboObj (Evaluate_ObjFunc CEulerSolver_Evaluate_ObjFunc config solver)
  = Total_ComboObj common + buffet_objective config common.
Proof.
  cbv zeta. unfold Evaluate_ObjFunc, buffet_objective.
  apply Evaluate_ObjFunc_loop.
Qed.

End Objective.

(** What the reductions leave, rank by rank: every rank of the partition
    ends with the sum of the ranks' totals and surface metrics. *)
Lemma Buffet_Monitoring_all_ranks config ranks :
  map Total_Buffet_Metric (Buffet_Monitoring true config ranks)
  = map (fun _ =>
           Allreduce_SUM
             (map (fun r => total_metric (fst r) config (snd r)) ranks))
        ranks
  /\ forall i, (i < GetnMarker_Monitoring config)%nat ->
       map (fun out => Surface_Buffet_Metric out i)
         (Buffet_Monitoring true config ranks)
       = map (fun _ =>
                Allreduce_SUM
                  (map (fun r =>
                          surface_metric (fst r) config (snd r)
                            (nMarker (snd r)) i)
                       ranks))
             ranks.
Proof.
  unfold Buffet_Monitoring. split; [|intros i Hi]; rewrite !map_map;
    apply map_ext; intros r;
    cbn [set_Surface_Buffet_Metric set_Total_Buffet_Metric
         Total_Buffet_Metric Surface_Buffet_Metric].
  - f_equal. apply map_ext. intros [g s].
    apply (Buffet_Monitoring_local_metrics g config s).
  - replace (Nat.ltb i (GetnMarker_Monitoring config)) with true
      by (symmetry; apply Nat.ltb_lt; exact Hi).
    rewrite map_map. f_equal. apply map_ext. intros [g s].
    apply (Buffet_Monitoring_local_metrics g config s). exact Hi.
Qed.

(** X24.  After [Buffet_Monitoring] on a rank: every vertex of a viscous
    wall marker holds the smooth Heaviside value [buffet_sensor]; every
    monitored wall marker holds the sum over the vertices of its list of
    sensor times face area over the reference area; the rank's total is
    the sum of the monitored wall markers' metrics, and each monitored
    surface holds the metric of the marker that carries its tag.  The
    reductions leave every rank with the sum of the ranks' totals and
    surface metrics.  When every vertex of the undivided mesh sits in the
    list of exactly one of two ranks, both ranks end with the totals of
    the undivided mesh.  [Evaluate_ObjFunc] then adds to the composite
    objective, for every monitored surface whose objective is the buffet
    sensor, its weight times its metric. *)
Theorem Buffet_Monitoring_metrics
    (CEulerSolver_Evaluate_ObjFunc : CConfig -> CNSSolver -> CNSSolver)
    (geometry : CGeometry) (config : CConfig) (solver : CNSSolver) :
  let s := Buffet_Monitoring_local geometry config solver in
  (forall iMarker iVertex,
     (iMarker < nMarker solver)%nat ->
     buffet_wall (GetMarker_All_KindBC config iMarker) = true ->
     (iVertex < nVertex geometry iMarker)%nat ->
     Buffet_Sensor s iMarker iVertex
     = buffet_sensor config solver iMarker iVertex)
  /\ (forall iMarker,
        (iMarker < nMarker solver)%nat ->
        monitored_wall config iMarker = true ->
        Buffet_Metric s iMarker
        = marker_metric geometry config solver iMarker)
  /\ Total_Buffet_Metric s = total_metric geometry config solver
  /\ (forall i, (i < GetnMarker_Monitoring config)%nat ->
        Surface_Buffet_Metric s i
        = surface_metric geometry config solver (nMarker solver) i)
  /\ (forall ranks,
        map Total_Buffet_Metric (Buffet_Monitoring true config ranks)
        = map (fun _ =>
                 Allreduce_SUM
                   (map (fun r =>
                           Total_Buffet_Metric
                             (Buffet_Monitoring_local (fst r) config (snd r)))
                        ranks))
              ranks
        /\ forall i, (i < GetnMarker_Monitoring config)%nat ->
             map (fun out => Surface_Buffet_Metric out i)
               (Buffet_Monitoring true config ranks)
             = map (fun _ =>
                      Allreduce_SUM
                        (map (fun r =>
                                Surface_Buffet_Metric
                                  (Buffet_Monitoring_local (fst r) config
                                     (snd r)) i)
                             ranks))
                   ranks)
  /\ (forall HAVE_MPI first second,
        split_in_two (geometry, solver) first second ->
        map Total_Buffet_Metric
          (Buffet_Monitoring HAVE_MPI config [(geometry, solver)])
        = [Total_Buffet_Metric s]
        /\ map Total_Buffet_Metric
             (Buffet_Monitoring true config [first; second])
           = [Total_Buffet_Metric s; Total_Buffet_Metric s]
        /\ forall i, (i < GetnMarker_Monitoring config)%nat ->
             map (fun out => Surface_Buffet_Metric out i)
               (Buffet_Monitoring HAVE_MPI config [(geometry, solver)])
             = [Surface_Buffet_Metric s i]
             /\ map (fun out => Surface_Buffet_Metric out i)
                  (Buffet_Monitoring true config [first; second])
                = [Surface_Buffet_Metric s i; Surface_Buffet_Metric s i])
  /\ Total_ComboObj
       (Evaluate_ObjFunc CEulerSolver_Evaluate_ObjFunc config solver)
     = Total_ComboObj (CEulerSolver_Evaluate_ObjFunc config solver)
       + buffet_objective config (CEulerSolver_Evaluate_ObjFunc config solver).
Proof.
  intros s.
  destruct (Buffet_Monitoring_local_metrics geometry config solver)
    as (Hsens & Hmet & Htot & Hsurf & _).
  fold s in Hsens, Hmet, Htot, Hsurf.
  split; [exact Hsens|]. split.
  { intros iMarker Hm Hmon. rewrite (Hmet iMarker Hm), Hmon. reflexivity. }
  split; [exact Htot|]. split; [exact Hsurf|]. split.
  { intros ranks.
    destruct (Buffet_Monitoring_all_ranks config ranks) as [Ht Hs].
    split.
    - rewrite Ht. apply map_ext. intros _. f_equal. apply map_ext.
      intros [g r]. symmetry.
      apply (Buffet_Monitoring_local_metrics g config r).
    - intros i Hi. rewrite (Hs i Hi). apply map_ext. intros _. f_equal.
      apply map_ext. intros [g r]. symmetry.
      apply (Buffet_Monitoring_local_metrics g config r). exact Hi. }
  split.
  { intros HAVE_MPI first second Hsplit.
    destruct (Buffet_Monitoring_all_ranks config [(geometry, solver)])
      as [Ut Us].
    destruct (Buffet_Monitoring_all_ranks config [first; second])
      as [Dt Ds].
    destruct (split_nMarker _ _ _ Hsplit) as [Hm1 Hm2]. cbn [snd] in Hm1, Hm2.
    pose proof (split_total_metric config _ _ _ Hsplit) as Hsum.
    cbn [fst snd] in Hsum.
    assert (Hone : map Total_Buffet_Metric
                     (Buffet_Monitoring HAVE_MPI config [(geometry, solver)])
                   = [Total_Buffet_Metric s]).
    { destruct HAVE_MPI; [|reflexivity].
      rewrite Ut, Htot. cbn [map fst snd Allreduce_SUM fold_right].
      f_equal. lra. }
    split; [exact Hone|]. split.
    - rewrite Dt, Htot, Hsum. cbn [map fst snd Allreduce_SUM fold_right].
      repeat (f_equal; try lra).
    - intros i Hi.
      pose proof (split_surface_metric config _ _ _ Hsplit (nMarker solver) i)
        as Hsurf2.
      cbn [fst snd] in Hsurf2. split.
      + destruct HAVE_MPI; [|reflexivity].
        rewrite (Us i Hi), (Hsurf i Hi).
        cbn [map fst snd Allreduce_SUM fold_right]. f_equal. lra.
      + rewrite (Ds i Hi), (Hsurf i Hi), Hsurf2.
        cbn [map fst snd Allreduce_SUM fold_right]. rewrite Hm1, Hm2.
        repeat (f_equal; try lra). }
  apply Evaluate_ObjFunc_adds_buffet.
Qed.

Lemma halves_split_the_wall : split_in_two undivided_wall first_half second_half.
Proof.
  cbn. repeat split; try reflexivity.
Qed.

(** The four-vertex wall dealt to two ranks, two vertices each: both
    ranks end with the total and the surface metric of the undivided
    wall. *)
Lemma Buffet_Monitoring_metrics_on_two_ranks :
  let config :=
    wall_config EULER_IMPLICIT HEAT_FLUX DIRECT_TEMPERATURE_NEUMANN_HEATFLUX in
  let undivided :=
    Buffet_Monitoring_local (fst undivided_wall) config (snd undivided_wall) in
  let divided := Buffet_Monitoring true config [first_half; second_half] in
  split_in_two undivided_wall first_half second_half
  /\ map Total_Buffet_Metric divided
     = [Total_Buffet_Metric undivided; Total_Buffet_Metric undivided]
  /\ map (fun out => Surface_Buffet_Metric out 0%nat) divided
     = [Surface_Buffet_Metric undivided 0%nat;
        Surface_Buffet_Metric undivided 0%nat].
Proof.
  intros config undivided divided. split; [exact halves_split_the_wall|].
  destruct (Buffet_Monitoring_metrics no_common_objective
              (fst undivided_wall) config (snd undivided_wall))
    as (_ & _ & _ & _ & _ & Hsplit & _).
  destruct (Hsplit false first_half second_half halves_split_the_wall)
    as (_ & Ht & Hs).
  split; [exact Ht | apply Hs; cbn; lia].
Defined.

(** The sensor where the skin friction is along the freestream and
    where it is against it; the two add up to 1. *)
Lemma sensors_add_up : 1 / (1 + exp 2) + 1 / (1 + exp (- 2)) = 1.
Proof.
  replace (exp (- 2)) with (/ exp 2)
    by (rewrite <- exp_Ropp; f_equal; lra).
  pose proof (exp_pos 2). field. split; lra.
Qed.

(** The metric of a strip of the undivided wall: every vertex has unit
    face area, and the sensor is 1/(1 + exp 2) at the even vertices of
    the wall and 1/(1 + exp (-2)) at the odd ones. *)
Lemma strip_marker_metric geometry first n :
  nVertex geometry = nVertex (wall_strip first n) ->
  vertex geometry = vertex (wall_strip first n) ->
  let config :=
    wall_config EULER_IMPLICIT HEAT_FLUX DIRECT_TEMPERATURE_NEUMANN_HEATFLUX in
  let solver := friction_solver (strip_friction first) in
  let metric :=
    accumulate n (fun iVertex =>
      if Nat.even (first + iVertex) then 1 / (1 + exp 2)
      else 1 / (1 + exp (- 2))) in
  total_metric geometry config solver = metric
  /\ surface_metric geometry config solver (nMarker solver) 0 = metric.
Proof.
  intros Hn Hv config solver metric.
  assert (Hm : marker_metric geometry config solver 0 = metric).
  { unfold marker_metric, metric. rewrite Hn. cbn [nVertex wall_strip].
    apply accumulate_ext. intros v _.
    unfold buffet_sensor, friction_alignment, freestream_speed, face_area,
      GeometryToolbox.Norm, GeometryToolbox.SquaredNorm.
    rewrite Hv.
    cbn. unfold strip_friction, vset, zeros. cbn.
    rewrite wall_area_is_one.
    unfold su2double in *.
    destruct (Nat.even (first + v)).
    - replace (0 + 1 * 1 + 0 * 0) with 1 by lra. rewrite sqrt_1.
      replace (2 * 1 * (1 / (1 * 1) + 0)) with 2 by field.
      unfold Rdiv. rewrite Rinv_1. ring.
    - replace (0 + -1 * -1 + 0 * 0) with 1 by lra.
      replace (0 + 1 * 1 + 0 * 0) with 1 by lra. rewrite sqrt_1.
      replace (2 * 1 * ((0 + -1 * 1 + 0 * 0) / (1 * 1) + 0)) with (-2)
        by field.
      unfold Rdiv. rewrite Rinv_1. ring. }
  split.
  - unfold total_metric. cbn [nMarker solver friction_solver accumulate].
    replace (monitored_wall config 0) with true by reflexivity.
    rewrite Hm. lra.
  - cbn [nMarker solver friction_solver surface_metric].
    replace (monitored_wall config 0) with true by reflexivity.
    cbn [andb]. 
    replace (String.eqb (GetMarker_All_TagBound config 0)
               (GetMarker_Monitoring_TagBound config 0)) with true
      by reflexivity.
    exact Hm.
Qed.

(** C9.  The loop over the vertices of a marker does not look at the
    ownership of a vertex, which the loops of the wall boundary
    conditions do, so a halo copy enters the sum of every rank that holds
    one.  The undivided four-vertex wall has the total and the surface
    metric 2.  Dealt to two ranks that own two vertices each, the first
    holding a halo copy of vertex 2 besides, the reductions leave both
    ranks with 2 + 1/(1 + exp 2): the vertex is summed twice. *)
Theorem Buffet_Monitoring_sums_halo_copies :
  let config :=
    wall_config EULER_IMPLICIT HEAT_FLUX DIRECT_TEMPERATURE_NEUMANN_HEATFLUX in
  let undivided := Buffet_Monitoring true config [undivided_wall] in
  let divided :=
    Buffet_Monitoring true config [first_half_with_halo; second_half] in
  split_in_two undivided_wall first_half second_half
  /\ nVertex (fst first_half_with_halo) 0 = 3%nat
  /\ (forall iVertex,
        GetDomain (fst first_half_with_halo)
          (GetNode (vertex (fst first_half_with_halo) 0 iVertex))
        = Nat.ltb iVertex 2)
  /\ (forall iVertex iDim,
        (iVertex < 3)%nat ->
        vertex (fst first_half_with_halo) 0 iVertex
        = vertex (fst undivided_wall) 0 iVertex
        /\ CSkinFriction (snd first_half_with_halo) 0 iDim iVertex
           = CSkinFriction (snd undivided_wall) 0 iDim iVertex)
  /\ map Total_Buffet_Metric undivided = [2]
  /\ map (fun out => Surface_Buffet_Metric out 0%nat) undivided = [2]
  /\ map Total_Buffet_Metric divided
     = [2 + 1 / (1 + exp 2); 2 + 1 / (1 + exp 2)]
  /\ map (fun out => Surface_Buffet_Metric out 0%nat) divided
     = [2 + 1 / (1 + exp 2); 2 + 1 / (1 + exp 2)].
Proof.
  intros config undivided divided.
  split; [cbn; repeat split; reflexivity|].
  split; [reflexivity|]. split; [reflexivity|].
  split; [intros iVertex iDim _; split; reflexivity|].
  destruct (Buffet_Monitoring_all_ranks config [undivided_wall]) as [Ut Us].
  destruct (Buffet_Monitoring_all_ranks config
              [first_half_with_halo; second_half]) as [Dt Ds].
  specialize (Us 0%nat ltac:(cbn; lia)).
  specialize (Ds 0%nat ltac:(cbn; lia)).
  fold undivided in Ut, Us. fold divided in Dt, Ds.
  destruct (strip_marker_metric (wall_strip 0 4) 0 4 eq_refl eq_refl)
    as [Wt Ws].
  destruct (strip_marker_metric (halo_strip 0 2 1) 0 3 eq_refl eq_refl)
    as [Ht Hs].
  destruct (strip_marker_metric (wall_strip 2 2) 2 2 eq_refl eq_refl)
    as [St Ss].
  cbn zeta in Wt, Ws, Ht, Hs, St, Ss. fold config in Wt, Ws, Ht, Hs, St, Ss.
  pose proof sensors_add_up as Hsum.
  rewrite Ut, Us, Dt, Ds.
  unfold undivided_wall, first_half_with_halo, second_half.
  cbn [map fst snd Allreduce_SUM fold_right].
  rewrite Wt, Ws, Ht, Hs, St, Ss.
  cbn [accumulate Nat.even Nat.add].
  unfold su2double in *.
  repeat split; repeat (f_equal; try lra).
Qed.

(** * Further properties of the routines *)

(** X1.  The wall-function loop always stops: from any starting guess and for
    any boundary layer, [max_iter + 1] units of fuel give an iterate,
    which is the one [solve] returns, reached after at most
    [max_iter + 1] executions of the loop body. *)
Theorem wall_function_loop_stops bl guess :
  exists it,
    WallFunction.while (S WallFunction.max_iter) bl (WallFunction.start guess)
    = Some it
    /\ WallFunction.solve bl guess = it
    /\ (WallFunction.it_counter it <= S WallFunction.max_iter)%nat.
Proof.
  destruct (while_terminates (S WallFunction.max_iter) bl
              (WallFunction.start guess)) as [it Hit].
  - lia.
  - cbn [WallFunction.start WallFunction.it_counter]. lia.
  - exists it. split; [exact Hit|]. split.
    + unfold WallFunction.solve. rewrite Hit. reflexivity.
    + apply (while_counter_bound (S WallFunction.max_iter) bl
               (WallFunction.start guess) it);
      [apply Nat.le_0_l | exact Hit].
Qed.

(** X3.  In the reducer mode the flux of an edge is subtracted from the edge's
    own buffer and the global residual is left untouched. *)
Theorem Viscous_Residual_edge_buffer ComputeResidual iEdge geometry TURB_SOL
    numerics config solver :
  ReducerStrategy solver = true ->
  let flux :=
    Viscous_Residual_flux ComputeResidual iEdge geometry TURB_SOL numerics
      config solver in
  let after :=
    snd (Viscous_Residual ComputeResidual iEdge geometry TURB_SOL numerics
           config solver) in
  LinSysRes after = LinSysRes solver
  /\ (forall iVar, (iVar < nVar solver)%nat ->
        EdgeFluxes after iEdge iVar
        = EdgeFluxes solver iEdge iVar - residual flux iVar)
  /\ (forall kEdge iVar, kEdge <> iEdge ->
        EdgeFluxes after kEdge iVar = EdgeFluxes solver kEdge iVar).
Proof.
  intros Hreducer flux after. unfold after, Viscous_Residual.
  rewrite Hreducer.
  fold (Viscous_Residual_flux ComputeResidual iEdge geometry TURB_SOL
          numerics config solver). fold flux. cbn [snd].
  split; [destruct (time_int_eqb _ _); reflexivity|]. split.
  - intros iVar HiVar. apply Nat.ltb_lt in HiVar.
    destruct (time_int_eqb _ _); cbn; unfold SysVector.SubtractBlock;
      rewrite Nat.eqb_refl; unfold nVar in *; cbn [nDim]; rewrite HiVar;
      reflexivity.
  - intros kEdge iVar Hne.
    destruct (time_int_eqb _ _); cbn; unfold SysVector.SubtractBlock;
      destruct (Nat.eqb_spec kEdge iEdge); try contradiction; reflexivity.
Qed.

Lemma Viscous_Residual_edge_buffer_on_shear :
  let solver :=
    set_EdgeFluxes
      {| nDim := 2; nMarker := 1; Gamma := 2; Gamma_Minus_One := 1;
         dynamic_grid := false; ReducerStrategy := true;
         nodes := shear_nodes 5; LinSysRes := fun _ _ => 7;
         EdgeFluxes := fun _ _ => 0; Jacobian := fun _ _ _ _ => 9;
         ConjugateVar := fun _ _ _ => 0; CSkinFriction := fun _ _ _ => 0;
         Buffet_Sensor := fun _ _ => 0; Buffet_Metric := fun _ => 0;
         Surface_Buffet_Metric := fun _ => 0; Total_Buffet_Metric := 0;
         Total_ComboObj := 0 |}
      (fun _ _ => 4) in
  ReducerStrategy solver = true
  /\ EdgeFluxes
       (snd (Viscous_Residual shear_flux_kernel 0 wall_geometry no_turbulence
               blank_numerics
               (wall_config EULER_IMPLICIT HEAT_FLUX
                  DIRECT_TEMPERATURE_NEUMANN_HEATFLUX) solver)) 0%nat 0%nat
     = 4 - 15.
Proof.
  intros solver. split; [reflexivity|].
  destruct (Viscous_Residual_edge_buffer shear_flux_kernel 0 wall_geometry
              no_turbulence blank_numerics
              (wall_config EULER_IMPLICIT HEAT_FLUX
                 DIRECT_TEMPERATURE_NEUMANN_HEATFLUX) solver eq_refl)
    as (_ & H & _).
  etransitivity; [apply (H 0%nat); cbn; lia|]. cbn. lra.
Defined.

(** * The moving-wall contribution *)

Lemma accumulate_zero n f :
  (forall i, (i < n)%nat -> f i = 0) -> accumulate n f = 0.
Proof.
  induction n as [|n IH]; intros H; cbn; [reflexivity|].
  rewrite IH by (intros i Hi; apply H; lia).
  rewrite (H n) by lia. lra.
Qed.

Lemma madd_other_row X r c x i j :
  i <> r -> madd X r c x i j = X i j.
Proof.
  intros H. unfold madd, mset.
  destruct (Nat.eqb_spec i r); [contradiction | reflexivity].
Qed.

Lemma madd_zero X r c x i j : x = 0 -> madd X r c x i j = X i j.
Proof.
  intros ->. unfold madd, mset.
  destruct (Nat.eqb_spec i r), (Nat.eqb_spec j c); subst; cbn; lra.
Qed.

Lemma madd_loop_other_row n X r (col : nat -> nat) (f : nat -> su2double) i j :
  i <> r ->
  for_loop n (fun X k => madd X r (col k) (f k)) X i j = X i j.
Proof.
  intros H. induction n as [|n IH]; [reflexivity|].
  rewrite for_loop_S, madd_other_row by exact H. exact IH.
Qed.

Lemma madd_loop_zero n X r (col : nat -> nat) (f : nat -> su2double) i j :
  (forall k, f k = 0) ->
  for_loop n (fun X k => madd X r (col k) (f k)) X i j = X i j.
Proof.
  intros H. induction n as [|n IH]; [reflexivity|].
  rewrite for_loop_S, madd_zero by apply H. exact IH.
Qed.

Section MovingWall.

Variable ComputeStressTensor : nat -> su2matrix -> su2double -> su2matrix.
Variable solver : CNSSolver.
Variable iPoint Point_Normal : nat.
Variable geometry : CGeometry.
Variable UnitNormal : su2vector.
Variable Area : su2double.
Variable GridVel : su2vector.
Variable Res_Conv Res_Visc : su2double.

Local Abbreviation run Jacobian_i :=
  (AddDynamicGridResidualContribution ComputeStressTensor solver iPoint
     Point_Normal geometry UnitNormal Area GridVel Jacobian_i Res_Conv
     Res_Visc).

(** The rows of the scratch block other than the energy row. *)
Lemma AddDynamicGridResidualContribution_other_rows Jacobian_i :
  exists Jacobian_i',
    fst (fst (run (Some Jacobian_i))) = Some Jacobian_i'
    /\ forall iVar jVar, iVar <> (nDim solver + 1)%nat ->
         Jacobian_i' iVar jVar = Jacobian_i iVar jVar.
Proof.
  unfold AddDynamicGridResidualContribution. cbv zeta. cbn [fst].
  destruct (Nat.eqb (nDim solver) 2); eexists; (split; [reflexivity|]);
    intros iVar jVar H;
    rewrite !madd_other_row by exact H;
    rewrite (madd_loop_other_row _ _ _ (fun jDim => (jDim + 1)%nat)) by exact H;
    rewrite madd_other_row by exact H; reflexivity.
Qed.

(** X10.  The moving-wall contribution writes the scratch Jacobian block
    only in its energy row, row nDim+1, and only when a block is passed;
    the two residual terms it returns are the same with and without a
    block, that is for implicit and for explicit time integration. *)
Theorem AddDynamicGridResidualContribution_energy_row_only :
  let run Jacobian_i :=
    AddDynamicGridResidualContribution ComputeStressTensor solver iPoint
      Point_Normal geometry UnitNormal Area GridVel Jacobian_i Res_Conv
      Res_Visc in
  fst (fst (run None)) = None
  /\ forall Jacobian_i,
       (exists Jacobian_i',
          fst (fst (run (Some Jacobian_i))) = Some Jacobian_i'
          /\ forall iVar jVar, iVar <> (nDim solver + 1)%nat ->
               Jacobian_i' iVar jVar = Jacobian_i iVar jVar)
       /\ snd (fst (run (Some Jacobian_i))) = snd (fst (run None))
       /\ snd (run (Some Jacobian_i)) = snd (run None).
Proof.
  intros run. split; [reflexivity|]. intros Jacobian_i.
  split; [apply AddDynamicGridResidualContribution_other_rows|].
  split; reflexivity.
Qed.

(** X11.  A wall whose grid velocity is zero contributes nothing: the
    convective and viscous residual terms come back as they were passed,
    and so does every entry of the scratch Jacobian block. *)
Theorem AddDynamicGridResidualContribution_wall_at_rest Jacobian_i :
  (forall iDim, GridVel iDim = 0) ->
  let '(Jacobian_i', Res_Conv', Res_Visc') :=
    AddDynamicGridResidualContribution ComputeStressTensor solver iPoint
      Point_Normal geometry UnitNormal Area GridVel Jacobian_i Res_Conv
      Res_Visc in
  Res_Conv' = Res_Conv /\ Res_Visc' = Res_Visc
  /\ match Jacobian_i, Jacobian_i' with
     | Some before, Some after =>
         forall iVar jVar, after iVar jVar = before iVar jVar
     | None, None => True
     | _, _ => False
     end.
Proof.
  intros Hz.
  assert (HD : forall v,
            GeometryToolbox.DotProduct (nDim solver) GridVel v = 0).
  { intros v. apply accumulate_zero. intros i _. rewrite Hz. lra. }
  assert (HD' : forall v,
            GeometryToolbox.DotProduct (nDim solver) v GridVel = 0).
  { intros v. apply accumulate_zero. intros i _. rewrite Hz. lra. }
  assert (HS : GeometryToolbox.SquaredNorm (nDim solver) GridVel = 0).
  { apply accumulate_zero. intros i _. rewrite Hz. lra. }
  unfold AddDynamicGridResidualContribution. cbv zeta.
  rewrite HD, HS.
  split; [lra|]. split.
  - match goal with
    | |- _ + ?d * _ = _ => assert (E : d = 0)
    end.
    { apply accumulate_zero. intros i _. unfold vfill.
      destruct (Nat.ltb i (nDim solver)); [rewrite HD'|]; lra. }
    rewrite E. lra.
  - destruct Jacobian_i as [before|]; [|exact I].
    destruct (Nat.eqb (nDim solver) 2); intros iVar jVar;
      rewrite !madd_zero by (rewrite ?Hz; lra);
      rewrite (madd_loop_zero _ _ _ (fun jDim => (jDim + 1)%nat))
        by (intros k; rewrite Hz; lra);
      rewrite madd_zero by lra; reflexivity.
Qed.

End MovingWall.

(** On [wall_geometry], whose grid velocity is zero, the residual terms
    3 and 4 and the zero block come back unchanged. *)
Lemma AddDynamicGridResidualContribution_wall_at_rest_on_shear :
  (forall iDim, GetGridVel wall_geometry 0 iDim = 0)
  /\ let '(Jacobian_i', Res_Conv', Res_Visc') :=
       AddDynamicGridResidualContribution Newtonian_stress (shear_solver 5)
         0 1 wall_geometry (vset zeros 1 1) 1 (GetGridVel wall_geometry 0)
         (Some zeros2) 3 4 in
     Res_Conv' = 3 /\ Res_Visc' = 4
     /\ match Some zeros2, Jacobian_i' with
        | Some before, Some after =>
            forall iVar jVar, after iVar jVar = before iVar jVar
        | None, None => True
        | _, _ => False
        end.
Proof.
  split; [reflexivity|].
  apply (AddDynamicGridResidualContribution_wall_at_rest Newtonian_stress
           (shear_solver 5) 0 1 wall_geometry (vset zeros 1 1) 1
           (GetGridVel wall_geometry 0) 3 4 (Some zeros2)).
  reflexivity.
Defined.

(** * The wall boundary pass on any mesh, moving or not *)

Lemma wall_pass_keeps_refl solver : wall_pass_keeps solver solver.
Proof. unfold wall_pass_keeps. repeat split. Qed.

Lemma wall_pass_keeps_trans s1 s2 s3 :
  wall_pass_keeps s1 s2 -> wall_pass_keeps s2 s3 -> wall_pass_keeps s1 s3.
Proof.
  unfold wall_pass_keeps.
  intros (A1 & A2 & A3 & A4 & A5 & A6 & A7 & A8 & A9 & A10)
         (B1 & B2 & B3 & B4 & B5 & B6 & B7 & B8 & B9 & B10).
  rewrite B1, B2, B3, B4, B5, B6, B7, B8, B9, B10.
  repeat split; assumption.
Qed.

Lemma impose_wall_velocity_keeps geometry solver iPoint :
  wall_pass_keeps solver (impose_wall_velocity geometry solver iPoint).
Proof.
  unfold wall_pass_keeps, impose_wall_velocity.
  destruct (dynamic_grid solver) eqn:E; cbn; rewrite ?E; repeat split.
Qed.

Lemma impose_wall_velocity_sets geometry solver iPoint q iDim :
  Velocity_Old (nodes (impose_wall_velocity geometry solver iPoint)) q iDim
  = if Nat.eqb q iPoint && Nat.ltb iDim (nDim solver)
    then (if dynamic_grid solver then GetGridVel geometry iPoint iDim else 0)
    else Velocity_Old (nodes solver) q iDim.
Proof.
  unfold impose_wall_velocity.
  destruct (dynamic_grid solver); cbn;
    destruct (Nat.eqb q iPoint && Nat.ltb iDim (nDim solver)); reflexivity.
Qed.

Lemma impose_wall_velocity_zeroes geometry solver iPoint q iVar :
  LinSysRes (impose_wall_velocity geometry solver iPoint) q iVar
  = if Nat.eqb q iPoint && Nat.leb 1 iVar && Nat.leb iVar (nDim solver) then 0
    else LinSysRes solver q iVar.
Proof.
  unfold impose_wall_velocity.
  destruct (dynamic_grid solver); cbn; apply zero_momentum_rows.
Qed.

Lemma impose_wall_velocity_Jacobian geometry solver iPoint :
  Jacobian (impose_wall_velocity geometry solver iPoint) = Jacobian solver.
Proof.
  unfold impose_wall_velocity. destruct (dynamic_grid solver); reflexivity.
Qed.

Lemma delete_rows_keeps l solver iPoint :
  let step := fun solver iVar =>
    set_Jacobian solver
      (SysMatrix.DeleteValsRowi (nVar solver) (Jacobian solver)
         (iPoint * nVar solver + iVar)) in
  wall_pass_keeps solver (fold_left step l solver)
  /\ Velocity_Old (nodes (fold_left step l solver)) = Velocity_Old (nodes solver)
  /\ LinSysRes (fold_left step l solver) = LinSysRes solver.
Proof.
  intros step. revert solver.
  induction l as [|iVar l IH]; intros solver; cbn [fold_left].
  - split; [apply wall_pass_keeps_refl | split; reflexivity].
  - destruct (IH (step solver iVar)) as (H1 & H2 & H3).
    split; [|split; [rewrite H2 | rewrite H3]; reflexivity].
    apply (wall_pass_keeps_trans _ (step solver iVar)); [|exact H1].
    unfold wall_pass_keeps, step. cbn. repeat split.
Qed.

(** The solver a wall vertex is left with, whatever the mesh motion. *)
Section WallVertexOutcome.

Variable geometry : CGeometry.
Variable solver : CNSSolver.
Variable iPoint : nat.
Variable implicit : bool.
Variable Res_Conv Res_Visc : su2double.
Variable block : option su2matrix.

Local Abbreviation s2 :=
  (add_energy_residual (impose_wall_velocity geometry solver iPoint) iPoint
     Res_Conv Res_Visc).

Local Abbreviation s2b :=
  match block with
  | Some b =>
      set_Jacobian s2 (SysMatrix.AddBlock2Diag (nVar s2) (Jacobian s2) iPoint b)
  | None => s2
  end.

Local Abbreviation s3 :=
  (wall_vertex_outcome geometry solver iPoint implicit Res_Conv Res_Visc block).

Lemma wall_vertex_outcome_s2b :
  wall_pass_keeps solver s2b
  /\ Velocity_Old (nodes s2b)
     = Velocity_Old (nodes (impose_wall_velocity geometry solver iPoint))
  /\ LinSysRes s2b = LinSysRes s2.
Proof.
  pose proof (impose_wall_velocity_keeps geometry solver iPoint) as K.
  destruct block; (split; [|split; reflexivity]);
    (eapply wall_pass_keeps_trans; [exact K|]);
    unfold wall_pass_keeps; cbn; repeat split.
Qed.

Lemma wall_vertex_outcome_keeps : wall_pass_keeps solver s3.
Proof.
  destruct wall_vertex_outcome_s2b as (K & _ & _).
  unfold wall_vertex_outcome. destruct implicit.
  - eapply wall_pass_keeps_trans; [exact K|].
    apply (delete_rows_keeps (seq 1 (nDim s2b)) s2b iPoint).
  - eapply wall_pass_keeps_trans;
      [apply impose_wall_velocity_keeps|].
    unfold wall_pass_keeps; cbn; repeat split.
Qed.

Lemma wall_vertex_outcome_Velocity_Old q iDim :
  Velocity_Old (nodes s3) q iDim
  = if Nat.eqb q iPoint && Nat.ltb iDim (nDim solver)
    then (if dynamic_grid solver then GetGridVel geometry iPoint iDim else 0)
    else Velocity_Old (nodes solver) q iDim.
Proof.
  rewrite <- impose_wall_velocity_sets.
  unfold wall_vertex_outcome. destruct implicit; [|reflexivity].
  destruct (delete_rows_keeps (seq 1 (nDim s2b)) s2b iPoint) as (_ & D & _).
  unfold delete_momentum_rows. cbv zeta in D. rewrite D.
  destruct wall_vertex_outcome_s2b as (_ & V & _). rewrite V. reflexivity.
Qed.

Lemma wall_vertex_outcome_LinSysRes q iVar :
  LinSysRes s3 q iVar
  = if Nat.eqb q iPoint && Nat.eqb iVar (nDim solver + 1)
    then LinSysRes solver iPoint (nDim solver + 1)%nat + (Res_Conv - Res_Visc)
    else if Nat.eqb q iPoint && Nat.leb 1 iVar && Nat.leb iVar (nDim solver)
    then 0 else LinSysRes solver q iVar.
Proof.
  assert (H2 : LinSysRes s3 = LinSysRes s2).
  { unfold wall_vertex_outcome. destruct implicit; [|reflexivity].
    destruct (delete_rows_keeps (seq 1 (nDim s2b)) s2b iPoint) as (_ & _ & D).
    unfold delete_momentum_rows. cbv zeta in D. rewrite D.
    apply wall_vertex_outcome_s2b. }
  rewrite H2. rewrite add_energy_residual_LinSysRes.
  destruct (impose_wall_velocity_keeps geometry solver iPoint) as (H1 & _).
  rewrite H1, !impose_wall_velocity_zeroes.
  rewrite Nat.eqb_refl.
  destruct (Nat.leb_spec (nDim solver + 1) (nDim solver)); [lia|].
  rewrite andb_false_r. reflexivity.
Qed.

Lemma wall_vertex_outcome_Jacobian_row iVar jPoint jVar :
  implicit = true -> (1 <= iVar <= nDim solver)%nat ->
  Jacobian s3 iPoint jPoint iVar jVar
  = if Nat.eqb jPoint iPoint && Nat.eqb jVar iVar then 1 else 0.
Proof.
  intros Hi Hrow. unfold wall_vertex_outcome. rewrite Hi.
  rewrite delete_momentum_rows_Jacobian.
  destruct wall_vertex_outcome_s2b as ((Hn & _) & _).
  rewrite Hn, Nat.eqb_refl.
  replace (Nat.leb 1 iVar) with true by (symmetry; apply Nat.leb_le; lia).
  replace (Nat.leb iVar (nDim solver)) with true
    by (symmetry; apply Nat.leb_le; lia).
  reflexivity.
Qed.

Lemma wall_vertex_outcome_Jacobian_other q jPoint iVar jVar :
  q <> iPoint ->
  Jacobian s3 q jPoint iVar jVar = Jacobian solver q jPoint iVar jVar.
Proof.
  intros Hq.
  assert (H2 : Jacobian s2 = Jacobian solver)
    by apply impose_wall_velocity_Jacobian.
  unfold wall_vertex_outcome. destruct implicit; [|rewrite H2; reflexivity].
  rewrite delete_momentum_rows_Jacobian.
  destruct (Nat.eqb_spec q iPoint) as [E|_]; [contradiction|].
  cbn [andb]. destruct block as [b|]; [|rewrite H2; reflexivity].
  cbn [set_Jacobian Jacobian]. unfold SysMatrix.AddBlock2Diag.
  destruct (Nat.eqb_spec q iPoint) as [E|_]; [contradiction|].
  cbn [andb]. rewrite H2. reflexivity.
Qed.

Lemma wall_vertex_outcome_Jacobian_explicit :
  implicit = false -> Jacobian s3 = Jacobian solver.
Proof.
  intros Hi. unfold wall_vertex_outcome. rewrite Hi.
  apply impose_wall_velocity_Jacobian.
Qed.

Lemma wall_vertex_outcome_enforces :
  wall_velocity_enforced geometry implicit s3 iPoint.
Proof.
  destruct wall_vertex_outcome_keeps as (Hn & Hd & _).
  unfold wall_velocity_enforced. rewrite Hn, Hd. repeat split.
  - intros iDim H. rewrite wall_vertex_outcome_Velocity_Old, Nat.eqb_refl.
    replace (Nat.ltb iDim (nDim solver)) with true
      by (symmetry; apply Nat.ltb_lt; exact H).
    reflexivity.
  - intros iDim H. rewrite wall_vertex_outcome_LinSysRes, Nat.eqb_refl.
    destruct (Nat.eqb_spec (iDim + 1) (nDim solver + 1)); [lia|].
    replace (Nat.leb 1 (iDim + 1)) with true
      by (symmetry; apply Nat.leb_le; lia).
    replace (Nat.leb (iDim + 1) (nDim solver)) with true
      by (symmetry; apply Nat.leb_le; lia).
    reflexivity.
  - intros Hi iVar Hrow jPoint jVar.
    apply wall_vertex_outcome_Jacobian_row; assumption.
Qed.

Lemma wall_vertex_outcome_preserves q :
  wall_velocity_enforced geometry implicit solver q ->
  wall_velocity_enforced geometry implicit s3 q.
Proof.
  intros Hq. destruct (Nat.eq_dec q iPoint) as [->|Hne].
  - apply wall_vertex_outcome_enforces.
  - destruct wall_vertex_outcome_keeps as (Hn & Hd & _).
    destruct Hq as (Pv & Pr & Pj).
    unfold wall_velocity_enforced. rewrite Hn, Hd. repeat split.
    + intros iDim H. rewrite wall_vertex_outcome_Velocity_Old.
      destruct (Nat.eqb_spec q iPoint); [contradiction|]. apply Pv, H.
    + intros iDim H. rewrite wall_vertex_outcome_LinSysRes.
      destruct (Nat.eqb_spec q iPoint); [contradiction|]. apply Pr, H.
    + intros Hi iVar H jPoint jVar.
      rewrite (wall_vertex_outcome_Jacobian_other q jPoint iVar jVar Hne).
      apply Pj; assumption.
Qed.

End WallVertexOutcome.

Section WallPassAnyMesh.

Variable ComputeStressTensor : nat -> su2matrix -> su2double -> su2matrix.
Variable geometry : CGeometry.
Variable config : CConfig.
Variable val_marker : nat.

Local Abbreviation implicit :=
  (time_int_eqb (GetKind_TimeIntScheme config) EULER_IMPLICIT).
Local Abbreviation node iVertex :=
  (GetNode (vertex geometry val_marker iVertex)).
Local Abbreviation heat_flux_body :=
  (BC_HeatFlux_Wall_vertex ComputeStressTensor geometry config val_marker).
Local Abbreviation generic_body cht_mode :=
  (BC_Isothermal_Wall_Generic_vertex ComputeStressTensor geometry config
     val_marker cht_mode).

(** What either loop body does to the solver at a domain-owned vertex. *)
Lemma BC_HeatFlux_Wall_vertex_outcome solver Wall_HeatFlux Jacobian_i iVertex :
  GetDomain geometry (node iVertex) = true ->
  exists Res_Conv Res_Visc block Wall_HeatFlux' Jacobian_i',
    heat_flux_body (solver, Wall_HeatFlux, Jacobian_i) iVertex
    = (wall_vertex_outcome geometry solver (node iVertex) implicit
         Res_Conv Res_Visc block,
       Wall_HeatFlux', Jacobian_i').
Proof.
  intros Hdom.
  unfold BC_HeatFlux_Wall_vertex. rewrite Hdom. cbn [negb].
  destruct (BC_HeatFlux_Wall_energy _ _ _ _ _ _ _ _) as [[J' rc] rv].
  destruct (impose_wall_velocity_keeps geometry solver (node iVertex))
    as (_ & Hd & _).
  change (dynamic_grid (add_energy_residual ?s _ _ _)) with (dynamic_grid s).
  rewrite Hd.
  exists rc, rv, (if dynamic_grid solver then J' else None).
  do 2 eexists. unfold wall_vertex_outcome.
  destruct implicit; [|reflexivity].
  destruct (dynamic_grid solver); [|reflexivity].
  destruct J'; reflexivity.
Qed.

Lemma BC_Isothermal_Wall_Generic_vertex_outcome cht_mode solver Twall
    Jacobian_i iVertex :
  GetDomain geometry (node iVertex) = true ->
  (exists message,
     generic_body cht_mode (solver, Twall, Jacobian_i) iVertex = Fatal message)
  \/ exists Res_Conv Res_Visc block Twall' Jacobian_i',
       generic_body cht_mode (solver, Twall, Jacobian_i) iVertex
       = Ok (wall_vertex_outcome geometry solver (node iVertex) implicit
               Res_Conv Res_Visc block,
             Twall', Jacobian_i').
Proof.
  intros Hdom.
  unfold BC_Isothermal_Wall_Generic_vertex. rewrite Hdom. cbn [negb].
  destruct (Isothermal_Twall _ _ _ _ _ _ _) as [Tw|m];
    [right | left; exists m; reflexivity].
  match goal with
  | |- context [if dynamic_grid ?s then ?a else ?b] =>
      destruct (if dynamic_grid s then a else b) as [[J' rc] rv]
  end.
  exists rc, rv, J'. do 2 eexists. unfold wall_vertex_outcome.
  destruct implicit; reflexivity.
Qed.

(** Induction over the vertices of the marker, for both loops. *)
Lemma BC_HeatFlux_Wall_loop_ind (P : nat -> CNSSolver -> Prop) solver
    Wall_HeatFlux Jacobian_i :
  P 0%nat solver ->
  (forall n s, P n s -> GetDomain geometry (node n) = false -> P (S n) s) ->
  (forall n s Res_Conv Res_Visc block,
     P n s -> GetDomain geometry (node n) = true ->
     P (S n) (wall_vertex_outcome geometry s (node n) implicit
                Res_Conv Res_Visc block)) ->
  forall n,
    P n (fst (fst (for_loop n heat_flux_body
                     (solver, Wall_HeatFlux, Jacobian_i)))).
Proof.
  intros H0 Hskip Hstep. induction n as [|n IH]; [exact H0|].
  rewrite for_loop_S.
  destruct (for_loop n _ _) as [[solver_n W_n] J_n]. cbn [fst] in IH.
  destruct (GetDomain geometry (node n)) eqn:Hdom.
  - destruct (BC_HeatFlux_Wall_vertex_outcome solver_n W_n J_n n Hdom)
      as (rc & rv & b & W' & J' & E).
    rewrite E. cbn [fst]. apply Hstep; assumption.
  - unfold BC_HeatFlux_Wall_vertex. rewrite Hdom. cbn [negb fst].
    apply Hskip; assumption.
Qed.

Lemma BC_Isothermal_Wall_Generic_loop_ind cht_mode
    (P : nat -> CNSSolver -> Prop) solver Twall Jacobian_i :
  P 0%nat solver ->
  (forall n s, P n s -> GetDomain geometry (node n) = false -> P (S n) s) ->
  (forall n s Res_Conv Res_Visc block,
     P n s -> GetDomain geometry (node n) = true ->
     P (S n) (wall_vertex_outcome geometry s (node n) implicit
                Res_Conv Res_Visc block)) ->
  forall n s',
    for_loop_result n (generic_body cht_mode) (solver, Twall, Jacobian_i)
    = Ok s' ->
    P n (fst (fst s')).
Proof.
  intros H0 Hskip Hstep. induction n as [|n IH]; intros s' Hrun.
  - cbn in Hrun. injection Hrun as <-. exact H0.
  - rewrite for_loop_result_S in Hrun.
    destruct (for_loop_result n _ _) as [[[solver_n W_n] J_n]|m];
      [|discriminate].
    specialize (IH _ eq_refl). cbn [fst] in IH.
    destruct (GetDomain geometry (node n)) eqn:Hdom.
    + destruct (BC_Isothermal_Wall_Generic_vertex_outcome cht_mode solver_n
                  W_n J_n n Hdom)
        as [[m E] | (rc & rv & b & W' & J' & E)];
        rewrite E in Hrun; [discriminate|].
      injection Hrun as <-. cbn [fst]. apply Hstep; assumption.
    + unfold BC_Isothermal_Wall_Generic_vertex in Hrun.
      rewrite Hdom in Hrun. cbn [negb] in Hrun.
      injection Hrun as <-. cbn [fst]. apply Hskip; assumption.
Qed.

(** A property both passes establish, in the form the theorems below
    state it: for [BC_HeatFlux_Wall], and for the generic isothermal
    routine in either mode whenever it returns. *)
Lemma wall_pass_ind (P : nat -> CNSSolver -> Prop) solver :
  P 0%nat solver ->
  (forall n s, P n s -> GetDomain geometry (node n) = false -> P (S n) s) ->
  (forall n s Res_Conv Res_Visc block,
     P n s -> GetDomain geometry (node n) = true ->
     P (S n) (wall_vertex_outcome geometry s (node n) implicit
                Res_Conv Res_Visc block)) ->
  P (nVertex geometry val_marker)
    (BC_HeatFlux_Wall ComputeStressTensor geometry config val_marker solver)
  /\ forall cht_mode after,
       BC_Isothermal_Wall_Generic ComputeStressTensor geometry config
         val_marker cht_mode solver = Ok after ->
       P (nVertex geometry val_marker) after.
Proof.
  intros H0 Hskip Hstep. split.
  - unfold BC_HeatFlux_Wall. apply BC_HeatFlux_Wall_loop_ind; assumption.
  - intros cht_mode after. unfold BC_Isothermal_Wall_Generic. cbv zeta.
    match goal with
    | |- match ?run with _ => _ end = _ -> _ =>
        destruct run as [s'|m] eqn:Erun
    end; [|discriminate].
    intros E. injection E as <-.
    apply (BC_Isothermal_Wall_Generic_loop_ind cht_mode P _ _ _ H0 Hskip Hstep
             _ _ Erun).
Qed.

(** X4.  On any mesh, moving or not, and whatever the time integration:
    after [BC_HeatFlux_Wall], and after the generic isothermal routine in
    either mode when it returns, every domain-owned vertex of the marker
    holds the velocity of the wall as its old velocity (the grid velocity
    of its point on a dynamic grid, zero otherwise), has zero momentum
    residuals and, under implicit time integration, identity momentum
    rows in the Jacobian. *)
Theorem wall_pass_enforces_wall_velocity solver :
  (forall iVertex, (iVertex < nVertex geometry val_marker)%nat ->
     GetDomain geometry (node iVertex) = true ->
     wall_velocity_enforced geometry implicit
       (BC_HeatFlux_Wall ComputeStressTensor geometry config val_marker solver)
       (node iVertex))
  /\ (forall cht_mode after,
        BC_Isothermal_Wall_Generic ComputeStressTensor geometry config
          val_marker cht_mode solver = Ok after ->
        forall iVertex, (iVertex < nVertex geometry val_marker)%nat ->
          GetDomain geometry (node iVertex) = true ->
          wall_velocity_enforced geometry implicit after (node iVertex)).
Proof.
  destruct (wall_pass_ind
              (fun n s =>
                 forall iVertex, (iVertex < n)%nat ->
                   GetDomain geometry (node iVertex) = true ->
                   wall_velocity_enforced geometry implicit s (node iVertex))
              solver) as [HF ISO].
  - intros iVertex H. lia.
  - intros n s IH Hdom iVertex Hlt Hd.
    destruct (Nat.eq_dec iVertex n) as [->|Hne]; [congruence|].
    apply IH; [lia | exact Hd].
  - intros n s rc rv b IH Hdom iVertex Hlt Hd.
    destruct (Nat.eq_dec iVertex n) as [->|Hne].
    + apply wall_vertex_outcome_enforces.
    + apply wall_vertex_outcome_preserves. apply IH; [lia | exact Hd].
  - split; [exact HF | exact ISO].
Qed.

(** X5.  Neither wall pass writes outside the wall: at a point on which
    no domain-owned vertex of the marker sits the residual, the stored
    old velocity and the block row of the Jacobian are left as they were;
    and at every point, wall or not, the continuity row of the residual
    and the rows past the energy row are left as they were. *)
Theorem wall_pass_writes_wall_points_only solver :
  let untouched (after : CNSSolver) :=
    (forall q, off_the_wall geometry val_marker q ->
       (forall iVar, LinSysRes after q iVar = LinSysRes solver q iVar)
       /\ (forall iDim,
             Velocity_Old (nodes after) q iDim
             = Velocity_Old (nodes solver) q iDim)
       /\ (forall jPoint iVar jVar,
             Jacobian after q jPoint iVar jVar
             = Jacobian solver q jPoint iVar jVar))
    /\ (forall q iVar, (iVar = 0 \/ nDim solver + 1 < iVar)%nat ->
          LinSysRes after q iVar = LinSysRes solver q iVar) in
  untouched
    (BC_HeatFlux_Wall ComputeStressTensor geometry config val_marker solver)
  /\ (forall cht_mode after,
        BC_Isothermal_Wall_Generic ComputeStressTensor geometry config
          val_marker cht_mode solver = Ok after ->
        untouched after).
Proof.
  intros untouched.
  destruct (wall_pass_ind
              (fun n s =>
                 nDim s = nDim solver
                 /\ (forall q,
                       (forall iVertex, (iVertex < n)%nat ->
                          GetDomain geometry (node iVertex) = true ->
                          node iVertex <> q) ->
                       (forall iVar, LinSysRes s q iVar = LinSysRes solver q iVar)
                       /\ (forall iDim,
                             Velocity_Old (nodes s) q iDim
                             = Velocity_Old (nodes solver) q iDim)
                       /\ (forall jPoint iVar jVar,
                             Jacobian s q jPoint iVar jVar
                             = Jacobian solver q jPoint iVar jVar))
                 /\ (forall q iVar, (iVar = 0 \/ nDim solver + 1 < iVar)%nat ->
                       LinSysRes s q iVar = LinSysRes solver q iVar))
              solver) as [HF ISO].
  - split; [reflexivity|]. split; [|reflexivity].
    intros q _. repeat split.
  - intros n s (Hn & Hoff & Hrow) Hdom. split; [exact Hn|]. split; [|exact Hrow].
    intros q Hq. apply Hoff. intros v Hlt. apply Hq. lia.
  - intros n s rc rv b (Hn & Hoff & Hrow) Hdom.
    destruct (wall_vertex_outcome_keeps geometry s (node n) implicit rc rv b)
      as (Hn' & _).
    split; [rewrite Hn'; exact Hn|]. split.
    + intros q Hq.
      assert (Hne : q <> node n).
      { intros ->. apply (Hq n); [lia | exact Hdom | reflexivity]. }
      destruct (Hoff q) as (A & B & C).
      { intros v Hlt. apply Hq. lia. }
      split; [|split].
      * intros iVar. rewrite wall_vertex_outcome_LinSysRes.
        destruct (Nat.eqb_spec q (node n)); [contradiction|]. apply A.
      * intros iDim. rewrite wall_vertex_outcome_Velocity_Old.
        destruct (Nat.eqb_spec q (node n)); [contradiction|]. apply B.
      * intros jPoint iVar jVar.
        rewrite (wall_vertex_outcome_Jacobian_other _ _ _ _ _ _ _ q jPoint
                   iVar jVar Hne).
        apply C.
    + intros q iVar HiVar. rewrite wall_vertex_outcome_LinSysRes, Hn.
      destruct (Nat.eqb_spec iVar (nDim solver + 1)); [lia|].
      rewrite andb_false_r.
      destruct (Nat.leb_spec 1 iVar), (Nat.leb_spec iVar (nDim solver));
        rewrite ?andb_false_r; cbn [andb]; try apply Hrow; try exact HiVar; lia.
  - split.
    + destruct HF as (_ & Hoff & Hrow). split; [|exact Hrow].
      intros q Hq. apply Hoff. exact Hq.
    + intros cht_mode after Hrun.
      destruct (ISO cht_mode after Hrun) as (_ & Hoff & Hrow).
      split; [|exact Hrow]. intros q Hq. apply Hoff. exact Hq.
Qed.

(** X6.  Neither wall pass touches the flow state or the explicit
    system: the primitive and secondary variables, the gradients and the
    cached wall shear stress of every point, the edge fluxes, the
    conjugate heat data and the solver's constants are left as they
    were, and unless the time integration is implicit the Jacobian is
    left as it was. *)
Theorem wall_pass_keeps_flow_state solver :
  let kept (after : CNSSolver) :=
    wall_pass_keeps solver after
    /\ (GetKind_TimeIntScheme config <> EULER_IMPLICIT ->
        Jacobian after = Jacobian solver) in
  kept (BC_HeatFlux_Wall ComputeStressTensor geometry config val_marker solver)
  /\ (forall cht_mode after,
        BC_Isothermal_Wall_Generic ComputeStressTensor geometry config
          val_marker cht_mode solver = Ok after ->
        kept after).
Proof.
  intros kept.
  assert (Hexp : GetKind_TimeIntScheme config <> EULER_IMPLICIT ->
                 implicit = false).
  { destruct (GetKind_TimeIntScheme config); [contradiction | reflexivity]. }
  destruct (wall_pass_ind
              (fun n s =>
                 wall_pass_keeps solver s
                 /\ (GetKind_TimeIntScheme config <> EULER_IMPLICIT ->
                     Jacobian s = Jacobian solver))
              solver) as [HF ISO].
  - split; [apply wall_pass_keeps_refl | reflexivity].
  - intros n s H _. exact H.
  - intros n s rc rv b (K & J) Hdom. split.
    + eapply wall_pass_keeps_trans; [exact K|].
      apply wall_vertex_outcome_keeps.
    + intros Hne.
      rewrite (wall_vertex_outcome_Jacobian_explicit _ _ _ _ _ _ _ (Hexp Hne)).
      apply J, Hne.
  - split; [exact HF | exact ISO].
Qed.

End WallPassAnyMesh.

(** * The isothermal wall: energy residual, CHT temperature, aborts *)

Lemma Isothermal_inputs_kept geometry config solver s val_marker iVertex :
  wall_pass_keeps solver s ->
  Isothermal_thermal_conductivity config s
    (GetNode (vertex geometry val_marker iVertex))
  = Isothermal_thermal_conductivity config solver
      (GetNode (vertex geometry val_marker iVertex))
  /\ CVariable.GetTemperature (nodes s)
       (GetNormal_Neighbor (vertex geometry val_marker iVertex))
     = CVariable.GetTemperature (nodes solver)
         (GetNormal_Neighbor (vertex geometry val_marker iVertex))
  /\ Isothermal_dist_ij geometry s val_marker iVertex
     = Isothermal_dist_ij geometry solver val_marker iVertex
  /\ face_area geometry s val_marker iVertex
     = face_area geometry solver val_marker iVertex.
Proof.
  intros (Hn & _ & Hg & Hg1 & Hp & _).
  unfold Isothermal_thermal_conductivity, Isothermal_Cp, Isothermal_dist_ij,
    face_area, CVariable.GetTemperature, CVariable.GetLaminarViscosity,
    CVariable.GetEddyViscosity.
  rewrite Hn, Hg, Hg1, Hp. repeat split.
Qed.

Section IsothermalWall.

Variable ComputeStressTensor : nat -> su2matrix -> su2double -> su2matrix.
Variable geometry : CGeometry.
Variable config : CConfig.
Variable val_marker : nat.

Local Abbreviation implicit :=
  (time_int_eqb (GetKind_TimeIntScheme config) EULER_IMPLICIT).
Local Abbreviation node iVertex :=
  (GetNode (vertex geometry val_marker iVertex)).
Local Abbreviation generic_body cht_mode :=
  (BC_Isothermal_Wall_Generic_vertex ComputeStressTensor geometry config
     val_marker cht_mode).

(** The body of the isothermal loop on a stationary mesh, with the
    viscous part of the energy residual spelled out. *)
Lemma BC_Isothermal_Wall_vertex_static_energy solver Twall Jacobian_i iVertex :
  dynamic_grid solver = false ->
  GetDomain geometry (node iVertex) = true ->
  let Twall' :=
    if GetMarker_All_PyCustom config val_marker
    then GetCustomBoundaryTemperature geometry val_marker iVertex
    else Twall in
  exists Jacobian_i',
    generic_body false (solver, Twall, Jacobian_i) iVertex
    = Ok (wall_vertex_outcome geometry solver (node iVertex) implicit 0.0
            (Isothermal_thermal_conductivity config solver (node iVertex)
             * (- (CVariable.GetTemperature (nodes solver)
                     (GetNormal_Neighbor (vertex geometry val_marker iVertex))
                   - Twall')
                / Isothermal_dist_ij geometry solver val_marker iVertex)
             * face_area geometry solver val_marker iVertex)
            Jacobian_i',
          Twall', Jacobian_i').
Proof.
  intros Hstatic Hdom Twall'.
  destruct (impose_wall_velocity_keeps geometry solver (node iVertex))
    as (_ & Hd & _).
  rewrite Hstatic in Hd.
  pose proof (Isothermal_inputs_kept geometry config solver
                (impose_wall_velocity geometry solver (node iVertex))
                val_marker iVertex
                (impose_wall_velocity_keeps geometry solver (node iVertex)))
    as (Hk & HT & _ & _).
  unfold BC_Isothermal_Wall_Generic_vertex. rewrite Hdom. cbn [negb].
  unfold Isothermal_Twall. rewrite Hd, Hk, HT. subst Twall'.
  destruct (GetMarker_All_PyCustom config val_marker);
    eexists; unfold wall_vertex_outcome, face_area; reflexivity.
Qed.

Lemma BC_Isothermal_Wall_loop_energy solver Jacobian_i n :
  dynamic_grid solver = false ->
  (n <= nVertex geometry val_marker)%nat ->
  (forall v w, (v < nVertex geometry val_marker)%nat ->
     (w < nVertex geometry val_marker)%nat -> node v = node w -> v = w) ->
  exists solver_n Twall_n Jacobian_n,
    for_loop_result n (generic_body false)
      (solver,
       GetIsothermal_Temperature config
         (GetMarker_All_TagBound config val_marker)
       / GetTemperature_Ref config,
       Jacobian_i)
    = Ok (solver_n, Twall_n, Jacobian_n)
    /\ wall_pass_keeps solver solver_n
    /\ (GetMarker_All_PyCustom config val_marker = false ->
        Twall_n
        = GetIsothermal_Temperature config
            (GetMarker_All_TagBound config val_marker)
          / GetTemperature_Ref config)
    /\ forall iVertex, (iVertex < nVertex geometry val_marker)%nat ->
         GetDomain geometry (node iVertex) = true ->
         LinSysRes solver_n (node iVertex) (nDim solver + 1)%nat
         = if Nat.ltb iVertex n
           then LinSysRes solver (node iVertex) (nDim solver + 1)%nat
                + (0.0 - isothermal_heat_flux geometry config solver
                           val_marker iVertex
                         * face_area geometry solver val_marker iVertex)
           else LinSysRes solver (node iVertex) (nDim solver + 1)%nat.
Proof.
  intros Hstatic Hn Hinj. induction n as [|n IH].
  - do 3 eexists. split; [reflexivity|].
    split; [apply wall_pass_keeps_refl|]. split; [reflexivity|].
    intros iVertex _ _. reflexivity.
  - destruct IH as (solver_n & Twall_n & J_n & Hrun & K & HT & Hres); [lia|].
    rewrite for_loop_result_S, Hrun.
    destruct (GetDomain geometry (node n)) eqn:Hdn.
    + assert (Hd : dynamic_grid solver_n = false).
      { destruct K as (_ & Hd & _). rewrite Hd. exact Hstatic. }
      destruct (BC_Isothermal_Wall_vertex_static_energy solver_n Twall_n J_n n
                  Hd Hdn) as (J' & Hstep).
      cbv zeta in Hstep. rewrite Hstep. do 3 eexists. split; [reflexivity|].
      split.
      { eapply wall_pass_keeps_trans; [exact K|].
        apply wall_vertex_outcome_keeps. }
      split.
      { intros Hc. rewrite Hc. apply HT, Hc. }
      intros iVertex Hlt Hdom.
      rewrite wall_vertex_outcome_LinSysRes.
      destruct K as (HnD & K').
      rewrite HnD, Nat.eqb_refl, andb_true_r.
      destruct (Nat.eq_dec iVertex n) as [->|Hne].
      * rewrite Nat.eqb_refl.
        replace (Nat.ltb n (S n)) with true
          by (symmetry; apply Nat.ltb_lt; lia).
        rewrite (Hres n Hlt Hdom), Nat.ltb_irrefl.
        destruct (Isothermal_inputs_kept geometry config solver solver_n
                    val_marker n (conj HnD K')) as (-> & -> & -> & ->).
        unfold isothermal_heat_flux, isothermal_wall_temperature.
        destruct (GetMarker_All_PyCustom config val_marker) eqn:Hc;
          [reflexivity|]. rewrite (HT eq_refl). reflexivity.
      * destruct (Nat.eqb_spec (node iVertex) (node n)) as [E|_].
        { exfalso. apply Hne. apply Hinj; [exact Hlt | lia | exact E]. }
        cbn [andb]. rewrite (Hres iVertex Hlt Hdom).
        destruct (Nat.ltb_spec iVertex n), (Nat.ltb_spec iVertex (S n));
          try lia; reflexivity.
    + unfold BC_Isothermal_Wall_Generic_vertex. rewrite Hdn. cbn [negb].
      do 3 eexists. split; [reflexivity|].
      split; [exact K|]. split; [exact HT|].
      intros iVertex Hlt Hdom.
      destruct (Nat.eq_dec iVertex n) as [->|Hne]; [congruence|].
      rewrite (Hres iVertex Hlt Hdom).
      destruct (Nat.ltb_spec iVertex n), (Nat.ltb_spec iVertex (S n));
        try lia; reflexivity.
Qed.


(** X7.  On a stationary mesh, at a domain-owned vertex of an isothermal
    marker whose vertices lie on distinct points, [BC_Isothermal_Wall]
    returns and takes from the energy residual of the vertex's point the
    conductive heat flux times the face area: the thermal conductivity
    Cp (mu/Pr + mu_t/Pr_t) times the one-sided gradient
    -(There - Twall)/dist_ij, where Twall is the configured wall
    temperature over the reference temperature (or the custom one of a
    customizable patch) and There the temperature of the interior
    neighbour. *)
Theorem BC_Isothermal_Wall_energy_residual solver iVertex :
  dynamic_grid solver = false ->
  (iVertex < nVertex geometry val_marker)%nat ->
  GetDomain geometry (node iVertex) = true ->
  (forall v w, (v < nVertex geometry val_marker)%nat ->
     (w < nVertex geometry val_marker)%nat -> node v = node w -> v = w) ->
  let energy := (nDim solver + 1)%nat in
  exists after,
    BC_Isothermal_Wall ComputeStressTensor geometry config val_marker solver
    = Ok after
    /\ LinSysRes after (node iVertex) energy
       = LinSysRes solver (node iVertex) energy
         - isothermal_heat_flux geometry config solver val_marker iVertex
           * face_area geometry solver val_marker iVertex.
Proof.
  intros Hstatic Hlt Hdom Hinj energy.
  unfold BC_Isothermal_Wall, BC_Isothermal_Wall_Generic. cbv zeta.
  cbn [negb].
  destruct (BC_Isothermal_Wall_loop_energy solver
              (if implicit then Some zeros2 else None)
              (nVertex geometry val_marker) Hstatic (le_n _) Hinj)
    as (solver_n & Twall_n & J_n & Hrun & _ & _ & Hres).
  unfold su2double in *. rewrite Hrun.
  exists solver_n. split; [reflexivity|]. cbn [fst].
  unfold energy. rewrite (Hres iVertex Hlt Hdom).
  replace (Nat.ltb iVertex (nVertex geometry val_marker)) with true
    by (symmetry; apply Nat.ltb_lt; exact Hlt).
  lra.
Qed.

End IsothermalWall.

(** On [wall_geometry] with the wall held at the temperature 3 the
    interior temperature is 1, the conductivity 2, the distance and the
    face area 1: the pass takes 2 * (-(1 - 3)/1) * 1 = 4 off the energy
    residual 7 of the wall point. *)
Lemma BC_Isothermal_Wall_energy_residual_on_shear :
  dynamic_grid (shear_solver 5) = false
  /\ (0 < nVertex wall_geometry 0)%nat
  /\ GetDomain wall_geometry (GetNode (vertex wall_geometry 0 0)) = true
  /\ exists after,
       BC_Isothermal_Wall Newtonian_stress wall_geometry hot_wall_config 0
         (shear_solver 5) = Ok after
       /\ LinSysRes after 0%nat 3%nat = 7 - 4.
Proof.
  split; [reflexivity|]. split; [cbn; lia|]. split; [reflexivity|].
  destruct (BC_Isothermal_Wall_energy_residual Newtonian_stress wall_geometry
              hot_wall_config 0 (shear_solver 5) 0%nat eq_refl
              ltac:(cbn; lia) eq_refl) as (after & Hrun & H).
  { intros v w Hv Hw _. cbn in Hv, Hw. lia. }
  exists after. split; [exact Hrun|].
  etransitivity; [exact H|].
  unfold isothermal_heat_flux.
  rewrite face_area_on_wall_geometry, Isothermal_dist_ij_on_wall_geometry.
  unfold Isothermal_thermal_conductivity, Isothermal_Cp,
    isothermal_wall_temperature. cbn. lra.
Defined.

(** * The conjugate wall temperature: bracket and aborts *)

(** A weighted average with a positive and a non-negative weight lies
    between the two values. *)
Lemma flux_weighted_average_between a b h1 h2 :
  0 < h1 -> 0 <= h2 ->
  Rmin a b <= flux_weighted_average a b h1 h2 <= Rmax a b.
Proof.
  intros H1 H2. unfold flux_weighted_average.
  assert (Hs : 0 < h1 + h2) by lra.
  assert (Ha : (a * h1 + b * h2) / (h1 + h2) - a = (b - a) * (h2 / (h1 + h2)))
    by (field; lra).
  assert (Hb : (a * h1 + b * h2) / (h1 + h2) - b = (a - b) * (h1 / (h1 + h2)))
    by (field; lra).
  assert (Hw1 : 0 < h1 / (h1 + h2)) by (apply Rdiv_lt_0_compat; lra).
  assert (Hw2 : 0 <= h2 / (h1 + h2)).
  { unfold Rdiv. apply Rmult_le_pos; [lra|].
    left. apply Rinv_0_lt_compat. lra. }
  unfold Rmin, Rmax. destruct (Rle_dec a b); split; nra.
Qed.

Section ConjugateWallTemperature.

Variable geometry : CGeometry.
Variable config : CConfig.
Variable val_marker : nat.

(** X8.  In the averaged coupling modes, with a positive thermal
    conductivity, distance to the interior neighbour and reference
    viscosity and a non-negative conjugate heat-transfer coefficient, the
    wall temperature the boundary routine uses at a CHT vertex lies
    between the interior temperature and the conjugate temperature; when
    the conjugate coefficient is zero it is the interior temperature
    (an adiabatic wall). *)
Theorem CHT_wall_temperature_between solver Twall iVertex :
  GetKind_CHT_Coupling config = AVERAGED_TEMPERATURE_NEUMANN_HEATFLUX
  \/ GetKind_CHT_Coupling config = AVERAGED_TEMPERATURE_ROBIN_HEATFLUX ->
  let iPoint := GetNode (vertex geometry val_marker iVertex) in
  let Point_Normal := GetNormal_Neighbor (vertex geometry val_marker iVertex) in
  let There := CVariable.GetTemperature (nodes solver) Point_Normal in
  let Tconjugate :=
    GetConjugateHeatVariable solver val_marker iVertex 0
    / GetTemperature_Ref config in
  0 < Isothermal_thermal_conductivity config solver iPoint ->
  0 < Isothermal_dist_ij geometry solver val_marker iVertex ->
  0 < GetViscosity_Ref config ->
  0 <= GetConjugateHeatVariable solver val_marker iVertex 2 ->
  exists Twall',
    Isothermal_Twall geometry config val_marker true solver Twall iVertex
    = Ok Twall'
    /\ Rmin There Tconjugate <= Twall' <= Rmax There Tconjugate
    /\ (GetConjugateHeatVariable solver val_marker iVertex 2 = 0 ->
        Twall' = There).
Proof.
  intros Hkind iPoint Point_Normal There Tconjugate Hk Hd Hv Hc.
  eexists. split; [apply Isothermal_Twall_averaged; exact Hkind|].
  fold iPoint Point_Normal There Tconjugate.
  assert (Hh : 0 < Isothermal_dist_ij geometry solver val_marker iVertex
                   * GetViscosity_Ref config
                   / Isothermal_thermal_conductivity config solver iPoint).
  { apply Rdiv_lt_0_compat; [apply Rmult_lt_0_compat|]; assumption. }
  split.
  - apply flux_weighted_average_between; assumption.
  - intros Hz. rewrite Hz. unfold flux_weighted_average, There.
    unfold su2double in *. field. lra.
Qed.

End ConjugateWallTemperature.

(** On [wall_geometry] with the averaged coupling the interior
    temperature is 1 and the conjugate one 0: the wall temperature lies
    between 0 and 1. *)
Lemma CHT_wall_temperature_between_on_shear :
  GetKind_CHT_Coupling hot_wall_config = AVERAGED_TEMPERATURE_NEUMANN_HEATFLUX
  /\ 0 < Isothermal_thermal_conductivity hot_wall_config (shear_solver 5) 0
  /\ 0 < Isothermal_dist_ij wall_geometry (shear_solver 5) 0 0
  /\ exists Twall',
       Isothermal_Twall wall_geometry hot_wall_config 0 true (shear_solver 5)
         0 0 = Ok Twall'
       /\ 0 <= Twall' <= 1.
Proof.
  assert (Hk : 0 < Isothermal_thermal_conductivity hot_wall_config
                     (shear_solver 5) 0).
  { unfold Isothermal_thermal_conductivity, Isothermal_Cp. cbn. lra. }
  assert (Hd : 0 < Isothermal_dist_ij wall_geometry (shear_solver 5) 0 0).
  { rewrite Isothermal_dist_ij_on_wall_geometry. lra. }
  split; [reflexivity|]. split; [exact Hk|]. split; [exact Hd|].
  destruct (CHT_wall_temperature_between wall_geometry hot_wall_config 0
              (shear_solver 5) 0 0%nat (or_introl eq_refl) Hk Hd)
    as (Twall' & Hrun & Hbound & _).
  - cbn. lra.
  - cbn. lra.
  - exists Twall'. split; [exact Hrun|].
    replace (CVariable.GetTemperature (nodes (shear_solver 5))
               (GetNormal_Neighbor (vertex wall_geometry 0 0))) with 1
      in Hbound by reflexivity.
    replace (GetConjugateHeatVariable (shear_solver 5) 0 0 0
             / GetTemperature_Ref hot_wall_config) with 0
      in Hbound by (cbn; lra).
    unfold Rmin, Rmax in Hbound.
    destruct (Rle_dec 1 0); lra.
Defined.

(** * When the generic isothermal routine aborts *)

Lemma for_each_result_fatal_iff {S : Type} (body : S -> nat -> Result S)
    (fails : nat -> bool) :
  (forall s i, fails i = true -> exists m, body s i = Fatal m) ->
  (forall s i, fails i = false -> exists s', body s i = Ok s') ->
  forall l s,
    (exists m, for_each_result body l s = Fatal m)
    <-> existsb fails l = true.
Proof.
  intros Hfail Hok l. induction l as [|i l IH]; intros s; cbn.
  - split; [intros [m H]; discriminate | discriminate].
  - destruct (fails i) eqn:E.
    + destruct (Hfail s i E) as [m ->]. cbn.
      split; [reflexivity | intros _; exists m; reflexivity].
    + destruct (Hok s i E) as [s' ->]. cbn. apply IH.
Qed.

Section GenericAborts.

Variable ComputeStressTensor : nat -> su2matrix -> su2double -> su2matrix.
Variable geometry : CGeometry.
Variable config : CConfig.
Variable val_marker : nat.

Local Abbreviation node iVertex :=
  (GetNode (vertex geometry val_marker iVertex)).

Lemma Isothermal_Twall_fatal cht_mode solver Twall iVertex :
  match GetKind_CHT_Coupling config with
  | OTHER_CHT_COUPLING _ =>
      if cht_mode
      then exists m,
             Isothermal_Twall geometry config val_marker cht_mode solver Twall
               iVertex = Fatal m
      else exists T,
             Isothermal_Twall geometry config val_marker cht_mode solver Twall
               iVertex = Ok T
  | _ => exists T,
           Isothermal_Twall geometry config val_marker cht_mode solver Twall
             iVertex = Ok T
  end.
Proof.
  unfold Isothermal_Twall, GetCHTWallTemperature.
  destruct (GetKind_CHT_Coupling config), cht_mode;
    cbn; try destruct (GetMarker_All_PyCustom config val_marker);
    eexists; reflexivity.
Qed.

Lemma generic_vertex_fatal_iff cht_mode :
  let fails iVertex :=
    cht_mode && GetDomain geometry (node iVertex)
    && match GetKind_CHT_Coupling config with
       | OTHER_CHT_COUPLING _ => true
       | _ => false
       end in
  (forall s iVertex, fails iVertex = true ->
     exists m,
       BC_Isothermal_Wall_Generic_vertex ComputeStressTensor geometry config
         val_marker cht_mode s iVertex = Fatal m)
  /\ (forall s iVertex, fails iVertex = false ->
        exists s',
          BC_Isothermal_Wall_Generic_vertex ComputeStressTensor geometry config
            val_marker cht_mode s iVertex = Ok s').
Proof.
  intros fails. split; intros [[solver Twall] J] iVertex Hf; unfold fails in Hf;
    unfold BC_Isothermal_Wall_Generic_vertex;
    destruct (GetDomain geometry (node iVertex)) eqn:Hdom; cbn [negb];
    try (eexists; reflexivity);
    rewrite ?andb_false_r in Hf; try discriminate;
    pose proof (Isothermal_Twall_fatal cht_mode
                  (impose_wall_velocity geometry solver (node iVertex))
                  Twall iVertex) as HT.
  - destruct (GetKind_CHT_Coupling config), cht_mode; try discriminate.
    destruct HT as [m ->]. exists m. reflexivity.
  - destruct (GetKind_CHT_Coupling config), cht_mode; try discriminate;
      destruct HT as [T ->];
      match goal with
      | |- context [if dynamic_grid ?s then ?a else ?b] =>
          destruct (if dynamic_grid s then a else b) as [[J' rc] rv]
      end; eexists; reflexivity.
Qed.

(** X9.  The generic isothermal routine aborts exactly when it is run in
    CHT mode with a coupling selector that is none of the four supported
    modes on a marker that has a domain-owned vertex; an unsupported
    selector goes unnoticed on a marker without one.  In particular
    [BC_Isothermal_Wall] never aborts. *)
Theorem BC_Isothermal_Wall_Generic_aborts_iff cht_mode solver :
  ((exists message,
      BC_Isothermal_Wall_Generic ComputeStressTensor geometry config
        val_marker cht_mode solver = Fatal message)
   <-> (cht_mode = true
        /\ (exists raw, GetKind_CHT_Coupling config = OTHER_CHT_COUPLING raw)
        /\ exists iVertex,
             (iVertex < nVertex geometry val_marker)%nat
             /\ GetDomain geometry (node iVertex) = true))
  /\ exists after,
       BC_Isothermal_Wall ComputeStressTensor geometry config val_marker solver
       = Ok after.
Proof.
  assert (Hiff : forall cht solver0,
    (exists message,
       BC_Isothermal_Wall_Generic ComputeStressTensor geometry config
         val_marker cht solver0 = Fatal message)
    <-> existsb
          (fun iVertex =>
             cht && GetDomain geometry (node iVertex)
             && match GetKind_CHT_Coupling config with
                | OTHER_CHT_COUPLING _ => true
                | _ => false
                end)
          (seq 0 (nVertex geometry val_marker)) = true).
  { intros cht solver0.
    destruct (generic_vertex_fatal_iff cht) as [Hf Ho].
    unfold BC_Isothermal_Wall_Generic, for_loop_result. cbv zeta.
    rewrite <- (for_each_result_fatal_iff _ _ Hf Ho
                  (seq 0 (nVertex geometry val_marker))
                  (solver0,
                   if negb cht
                   then GetIsothermal_Temperature config
                          (GetMarker_All_TagBound config val_marker)
                        / GetTemperature_Ref config
                   else 0.0,
                   if time_int_eqb (GetKind_TimeIntScheme config)
                        EULER_IMPLICIT
                   then Some zeros2 else None)).
    unfold su2double in *.
    match goal with
    | |- (exists m, match ?run with _ => _ end = _) <-> _ =>
        destruct run as [s'|m']
    end.
    - split; intros [m H]; discriminate.
    - split; intros _; exists m'; reflexivity. }
  split.
  - rewrite Hiff, existsb_exists. split.
    + intros (v & Hin & Hv). apply in_seq in Hin.
      apply andb_true_iff in Hv. destruct Hv as [Hv Hk].
      apply andb_true_iff in Hv. destruct Hv as [Hc Hd].
      split; [exact Hc|]. split.
      * destruct (GetKind_CHT_Coupling config) as [| | | |raw];
          try discriminate. exists raw. reflexivity.
      * exists v. split; [lia | exact Hd].
    + intros (Hc & [raw Hk] & v & Hlt & Hd).
      exists v. split; [apply in_seq; lia|].
      rewrite Hc, Hd, Hk. reflexivity.
  - unfold BC_Isothermal_Wall.
    destruct (BC_Isothermal_Wall_Generic ComputeStressTensor geometry config
                val_marker false solver) as [after|m] eqn:E.
    + exists after. reflexivity.
    + exfalso.
      assert (H : exists message,
                BC_Isothermal_Wall_Generic ComputeStressTensor geometry config
                  val_marker false solver = Fatal message)
        by (exists m; exact E).
      apply Hiff in H. apply existsb_exists in H.
      destruct H as (v & _ & Hv). cbn in Hv. discriminate.
Qed.

End GenericAborts.

(** * The rows of the Jacobian the wall pass leaves alone *)

Lemma mset_other_row X r c x i j : i <> r -> mset X r c x i j = X i j.
Proof.
  intros H. unfold mset.
  destruct (Nat.eqb_spec i r); [contradiction | reflexivity].
Qed.

Lemma mset_loop_other_row n X r (col : nat -> nat) (x : su2double) i j :
  i <> r ->
  for_loop n (fun X k => mset X r (col k) x) X i j = X i j.
Proof.
  intros H. induction n as [|n IH]; [reflexivity|].
  rewrite for_loop_S, mset_other_row by exact H. exact IH.
Qed.

Lemma energy_row_only_moving ComputeStressTensor solver iPoint Point_Normal
    geometry UnitNormal Area GridVel Jacobian_i Res_Conv Res_Visc :
  energy_row_only (nDim solver) Jacobian_i ->
  energy_row_only (nDim solver)
    (fst (fst (AddDynamicGridResidualContribution ComputeStressTensor solver
                 iPoint Point_Normal geometry UnitNormal Area GridVel
                 Jacobian_i Res_Conv Res_Visc))).
Proof.
  destruct Jacobian_i as [J|]; [|intros _; exact I].
  intros HJ.
  destruct (AddDynamicGridResidualContribution_other_rows ComputeStressTensor
              solver iPoint Point_Normal geometry UnitNormal Area GridVel
              Res_Conv Res_Visc J) as (J' & -> & Hrows).
  intros iVar jVar H. rewrite (Hrows iVar jVar H). apply HJ, H.
Qed.

Lemma energy_row_only_option_map n (f : su2matrix -> su2matrix) Jacobian_i :
  (forall X i j, i <> (n + 1)%nat -> f X i j = X i j) ->
  energy_row_only n Jacobian_i -> energy_row_only n (option_map f Jacobian_i).
Proof.
  intros Hf. destruct Jacobian_i as [J|]; [|intros _; exact I].
  cbn. intros HJ i j H. rewrite Hf by exact H. apply HJ, H.
Qed.

(** With a block that is zero outside the energy row, the outcome of a
    wall vertex leaves the continuity row and the rows past the energy
    row of the Jacobian as they were. *)
Lemma wall_vertex_outcome_Jacobian_rows geometry solver iPoint implicit
    Res_Conv Res_Visc block q jPoint iVar jVar :
  energy_row_only (nDim solver) block ->
  (iVar = 0 \/ nDim solver + 1 < iVar)%nat ->
  Jacobian
    (wall_vertex_outcome geometry solver iPoint implicit Res_Conv Res_Visc block)
    q jPoint iVar jVar
  = Jacobian solver q jPoint iVar jVar.
Proof.
  intros Hb Hrow.
  assert (H2 : Jacobian (add_energy_residual
                           (impose_wall_velocity geometry solver iPoint)
                           iPoint Res_Conv Res_Visc)
               = Jacobian solver) by apply impose_wall_velocity_Jacobian.
  destruct (impose_wall_velocity_keeps geometry solver iPoint) as (Hn & _).
  unfold wall_vertex_outcome. destruct implicit; [|rewrite H2; reflexivity].
  rewrite delete_momentum_rows_Jacobian.
  assert (Hn' : nDim match block with
                     | Some b =>
                         set_Jacobian
                           (add_energy_residual
                              (impose_wall_velocity geometry solver iPoint)
                              iPoint Res_Conv Res_Visc)
                           (SysMatrix.AddBlock2Diag
                              (nVar (add_energy_residual
                                       (impose_wall_velocity geometry solver
                                          iPoint)
                                       iPoint Res_Conv Res_Visc))
                              (Jacobian
                                 (add_energy_residual
                                    (impose_wall_velocity geometry solver
                                       iPoint)
                                    iPoint Res_Conv Res_Visc))
                              iPoint b)
                     | None =>
                         add_energy_residual
                           (impose_wall_velocity geometry solver iPoint)
                           iPoint Res_Conv Res_Visc
                     end = nDim solver) by (destruct block; exact Hn).
  rewrite Hn'.
  replace (Nat.eqb q iPoint && Nat.leb 1 iVar && Nat.leb iVar (nDim solver))
    with false.
  2:{ symmetry. destruct (Nat.leb_spec 1 iVar), (Nat.leb_spec iVar (nDim solver));
        rewrite ?andb_false_r; try reflexivity. lia. }
  destruct block as [b|]; [|rewrite H2; reflexivity].
  cbn [set_Jacobian Jacobian]. unfold SysMatrix.AddBlock2Diag.
  rewrite H2. cbn [energy_row_only] in Hb.
  rewrite (Hb iVar jVar) by lia.
  destruct (_ && _); lra.
Qed.

Section JacobianRows.

Variable ComputeStressTensor : nat -> su2matrix -> su2double -> su2matrix.
Variable geometry : CGeometry.
Variable config : CConfig.
Variable val_marker : nat.

Local Abbreviation implicit :=
  (time_int_eqb (GetKind_TimeIntScheme config) EULER_IMPLICIT).
Local Abbreviation node iVertex :=
  (GetNode (vertex geometry val_marker iVertex)).
Local Abbreviation heat_flux_body :=
  (BC_HeatFlux_Wall_vertex ComputeStressTensor geometry config val_marker).
Local Abbreviation generic_body cht_mode :=
  (BC_Isothermal_Wall_Generic_vertex ComputeStressTensor geometry config
     val_marker cht_mode).

Lemma BC_HeatFlux_Wall_vertex_block solver Wall_HeatFlux Jacobian_i iVertex :
  GetDomain geometry (node iVertex) = true ->
  energy_row_only (nDim solver) Jacobian_i ->
  exists Res_Conv Res_Visc block Wall_HeatFlux' Jacobian_i',
    heat_flux_body (solver, Wall_HeatFlux, Jacobian_i) iVertex
    = (wall_vertex_outcome geometry solver (node iVertex) implicit
         Res_Conv Res_Visc block,
       Wall_HeatFlux', Jacobian_i')
    /\ energy_row_only (nDim solver) block
    /\ energy_row_only (nDim solver) Jacobian_i'.
Proof.
  intros Hdom HJ.
  unfold BC_HeatFlux_Wall_vertex. rewrite Hdom. cbn [negb].
  destruct (impose_wall_velocity_keeps geometry solver (node iVertex))
    as (Hn & Hd & _).
  assert (HJ' : energy_row_only (nDim solver)
                  (fst (fst (BC_HeatFlux_Wall_energy ComputeStressTensor
                               geometry config val_marker
                               (impose_wall_velocity geometry solver
                                  (node iVertex))
                               (if GetMarker_All_PyCustom config val_marker
                                then GetCustomBoundaryHeatFlux geometry
                                       val_marker iVertex
                                else Wall_HeatFlux)
                               Jacobian_i iVertex)))).
  { unfold BC_HeatFlux_Wall_energy. cbv zeta. rewrite Hd, Hn.
    destruct (dynamic_grid solver); [|exact HJ].
    rewrite <- Hn. apply energy_row_only_moving. rewrite Hn.
    destruct implicit; [|exact HJ].
    destruct Jacobian_i as [J|]; [|exact I].
    cbn [option_map energy_row_only] in *. intros iVar jVar H.
    rewrite (mset_loop_other_row _ _ _ (fun iVar => iVar)) by exact H.
    apply HJ, H. }
  destruct (BC_HeatFlux_Wall_energy _ _ _ _ _ _ _ _) as [[J' rc] rv].
  cbn [fst] in HJ'.
  change (dynamic_grid (add_energy_residual ?s _ _ _)) with (dynamic_grid s).
  rewrite Hd.
  exists rc, rv, (if dynamic_grid solver then J' else None).
  do 2 eexists. split; [|split].
  - unfold wall_vertex_outcome.
    destruct implicit; [|reflexivity].
    destruct (dynamic_grid solver); [|reflexivity].
    destruct J'; reflexivity.
  - destruct (dynamic_grid solver); [exact HJ' | exact I].
  - exact HJ'.
Qed.

Lemma BC_Isothermal_Wall_Generic_vertex_block cht_mode solver Twall
    Jacobian_i iVertex :
  GetDomain geometry (node iVertex) = true ->
  energy_row_only (nDim solver) Jacobian_i ->
  (exists message,
     generic_body cht_mode (solver, Twall, Jacobian_i) iVertex = Fatal message)
  \/ exists Res_Conv Res_Visc block Twall' Jacobian_i',
       generic_body cht_mode (solver, Twall, Jacobian_i) iVertex
       = Ok (wall_vertex_outcome geometry solver (node iVertex) implicit
               Res_Conv Res_Visc block,
             Twall', Jacobian_i')
       /\ energy_row_only (nDim solver) block
       /\ energy_row_only (nDim solver) Jacobian_i'.
Proof.
  intros Hdom HJ.
  unfold BC_Isothermal_Wall_Generic_vertex. rewrite Hdom. cbn [negb].
  destruct (Isothermal_Twall _ _ _ _ _ _ _) as [Tw|m];
    [right | left; exists m; reflexivity].
  destruct (impose_wall_velocity_keeps geometry solver (node iVertex))
    as (Hn & _).
  match goal with
  | |- context [if dynamic_grid ?s
                then AddDynamicGridResidualContribution ?C ?s' ?a ?b ?g ?u ?ar
                       ?gv ?J0 ?rc0 ?rv0
                else ?e] =>
      assert (HJ0 : energy_row_only (nDim solver) J0);
      [| assert (HJ' : energy_row_only (nDim solver)
                         (fst (fst (if dynamic_grid s
                                    then AddDynamicGridResidualContribution C
                                           s' a b g u ar gv J0 rc0 rv0
                                    else e))));
         [| destruct (if dynamic_grid s
                      then AddDynamicGridResidualContribution C s' a b g u ar
                             gv J0 rc0 rv0
                      else e) as [[J' rc] rv] ] ]
  end.
  - destruct implicit; [|exact HJ].
    apply energy_row_only_option_map; [|exact HJ].
    intros X i j H. cbv beta.
    rewrite mset_other_row by exact H.
    rewrite (mset_loop_other_row _ _ _ (fun jDim => (jDim + 1)%nat)) by exact H.
    apply mset_other_row, H.
  - destruct (dynamic_grid _); [|exact HJ0].
    rewrite <- Hn. apply energy_row_only_moving. rewrite Hn. exact HJ0.
  - exists rc, rv, J'. do 2 eexists. cbn [fst] in HJ'.
    split; [|split; exact HJ'].
    unfold wall_vertex_outcome. destruct implicit; reflexivity.
Qed.

(** Induction over the vertices of the marker that follows the scratch
    block as well. *)
Lemma wall_pass_block_ind (P : nat -> CNSSolver -> Prop) solver :
  P 0%nat solver ->
  (forall n s, P n s -> nDim s = nDim solver -> P (S n) s) ->
  (forall n s Res_Conv Res_Visc block,
     P n s -> nDim s = nDim solver ->
     energy_row_only (nDim solver) block ->
     P (S n) (wall_vertex_outcome geometry s (node n) implicit
                Res_Conv Res_Visc block)) ->
  P (nVertex geometry val_marker)
    (BC_HeatFlux_Wall ComputeStressTensor geometry config val_marker solver)
  /\ forall cht_mode after,
       BC_Isothermal_Wall_Generic ComputeStressTensor geometry config
         val_marker cht_mode solver = Ok after ->
       P (nVertex geometry val_marker) after.
Proof.
  intros H0 Hskip Hstep. split.
  - unfold BC_HeatFlux_Wall. cbv zeta.
    match goal with
    | |- P _ (fst (fst (for_loop _ _ (_, ?W, ?J)))) =>
        assert (H : forall n,
                  let r := for_loop n heat_flux_body (solver, W, J) in
                  P n (fst (fst r)) /\ nDim (fst (fst r)) = nDim solver
                  /\ energy_row_only (nDim solver) (snd r))
    end.
    { induction n as [|n IH]; cbv zeta.
      - cbn [for_loop seq fold_left fst snd].
        split; [exact H0|]. split; [reflexivity|].
        destruct (dynamic_grid solver && implicit); [|exact I].
        intros i j _. reflexivity.
      - rewrite for_loop_S. cbv zeta in IH.
        destruct (for_loop n _ _) as [[s_n W_n] J_n]. cbn [fst snd] in IH.
        destruct IH as (HP & Hn & HJ).
        destruct (GetDomain geometry (node n)) eqn:Hdom.
        + rewrite <- Hn in HJ.
          destruct (BC_HeatFlux_Wall_vertex_block s_n W_n J_n n Hdom HJ)
            as (rc & rv & b & W' & J' & E & Hb & HJ').
          rewrite E. cbn [fst snd]. rewrite Hn in Hb, HJ'.
          split; [apply Hstep; assumption|]. split; [|exact HJ'].
          destruct (wall_vertex_outcome_keeps geometry s_n (node n) implicit
                      rc rv b) as (K & _).
          rewrite K. exact Hn.
        + unfold BC_HeatFlux_Wall_vertex. rewrite Hdom. cbn [negb fst snd].
          split; [apply Hskip; assumption|]. split; assumption. }
    apply H.
  - intros cht_mode after. unfold BC_Isothermal_Wall_Generic. cbv zeta.
    match goal with
    | |- match for_loop_result _ _ (_, ?W, ?J) with _ => _ end = _ -> _ =>
        assert (H : forall n s',
                  for_loop_result n (generic_body cht_mode) (solver, W, J)
                  = Ok s' ->
                  P n (fst (fst s')) /\ nDim (fst (fst s')) = nDim solver
                  /\ energy_row_only (nDim solver) (snd s'))
    end.
    { induction n as [|n IH]; intros s' Hrun.
      - cbn in Hrun. injection Hrun as <-. cbn [fst snd].
        split; [exact H0|]. split; [reflexivity|].
        destruct implicit; [|exact I]. intros i j _. reflexivity.
      - rewrite for_loop_result_S in Hrun.
        destruct (for_loop_result n _ _) as [[[s_n W_n] J_n]|m];
          [|discriminate].
        destruct (IH _ eq_refl) as (HP & Hn & HJ). cbn [fst snd] in HP, Hn, HJ.
        destruct (GetDomain geometry (node n)) eqn:Hdom.
        + rewrite <- Hn in HJ.
          destruct (BC_Isothermal_Wall_Generic_vertex_block cht_mode s_n W_n
                      J_n n Hdom HJ)
            as [[m E] | (rc & rv & b & W' & J' & E & Hb & HJ')];
            rewrite E in Hrun; [discriminate|].
          injection Hrun as <-. cbn [fst snd]. rewrite Hn in Hb, HJ'.
          split; [apply Hstep; assumption|]. split; [|exact HJ'].
          destruct (wall_vertex_outcome_keeps geometry s_n (node n) implicit
                      rc rv b) as (K & _).
          rewrite K. exact Hn.
        + unfold BC_Isothermal_Wall_Generic_vertex in Hrun.
          rewrite Hdom in Hrun. cbn [negb] in Hrun.
          injection Hrun as <-. cbn [fst snd].
          split; [apply Hskip; assumption|]. split; assumption. }
    match goal with
    | |- match ?run with _ => _ end = _ -> _ =>
        destruct run as [s'|m] eqn:Erun
    end; [|discriminate].
    intros E. injection E as <-. apply (H _ _ Erun).
Qed.

(** X23.  Neither wall pass touches the continuity row of the Jacobian,
    nor any row past the energy row, at any point: under implicit time
    integration it rewrites the momentum rows of the wall points and adds
    to their energy rows, and nothing else. *)
Theorem wall_pass_keeps_continuity_rows solver :
  let kept (after : CNSSolver) :=
    forall iPoint jPoint iVar jVar,
      (iVar = 0 \/ nDim solver + 1 < iVar)%nat ->
      Jacobian after iPoint jPoint iVar jVar
      = Jacobian solver iPoint jPoint iVar jVar in
  kept (BC_HeatFlux_Wall ComputeStressTensor geometry config val_marker solver)
  /\ (forall cht_mode after,
        BC_Isothermal_Wall_Generic ComputeStressTensor geometry config
          val_marker cht_mode solver = Ok after ->
        kept after).
Proof.
  intros kept.
  apply (wall_pass_block_ind
           (fun _ s =>
              forall iPoint jPoint iVar jVar,
                (iVar = 0 \/ nDim solver + 1 < iVar)%nat ->
                Jacobian s iPoint jPoint iVar jVar
                = Jacobian solver iPoint jPoint iVar jVar)).
  - intros. reflexivity.
  - intros n s H _. exact H.
  - intros n s rc rv b H Hn Hb p q iVar jVar Hrow.
    rewrite <- Hn in Hb.
    rewrite (wall_vertex_outcome_Jacobian_rows geometry s (node n) implicit
               rc rv b p q iVar jVar Hb) by (rewrite Hn; lia).
    apply H, Hrow.
Qed.

End JacobianRows.

(** * The wall-function solve: how the loop ends *)


(** A layer at rest keeps every positive guess within the real numbers. *)
Lemma regular_at_rest bl Tau_Wall_Old :
  WallFunction.VelTangMod bl = 0 ->
  0 < WallFunction.Density_Wall bl ->
  0 < WallFunction.Recovery bl ->
  0 < WallFunction.Cp bl * WallFunction.T_Wall bl ->
  WallFunction.WallDistMod bl <> 0 ->
  0 < Tau_Wall_Old ->
  WallFunction.regular bl Tau_Wall_Old.
Proof.
  intros Hrest Hrho Hrec Hcpt Hdist Hpos.
  unfold WallFunction.regular. cbv zeta. rewrite Hrest.
  unfold su2double in *.
  assert (Hq : 0 < Tau_Wall_Old / WallFunction.Density_Wall bl)
    by (apply Rdiv_lt_0_compat; assumption).
  set (U_Tau := sqrt (Tau_Wall_Old / WallFunction.Density_Wall bl)) in *.
  assert (HU : 0 < U_Tau) by (apply sqrt_lt_R0; exact Hq).
  rewrite (pow_square U_Tau 2) by reflexivity.
  set (Gam := WallFunction.Recovery bl * (U_Tau * U_Tau)
              / (2.0 * WallFunction.Cp bl * WallFunction.T_Wall bl)) in *.
  assert (HG : 0 < Gam).
  { unfold Gam. apply Rdiv_lt_0_compat; [|lra].
    apply Rmult_lt_0_compat; [exact Hrec|]. apply Rmult_lt_0_compat; exact HU. }
  assert (H0 : 0.0 = 0) by lra. rewrite !H0.
  replace (0 * 0 + 4.0 * Gam) with (4 * Gam) by lra.
  assert (HQ : 0 < sqrt (4 * Gam)) by (apply sqrt_lt_R0; lra).
  assert (HsG : 0 < sqrt Gam) by (apply sqrt_lt_R0; exact HG).
  assert (Hz1 : -1.0 * 0 / sqrt (4 * Gam) = 0) by (unfold Rdiv; ring).
  assert (Hz2 : (2.0 * Gam * (0 / U_Tau) - 0) / sqrt (4 * Gam) = 0)
    by (unfold Rdiv; ring).
  rewrite Hz1, Hz2.
  repeat split; lra.
Qed.

(** The boundary layer of the wall vertex of [wall_geometry] under the
    unit shear: at rest, with positive density, recovery factor, heat
    capacity and wall temperature, one unit away from the wall. *)
Lemma boundary_layer_on_shear c :
  let bl :=
    WallFunction.boundary_layer wall_geometry hot_wall_config (shear_solver c)
      0 0 in
  WallFunction.VelTangMod bl = 0
  /\ 0 < WallFunction.Density_Wall bl
  /\ 0 < WallFunction.Recovery bl
  /\ 0 < WallFunction.Cp bl * WallFunction.T_Wall bl
  /\ WallFunction.WallDistMod bl <> 0.
Proof.
  intros bl.
  assert (Hrest : WallFunction.VelTangMod bl = 0) by apply VelTangMod_on_shear.
  assert (Hrec : 0 < WallFunction.Recovery bl).
  { unfold bl, WallFunction.boundary_layer. cbn [WallFunction.Recovery].
    unfold cmath.pow. cbn [GetPrandtl_Lam hot_wall_config].
    destruct (Req_EM_T _ _) as [_|_].
    - apply powerRZ_lt. lra.
    - destruct (Rlt_dec 0 1) as [_|N]; [|exfalso; apply N; lra].
      unfold Rpower. apply exp_pos. }
  assert (Hcp : WallFunction.Cp bl = 2).
  { unfold bl, WallFunction.boundary_layer. cbn. unfold su2double. field. }
  assert (HT : WallFunction.T_Wall bl = 1).
  { unfold bl, WallFunction.boundary_layer in *.
    cbn [WallFunction.T_Wall WallFunction.VelTangMod] in *.
    rewrite Hrest. rewrite (pow_square 0 2.0) by lra.
    unfold CVariable.GetTemperature. cbn. unfold su2double in *.
    unfold Rdiv. ring. }
  assert (Hrho : WallFunction.Density_Wall bl = 1).
  { unfold bl, WallFunction.boundary_layer in *.
    cbn [WallFunction.T_Wall WallFunction.Density_Wall] in *.
    rewrite HT. unfold CVariable.GetPressure. cbn. unfold su2double in *.
    field. }
  assert (Hdist : WallFunction.WallDistMod bl = 1).
  { unfold bl, WallFunction.boundary_layer.
    cbn [WallFunction.WallDistMod].
    unfold GeometryToolbox.Norm, GeometryToolbox.SquaredNorm,
      GeometryToolbox.DistanceVec, MAXNDIM.
    cbn. unfold vset, zeros, vfill. cbn.
    match goal with |- sqrt ?e = 1 => replace e with 1 by lra end.
    apply sqrt_1. }
  split; [exact Hrest|]. rewrite Hrho, Hcp, HT, Hdist.
  repeat split; lra.
Qed.




(** X13.  A guess that keeps the loop body within the real numbers and
    that the update moves by no more than the tolerance is accepted
    after a single pass without a warning, and what comes back is the
    update of the guess, not the guess. *)
Theorem WallFunction_solve_one_pass bl guess :
  WallFunction.regular bl guess ->
  cmath.fabs (WallFunction.Tau_Wall_update bl guess - guess)
  <= WallFunction.tol ->
  let it := WallFunction.solve bl guess in
  WallFunction.it_Tau_Wall it = WallFunction.Tau_Wall_update bl guess
  /\ WallFunction.it_counter it = 1%nat
  /\ WallFunction.it_cout it = [].
Proof.
  intros _ Hconv it.
  assert (Hit : it = WallFunction.body bl (WallFunction.start guess)).
  { unfold it, WallFunction.solve.
    change (S WallFunction.max_iter) with 11%nat. rewrite while_unfold.
    destruct (Rgt_dec _ _) as [_|N].
    2:{ exfalso. apply N. cbn. unfold WallFunction.tol. lra. }
    cbn [WallFunction.body WallFunction.start WallFunction.it_counter].
    replace (Nat.ltb WallFunction.max_iter 1) with false by reflexivity.
    rewrite while_unfold.
    destruct (Rgt_dec _ _) as [G|_]; [|reflexivity].
    exfalso.
    cbn [WallFunction.body WallFunction.start WallFunction.it_diff
         WallFunction.it_Tau_Wall_Old] in G.
    unfold su2double in *. lra. }
  rewrite Hit. repeat split.
Qed.

(** On [wall_geometry], with the fluid at rest, the update of the guess
    1e-7 is 0, a change within the tolerance: the solve takes one pass
    and returns 0. *)
Lemma WallFunction_solve_one_pass_at_rest :
  let bl :=
    WallFunction.boundary_layer wall_geometry hot_wall_config (shear_solver 5)
      0 0 in
  WallFunction.regular bl 1e-7
  /\ cmath.fabs (WallFunction.Tau_Wall_update bl 1e-7 - 1e-7)
     <= WallFunction.tol
  /\ WallFunction.it_Tau_Wall (WallFunction.solve bl 1e-7) = 0
  /\ WallFunction.it_counter (WallFunction.solve bl 1e-7) = 1%nat.
Proof.
  intros bl.
  destruct (boundary_layer_on_shear 5) as (Hrest & Hrho & Hrec & Hcpt & Hdist).
  fold bl in Hrest, Hrho, Hrec, Hcpt, Hdist.
  assert (Hreg : WallFunction.regular bl 1e-7)
    by (apply regular_at_rest; try assumption; lra).
  assert (Hu : WallFunction.Tau_Wall_update bl 1e-7 = 0)
    by apply Tau_Wall_update_at_rest, Hrest.
  assert (Hc : cmath.fabs (WallFunction.Tau_Wall_update bl 1e-7 - 1e-7)
               <= WallFunction.tol).
  { rewrite Hu. unfold cmath.fabs, WallFunction.tol.
    rewrite Rabs_left by lra. lra. }
  split; [exact Hreg|]. split; [exact Hc|].
  destruct (WallFunction_solve_one_pass bl 1e-7 Hreg Hc) as (Ht & Hn & _).
  split; [rewrite Ht; exact Hu | exact Hn].
Defined.

(** * The wall-function pass: what it writes, and running it again *)

Lemma for_loop_ind {S : Type} (P : nat -> S -> Prop) (body : S -> nat -> S)
    (n : nat) (s : S) :
  P 0%nat s ->
  (forall k a, (k < n)%nat -> P k a -> P (Datatypes.S k) (body a k)) ->
  P n (for_loop n body s).
Proof.
  intros H0 Hstep.
  assert (H : forall k, (k <= n)%nat -> P k (for_loop k body s)).
  { induction k as [|k IH]; intros Hk; [exact H0|].
    rewrite for_loop_S. apply Hstep; [lia|]. apply IH. lia. }
  apply H. lia.
Qed.

Lemma for_loop_sim {S : Type} (R : nat -> S -> S -> Prop)
    (body : S -> nat -> S) (n : nat) (s s' : S) :
  R 0%nat s s' ->
  (forall k a a', (k < n)%nat -> R k a a' ->
     R (Datatypes.S k) (body a k) (body a' k)) ->
  R n (for_loop n body s) (for_loop n body s').
Proof.
  intros H0 Hstep.
  assert (H : forall k, (k <= n)%nat ->
                R k (for_loop k body s) (for_loop k body s')).
  { induction k as [|k IH]; intros Hk; [exact H0|].
    rewrite !for_loop_S. apply Hstep; [lia|]. apply IH. lia. }
  apply H. lia.
Qed.

Lemma same_but_Tau_Wall_refl s : same_but_Tau_Wall s s.
Proof. unfold same_but_Tau_Wall. repeat split. Qed.

Lemma same_but_Tau_Wall_sym s s' :
  same_but_Tau_Wall s s' -> same_but_Tau_Wall s' s.
Proof.
  unfold same_but_Tau_Wall. intros H.
  repeat match type of H with _ /\ _ => destruct H as [?E H] end.
  repeat split; symmetry; assumption.
Qed.

Lemma same_but_Tau_Wall_trans s1 s2 s3 :
  same_but_Tau_Wall s1 s2 -> same_but_Tau_Wall s2 s3 ->
  same_but_Tau_Wall s1 s3.
Proof.
  unfold same_but_Tau_Wall. intros H G.
  repeat match type of H with _ /\ _ => destruct H as [?E H] end.
  repeat match type of G with _ /\ _ => destruct G as [?F G] end.
  repeat split; etransitivity; eassumption.
Qed.

Lemma SetTauWall_same_but_Tau_Wall solver iPoint val :
  same_but_Tau_Wall solver
    (set_nodes solver (CVariable.SetTauWall (nodes solver) iPoint val)).
Proof. unfold same_but_Tau_Wall. cbn. repeat split. Qed.

Section WallFunctionPass.

Variable ComputeStressTensor : nat -> su2matrix -> su2double -> su2matrix.
Variable geometry : CGeometry.
Variable config : CConfig.

Local Abbreviation node iMarker iVertex :=
  (GetNode (vertex geometry iMarker iVertex)).
Local Abbreviation vertex_body iMarker :=
  (WallFunction.SetTauWall_WF_vertex ComputeStressTensor geometry config iMarker).
Local Abbreviation marker_body :=
  (WallFunction.SetTauWall_WF_marker ComputeStressTensor geometry config).

(** The value the pass stores for a vertex depends on the solver only
    through what [same_but_Tau_Wall] keeps. *)
Lemma wall_function_inputs s s' iMarker iVertex :
  same_but_Tau_Wall s s' ->
  WallFunction.boundary_layer geometry config s' iMarker iVertex
  = WallFunction.boundary_layer geometry config s iMarker iVertex
  /\ WallFunction.starting_guess ComputeStressTensor geometry s' iMarker iVertex
     = WallFunction.starting_guess ComputeStressTensor geometry s iMarker
         iVertex.
Proof.
  intros (Hn & _ & Hg & Hg1 & _ & _ & Hp & _ & Hgr & _).
  unfold WallFunction.boundary_layer, WallFunction.starting_guess,
    WallFunction.UnitNormal, velocity_gradient, CVariable.GetVelocity,
    CVariable.GetPressure, CVariable.GetTemperature,
    CVariable.GetLaminarViscosity.
  rewrite Hn, Hg, Hg1, Hp, Hgr. split; reflexivity.
Qed.

(** One vertex, run from two solvers that differ at most in the cache. *)
Lemma SetTauWall_WF_vertex_sim iMarker iVertex s s' cout :
  same_but_Tau_Wall s s' ->
  let r := vertex_body iMarker (s, cout) iVertex in
  let r' := vertex_body iMarker (s', cout) iVertex in
  same_but_Tau_Wall s (fst r)
  /\ same_but_Tau_Wall (fst r) (fst r')
  /\ snd r = snd r'
  /\ (forall p, Tau_Wall (nodes s) p = Tau_Wall (nodes s') p ->
        Tau_Wall (nodes (fst r)) p = Tau_Wall (nodes (fst r')) p)
  /\ (GetDomain geometry (node iMarker iVertex) = true ->
      Tau_Wall (nodes (fst r)) (node iMarker iVertex)
      = Tau_Wall (nodes (fst r')) (node iMarker iVertex))
  /\ (forall p,
        (GetDomain geometry (node iMarker iVertex) = true ->
         node iMarker iVertex <> p) ->
        Tau_Wall (nodes (fst r)) p = Tau_Wall (nodes s) p).
Proof.
  intros Hs r r'. unfold r, r', WallFunction.SetTauWall_WF_vertex.
  destruct (GetDomain geometry (node iMarker iVertex)) eqn:Hdom; cbn [negb].
  - destruct (wall_function_inputs s s' iMarker iVertex Hs) as [-> ->].
    cbn [fst snd].
    split; [apply SetTauWall_same_but_Tau_Wall|]. split.
    { eapply same_but_Tau_Wall_trans;
        [apply same_but_Tau_Wall_sym, SetTauWall_same_but_Tau_Wall|].
      eapply same_but_Tau_Wall_trans; [exact Hs|].
      apply SetTauWall_same_but_Tau_Wall. }
    split; [reflexivity|]. split.
    { intros p Hp. cbn. rewrite Hp. reflexivity. }
    split.
    { intros _. cbn. rewrite Nat.eqb_refl. reflexivity. }
    intros p Hp. cbn.
    destruct (Nat.eqb_spec p (node iMarker iVertex)) as [->|_];
      [exfalso; apply (Hp eq_refl); reflexivity | reflexivity].
  - cbn [fst snd]. split; [apply same_but_Tau_Wall_refl|].
    split; [exact Hs|]. split; [reflexivity|].
    split; [intros p Hp; exact Hp|]. split; [discriminate|].
    intros p _. reflexivity.
Qed.

(** The points the pass has solved for after the first [n] vertices of
    the marker [iMarker], and after the first [n] markers. *)
Local Abbreviation solved_in_marker iMarker n p :=
  (exists iVertex, (iVertex < n)%nat
     /\ GetDomain geometry (node iMarker iVertex) = true
     /\ node iMarker iVertex = p).

Local Abbreviation solved n p :=
  (exists iMarker iVertex, (iMarker < n)%nat
     /\ GetViscous_Wall config iMarker = true
     /\ (iVertex < nVertex geometry iMarker)%nat
     /\ GetDomain geometry (node iMarker iVertex) = true
     /\ node iMarker iVertex = p).

(** The relation the two runs keep, over a growing set of points. *)
Local Abbreviation runs_agree done s0 s0' r r' :=
  (same_but_Tau_Wall s0 (fst r)
   /\ same_but_Tau_Wall (fst r) (fst r')
   /\ snd r = snd r'
   /\ (forall p, Tau_Wall (nodes s0) p = Tau_Wall (nodes s0') p \/ done p ->
         Tau_Wall (nodes (fst r)) p = Tau_Wall (nodes (fst r')) p)
   /\ (forall p, ~ done p -> Tau_Wall (nodes (fst r)) p = Tau_Wall (nodes s0) p)).

Lemma SetTauWall_WF_marker_sim iMarker s0 s0' r r' (done : nat -> Prop) :
  runs_agree done s0 s0' r r' ->
  runs_agree
    (fun p => done p
              \/ (GetViscous_Wall config iMarker = true
                  /\ solved_in_marker iMarker (nVertex geometry iMarker) p))
    s0 s0' (marker_body r iMarker) (marker_body r' iMarker).
Proof.
  intros (K & S & C & A & F).
  unfold WallFunction.SetTauWall_WF_marker.
  destruct (GetViscous_Wall config iMarker) eqn:Hv; cbn [negb].
  2:{ split; [exact K|]. split; [exact S|]. split; [exact C|]. split.
      - intros p [H | [H | [H _]]]; [apply A; left; exact H
                                    | apply A; right; exact H | discriminate].
      - intros p Hp. apply F. intros H. apply Hp. left. exact H. }
  apply (for_loop_sim
           (fun n a a' =>
              runs_agree
                (fun p => done p \/ (true = true /\ solved_in_marker iMarker n p))
                s0 s0' a a')).
  - split; [exact K|]. split; [exact S|]. split; [exact C|]. split.
    + intros p [H | [H | [_ (v & Hlt & _)]]]; [apply A; left; exact H
                                             | apply A; right; exact H | lia].
    + intros p Hp. apply F. intros H. apply Hp. left. exact H.
  - intros n [s c] [s' c'] Hn (K1 & S1 & C1 & A1 & F1).
    cbn [fst snd] in *. subst c'.
    destruct (SetTauWall_WF_vertex_sim iMarker n s s' c S1)
      as (Ka & Sa & Ca & Aa & Da & Fa).
    cbv zeta in *.
    split; [eapply same_but_Tau_Wall_trans; eassumption|].
    split; [exact Sa|]. split; [exact Ca|]. split.
    + intros p Hp.
      destruct (GetDomain geometry (node iMarker n)) eqn:Hdom.
      * destruct (Nat.eq_dec (node iMarker n) p) as [<-|Hne];
          [apply Da; reflexivity|].
        apply Aa, A1.
        destruct Hp as [H | [H | [_ (v & Hlt & Hd & Hp)]]];
          [left; exact H | right; left; exact H |].
        right. right. split; [reflexivity|]. exists v.
        split; [|split; assumption].
        destruct (Nat.eq_dec v n) as [->|]; [contradiction | lia].
      * apply Aa, A1.
        destruct Hp as [H | [H | [_ (v & Hlt & Hd & Hp)]]];
          [left; exact H | right; left; exact H |].
        right. right. split; [reflexivity|]. exists v.
        split; [|split; assumption].
        destruct (Nat.eq_dec v n) as [->|]; [congruence | lia].
    + intros p Hp. rewrite Fa.
      * apply F1. intros [H | [_ (v & Hlt & Hd & Hv')]]; apply Hp;
          [left; exact H|].
        right. split; [reflexivity|]. exists v. split; [lia|].
        split; assumption.
      * intros Hdom Heq. apply Hp. right. split; [reflexivity|].
        exists n. split; [lia|]. split; assumption.
Qed.

Lemma SetTauWall_WF_sim s s' :
  same_but_Tau_Wall s s' ->
  runs_agree (wall_function_point geometry config) s s'
    (WallFunction.SetTauWall_WF ComputeStressTensor geometry config s)
    (WallFunction.SetTauWall_WF ComputeStressTensor geometry config s').
Proof.
  intros Hs. unfold WallFunction.SetTauWall_WF.
  assert (H : runs_agree (fun p => solved (GetnMarker_All config) p) s s'
                (for_loop (GetnMarker_All config) marker_body (s, []))
                (for_loop (GetnMarker_All config) marker_body (s', []))).
  { apply (for_loop_sim (fun n a a' => runs_agree (fun p => solved n p) s s' a a')).
    - cbn [fst snd]. split; [apply same_but_Tau_Wall_refl|].
      split; [exact Hs|]. split; [reflexivity|]. split.
      + intros p [H | (m & v & Hlt & _)]; [exact H | lia].
      + intros p _. reflexivity.
    - intros n a a' Hn Hra.
      pose proof (SetTauWall_WF_marker_sim n s s' a a' (fun p => solved n p) Hra)
        as (K & S & C & A & F).
      split; [exact K|]. split; [exact S|]. split; [exact C|]. split.
      + intros p [H | (m & v & Hm & Hw & Hv & Hd & Hp)];
          [apply A; left; exact H|].
        apply A. right.
        destruct (Nat.eq_dec m n) as [->|Hne].
        * right. split; [exact Hw|]. exists v. repeat split; assumption.
        * left. exists m, v. repeat split; try assumption. lia.
      + intros p Hp. apply F.
        intros [(m & v & Hm & Hw & Hv & Hd & Hpe)
               | [Hw (v & Hv & Hd & Hpe)]]; apply Hp.
        * exists m, v. repeat split; try assumption. lia.
        * exists n, v. repeat split; try assumption. lia. }
  exact H.
Qed.

(** X14.  The wall-function pass writes nothing but the cached wall
    shear stress, and that only at the points of domain-owned vertices
    of viscous wall markers: every other member of the solver and the
    cache of every other point are left as they were. *)
Theorem SetTauWall_WF_writes_cache_only solver :
  let after :=
    fst (WallFunction.SetTauWall_WF ComputeStressTensor geometry config solver) in
  same_but_Tau_Wall solver after
  /\ forall p, ~ wall_function_point geometry config p ->
       Tau_Wall (nodes after) p = Tau_Wall (nodes solver) p.
Proof.
  intros after.
  destruct (SetTauWall_WF_sim solver solver (same_but_Tau_Wall_refl solver))
    as (K & _ & _ & _ & F).
  split; [exact K | exact F].
Qed.

(** X15.  Running the wall-function pass a second time changes nothing:
    the cache holds the same wall shear stress at every point and the
    same warnings are printed again, because the solve of a vertex starts
    from the stress tensor and reads nothing the pass writes. *)
Theorem SetTauWall_WF_idempotent solver :
  let once :=
    WallFunction.SetTauWall_WF ComputeStressTensor geometry config solver in
  let twice :=
    WallFunction.SetTauWall_WF ComputeStressTensor geometry config (fst once) in
  (forall p, Tau_Wall (nodes (fst twice)) p = Tau_Wall (nodes (fst once)) p)
  /\ snd twice = snd once.
Proof.
  intros once twice.
  destruct (SetTauWall_WF_sim solver solver (same_but_Tau_Wall_refl solver))
    as (K & _ & _ & _ & F). fold once in K, F.
  destruct (SetTauWall_WF_sim solver (fst once) K) as (_ & _ & C & A & _).
  fold once twice in C, A. split; [|symmetry; exact C].
  intros p.
  destruct (SetTauWall_WF_sim (fst once) (fst once)
              (same_but_Tau_Wall_refl (fst once))) as (_ & _ & _ & _ & F2).
  fold twice in F2.
  destruct (Req_dec (Tau_Wall (nodes (fst twice)) p)
              (Tau_Wall (nodes (fst once)) p)) as [E|N]; [exact E|].
  exfalso. apply N. apply F2. intros W. apply N. symmetry. apply A.
  right. exact W.
Qed.

End WallFunctionPass.

(** * The buffet monitor: ranges, and stale values *)

Lemma accumulate_le n f g :
  (forall i, (i < n)%nat -> f i <= g i) -> accumulate n f <= accumulate n g.
Proof.
  induction n as [|n IH]; intros H; cbn; [lra|].
  assert (accumulate n f <= accumulate n g) by (apply IH; intros i Hi; apply H; lia).
  assert (f n <= g n) by (apply H; lia). lra.
Qed.

Lemma accumulate_nonneg n f :
  (forall i, (i < n)%nat -> 0 <= f i) -> 0 <= accumulate n f.
Proof.
  induction n as [|n IH]; intros H; cbn; [lra|].
  assert (0 <= accumulate n f) by (apply IH; intros i Hi; apply H; lia).
  assert (0 <= f n) by (apply H; lia). lra.
Qed.

Lemma buffet_sensor_range config solver iMarker iVertex :
  0 < buffet_sensor config solver iMarker iVertex < 1.
Proof.
  unfold buffet_sensor.
  match goal with
  | |- 0 < 1 / (1 + exp ?x) < 1 =>
      pose proof (exp_pos x) as E; set (e := exp x) in *
  end.
  split.
  - apply Rdiv_lt_0_compat; lra.
  - apply (Rmult_lt_reg_r (1 + e)); [lra|].
    unfold Rdiv. rewrite Rmult_assoc, Rinv_l by lra. lra.
Qed.

Lemma face_area_nonneg geometry solver iMarker iVertex :
  0 <= face_area geometry solver iMarker iVertex.
Proof. unfold face_area, GeometryToolbox.Norm. apply sqrt_pos. Qed.

Lemma marker_metric_range geometry config solver iMarker :
  0 < GetRefArea config ->
  0 <= marker_metric geometry config solver iMarker
    <= wall_area geometry solver iMarker / GetRefArea config.
Proof.
  intros Href. unfold marker_metric, wall_area.
  assert (Hinv : 0 < / GetRefArea config) by (apply Rinv_0_lt_compat; exact Href).
  split.
  - apply accumulate_nonneg. intros v _.
    pose proof (buffet_sensor_range config solver iMarker v).
    pose proof (face_area_nonneg geometry solver iMarker v).
    unfold Rdiv. apply Rmult_le_pos; [apply Rmult_le_pos|]; lra.
  - apply (Rle_trans _
             (accumulate (nVertex geometry iMarker) (fun v =>
                face_area geometry solver iMarker v / GetRefArea config))).
    + apply accumulate_le. intros v _.
      pose proof (buffet_sensor_range config solver iMarker v).
      pose proof (face_area_nonneg geometry solver iMarker v).
      unfold Rdiv. apply Rmult_le_compat_r; [lra|]. nra.
    + clear. induction (nVertex geometry iMarker) as [|n IH]; cbn; [lra|].
      unfold Rdiv in *. lra.
Qed.

(** X16.  With a positive reference area, a non-zero freestream velocity
    and a non-zero skin friction at every wall vertex (so that the
    normalized dot product is a number), after [Buffet_Monitoring] on a
    rank every sensor value of a viscous wall marker lies strictly
    between 0 and 1, every marker's metric lies between 0 and the
    marker's area over the reference area, and so the total lies between
    0 and the total area over the reference area. *)
Theorem Buffet_Monitoring_ranges geometry config solver :
  0 < GetRefArea config ->
  0 < freestream_speed config solver ->
  (forall iMarker iVertex,
     (iMarker < nMarker solver)%nat ->
     buffet_wall (GetMarker_All_KindBC config iMarker) = true ->
     (iVertex < nVertex geometry iMarker)%nat ->
     0 < skin_friction_magnitude solver iMarker iVertex) ->
  let s := Buffet_Monitoring_local geometry config solver in
  (forall iMarker iVertex,
     (iMarker < nMarker solver)%nat ->
     buffet_wall (GetMarker_All_KindBC config iMarker) = true ->
     (iVertex < nVertex geometry iMarker)%nat ->
     0 < Buffet_Sensor s iMarker iVertex < 1)
  /\ (forall iMarker, (iMarker < nMarker solver)%nat ->
        0 <= Buffet_Metric s iMarker
          <= wall_area geometry solver iMarker / GetRefArea config)
  /\ 0 <= Total_Buffet_Metric s
       <= accumulate (nMarker solver) (fun iMarker =>
            wall_area geometry solver iMarker / GetRefArea config).
Proof.
  intros Href _ _ s.
  destruct (Buffet_Monitoring_local_metrics geometry config solver)
    as (Hsens & Hmet & Htot & _).
  fold s in Hsens, Hmet, Htot.
  assert (Hm : forall iMarker,
            0 <= (if monitored_wall config iMarker
                  then marker_metric geometry config solver iMarker else 0)
              <= wall_area geometry solver iMarker / GetRefArea config).
  { intros m.
    pose proof (marker_metric_range geometry config solver m Href) as Hr.
    destruct (monitored_wall config m); lra. }
  split; [|split].
  - intros m v H1 H2 H3. rewrite (Hsens m v H1 H2 H3).
    apply buffet_sensor_range.
  - intros m H1. rewrite (Hmet m H1). apply Hm.
  - rewrite Htot. unfold total_metric. split.
    + apply accumulate_nonneg. intros m _. apply Hm.
    + apply accumulate_le. intros m _. apply Hm.
Qed.

(** On the four-vertex wall the freestream has speed 1 and the skin
    friction magnitude 1 at every vertex. *)
Lemma Buffet_Monitoring_ranges_on_wall :
  let config :=
    wall_config EULER_IMPLICIT HEAT_FLUX DIRECT_TEMPERATURE_NEUMANN_HEATFLUX in
  let s :=
    Buffet_Monitoring_local (fst undivided_wall) config (snd undivided_wall) in
  0 < GetRefArea config
  /\ 0 < freestream_speed config (snd undivided_wall)
  /\ 0 < Buffet_Sensor s 0 3 < 1
  /\ 0 <= Total_Buffet_Metric s.
Proof.
  intros config s.
  assert (H1 : 0 < GetRefArea config) by (cbn; lra).
  assert (H2 : 0 < freestream_speed config (snd undivided_wall)).
  { unfold freestream_speed. apply sqrt_lt_R0. cbn. unfold vset, zeros. cbn.
    lra. }
  assert (H3 : forall iMarker iVertex,
            (iMarker < nMarker (snd undivided_wall))%nat ->
            buffet_wall (GetMarker_All_KindBC config iMarker) = true ->
            (iVertex < nVertex (fst undivided_wall) iMarker)%nat ->
            0 < skin_friction_magnitude (snd undivided_wall) iMarker iVertex).
  { intros m v _ _ _. unfold skin_friction_magnitude. apply sqrt_lt_R0.
    cbn. unfold strip_friction. cbn. destruct (Nat.even v); lra. }
  destruct (Buffet_Monitoring_ranges (fst undivided_wall) config
              (snd undivided_wall) H1 H2 H3) as (Hs & _ & Ht).
  split; [exact H1|]. split; [exact H2|]. split.
  - apply Hs; [cbn; lia | reflexivity | cbn; lia].
  - apply Ht.
Defined.

(** * Stale metrics *)

Lemma total_metric_inputs geometry config s s' :
  nDim s' = nDim s -> nMarker s' = nMarker s ->
  CSkinFriction s' = CSkinFriction s ->
  total_metric geometry config s' = total_metric geometry config s.
Proof.
  intros Hn Hm Hc. unfold total_metric. rewrite Hm.
  apply accumulate_ext. intros m _.
  rewrite (marker_metric_inputs geometry config s s' m Hn Hc). reflexivity.
Qed.

Lemma Buffet_Monitoring_local_keeps geometry config solver :
  let s := Buffet_Monitoring_local geometry config solver in
  nDim s = nDim solver /\ nMarker s = nMarker solver
  /\ CSkinFriction s = CSkinFriction solver.
Proof.
  unfold Buffet_Monitoring_local. cbv zeta.
  pose proof (zero_surface_loop (set_Total_Buffet_Metric solver 0)
                (GetnMarker_Monitoring config)) as Hz.
  cbn zeta in Hz. set (s0 := for_loop (GetnMarker_Monitoring config) _ _) in *.
  destruct Hz as ((Zn & Zm & Zc & Zt & Zo) & Zsurf).
  cbn [set_Total_Buffet_Metric nDim nMarker CSkinFriction Total_Buffet_Metric
       Total_ComboObj Surface_Buffet_Metric] in Zn, Zm, Zc, Zt, Zo, Zsurf.
  assert (Hspeed :
    sqrt (accumulate (nDim solver) (fun iDim =>
            GetVelocity_FreeStream config iDim
            * GetVelocity_FreeStream config iDim))
    = freestream_speed config s0).
  { unfold freestream_speed. rewrite Zn. reflexivity. }
  rewrite Hspeed.
  pose proof (Buffet_Monitoring_marker_loop geometry config s0 (nMarker s0))
    as Hl.
  cbn zeta in Hl.
  destruct Hl as ((Ln & Lm & Lc & Lo) & _).
  { intros i Hi. rewrite Zsurf.
    replace (Nat.ltb i (GetnMarker_Monitoring config)) with true
      by (symmetry; apply Nat.ltb_lt; exact Hi).
    reflexivity. }
  rewrite Ln, Lm, Lc. repeat split; assumption.
Qed.

Lemma Buffet_Monitoring_local_inputs geometry config s s' :
  nDim s' = nDim s -> nMarker s' = nMarker s ->
  CSkinFriction s' = CSkinFriction s ->
  let r := Buffet_Monitoring_local geometry config s in
  let r' := Buffet_Monitoring_local geometry config s' in
  Total_Buffet_Metric r' = Total_Buffet_Metric r
  /\ (forall iMarker, (iMarker < nMarker s)%nat ->
        Buffet_Metric r' iMarker = Buffet_Metric r iMarker)
  /\ (forall i, (i < GetnMarker_Monitoring config)%nat ->
        Surface_Buffet_Metric r' i = Surface_Buffet_Metric r i)
  /\ (forall iMarker iVertex,
        (iMarker < nMarker s)%nat ->
        buffet_wall (GetMarker_All_KindBC config iMarker) = true ->
        (iVertex < nVertex geometry iMarker)%nat ->
        Buffet_Sensor r' iMarker iVertex = Buffet_Sensor r iMarker iVertex).
Proof.
  intros Hn Hm Hc r r'.
  destruct (Buffet_Monitoring_local_metrics geometry config s)
    as (S1 & M1 & T1 & F1 & _).
  destruct (Buffet_Monitoring_local_metrics geometry config s')
    as (S2 & M2 & T2 & F2 & _).
  fold r in S1, M1, T1, F1. fold r' in S2, M2, T2, F2.
  rewrite Hm in S2, M2, F2.
  split; [|split; [|split]].
  - rewrite T1, T2. apply total_metric_inputs; assumption.
  - intros m H. rewrite (M1 m H), (M2 m H).
    rewrite (marker_metric_inputs geometry config s s' m Hn Hc). reflexivity.
  - intros i H. rewrite (F1 i H), (F2 i H).
    apply surface_metric_inputs; assumption.
  - intros m v H1 H2 H3. rewrite (S1 m v H1 H2 H3), (S2 m v H1 H2 H3).
    apply buffet_sensor_inputs; assumption.
Qed.

(** X17.  [Buffet_Monitoring] on a rank starts afresh every time: the
    sensor values of the wall vertices, the markers' metrics, the
    surface metrics and the total come out the same whatever the four
    buffet members held before, and so running the monitor a second time
    reproduces them. *)
Theorem Buffet_Monitoring_forgets_stale_values geometry config solver :
  let once := Buffet_Monitoring_local geometry config solver in
  let same_metrics (s : CNSSolver) :=
    Total_Buffet_Metric s = Total_Buffet_Metric once
    /\ (forall iMarker, (iMarker < nMarker solver)%nat ->
          Buffet_Metric s iMarker = Buffet_Metric once iMarker)
    /\ (forall i, (i < GetnMarker_Monitoring config)%nat ->
          Surface_Buffet_Metric s i = Surface_Buffet_Metric once i)
    /\ (forall iMarker iVertex,
          (iMarker < nMarker solver)%nat ->
          buffet_wall (GetMarker_All_KindBC config iMarker) = true ->
          (iVertex < nVertex geometry iMarker)%nat ->
          Buffet_Sensor s iMarker iVertex = Buffet_Sensor once iMarker iVertex) in
  (forall sensor metric surface total,
     same_metrics
       (Buffet_Monitoring_local geometry config
          (with_stale_metrics solver sensor metric surface total)))
  /\ same_metrics (Buffet_Monitoring_local geometry config once).
Proof.
  intros once same_metrics. split.
  - intros sensor metric surface total.
    apply (Buffet_Monitoring_local_inputs geometry config solver
             (with_stale_metrics solver sensor metric surface total));
      reflexivity.
  - destruct (Buffet_Monitoring_local_keeps geometry config solver)
      as (Hn & Hm & Hc).
    apply (Buffet_Monitoring_local_inputs geometry config solver once);
      assumption.
Qed.

(** * The edge viscous flux assembler: conservation and order *)

Section ViscousResidualOrder.

Variable ComputeResidual : CNumerics -> CConfig -> ResidualType.
Variable geometry : CGeometry.
Variable TURB_SOL : CTurbVariable.
Variable config : CConfig.

Local Abbreviation VR iEdge numerics solver :=
  (Viscous_Residual ComputeResidual iEdge geometry TURB_SOL numerics config
     solver).
Local Abbreviation flux iEdge numerics solver :=
  (Viscous_Residual_flux ComputeResidual iEdge geometry TURB_SOL numerics
     config solver).

Lemma Viscous_Residual_as_scatter iEdge numerics solver :
  VR iEdge numerics solver
  = (Viscous_Residual_numerics iEdge geometry TURB_SOL numerics config solver,
     Viscous_Residual_scatter iEdge geometry config (flux iEdge numerics solver)
       solver).
Proof. reflexivity. Qed.

Lemma Viscous_Residual_scatter_keeps iEdge res solver :
  let s := Viscous_Residual_scatter iEdge geometry config res solver in
  nodes s = nodes solver /\ nDim s = nDim solver
  /\ ReducerStrategy s = ReducerStrategy solver.
Proof.
  unfold Viscous_Residual_scatter, Viscous_Residual. cbv zeta. cbn [snd].
  destruct (ReducerStrategy solver) eqn:E,
    (time_int_eqb (GetKind_TimeIntScheme config) EULER_IMPLICIT);
    cbn; rewrite ?E; repeat split.
Qed.

(** Loading an edge overwrites what an earlier edge loaded, and reads the
    solver only through the flow variables. *)
Lemma Viscous_Residual_numerics_reload iEdge iEdge' numerics solver solver' :
  nodes solver' = nodes solver ->
  Viscous_Residual_numerics iEdge geometry TURB_SOL
    (Viscous_Residual_numerics iEdge' geometry TURB_SOL numerics config solver)
    config solver'
  = Viscous_Residual_numerics iEdge geometry TURB_SOL numerics config solver.
Proof.
  intros Hn. unfold Viscous_Residual_numerics. cbv zeta. rewrite Hn.
  destruct (turb_model_eqb (GetKind_Turb_Model config) SST
            || turb_model_eqb (GetKind_Turb_Model config) SST_SUST);
    reflexivity.
Qed.

Lemma scatter_LinSysRes iEdge res solver p v :
  LinSysRes (Viscous_Residual_scatter iEdge geometry config res solver) p v
  = if ReducerStrategy solver then LinSysRes solver p v
    else
      let iPoint := edges_GetNode geometry iEdge 0 in
      let jPoint := edges_GetNode geometry iEdge 1 in
      if Nat.ltb v (nVar solver) then
        LinSysRes solver p v
        - (if Nat.eqb p iPoint then residual res v else 0)
        + (if Nat.eqb p jPoint then residual res v else 0)
      else LinSysRes solver p v.
Proof.
  unfold Viscous_Residual_scatter, Viscous_Residual. cbv zeta. cbn [snd].
  destruct (ReducerStrategy solver),
    (time_int_eqb (GetKind_TimeIntScheme config) EULER_IMPLICIT);
    cbn -[Nat.ltb Nat.eqb]; try reflexivity;
    unfold SysVector.AddBlock, SysVector.SubtractBlock, nVar;
    cbn -[Nat.ltb Nat.eqb];
    destruct (Nat.eqb p (edges_GetNode geometry iEdge 0)),
      (Nat.eqb p (edges_GetNode geometry iEdge 1)),
      (Nat.ltb v (nDim solver + 2)); cbn [andb]; lra.
Qed.

Lemma scatter_EdgeFluxes iEdge res solver e v :
  EdgeFluxes (Viscous_Residual_scatter iEdge geometry config res solver) e v
  = if ReducerStrategy solver && Nat.eqb e iEdge && Nat.ltb v (nVar solver)
    then EdgeFluxes solver e v - residual res v
    else EdgeFluxes solver e v.
Proof.
  unfold Viscous_Residual_scatter, Viscous_Residual. cbv zeta. cbn [snd].
  destruct (ReducerStrategy solver),
    (time_int_eqb (GetKind_TimeIntScheme config) EULER_IMPLICIT);
    cbn -[Nat.ltb Nat.eqb]; reflexivity.
Qed.

Lemma scatter_Jacobian iEdge res solver bi bj iVar jVar :
  Jacobian (Viscous_Residual_scatter iEdge geometry config res solver)
    bi bj iVar jVar
  = if time_int_eqb (GetKind_TimeIntScheme config) EULER_IMPLICIT
    then SysMatrix.UpdateBlocksSub (nVar solver) (Jacobian solver)
           (edges_GetNode geometry iEdge 0) (edges_GetNode geometry iEdge 1)
           (jacobian_i res) (jacobian_j res) bi bj iVar jVar
    else Jacobian solver bi bj iVar jVar.
Proof.
  unfold Viscous_Residual_scatter, Viscous_Residual. cbv zeta. cbn [snd].
  destruct (ReducerStrategy solver),
    (time_int_eqb (GetKind_TimeIntScheme config) EULER_IMPLICIT);
    cbn -[Nat.ltb Nat.eqb]; reflexivity.
Qed.

(** X18.  In the direct mode the assembler is conservative: for an edge
    with two distinct endpoints the sum of the two endpoints' residuals
    is left as it was, row by row, and an edge whose endpoints coincide
    leaves the whole residual as it was. *)
Theorem Viscous_Residual_conserves iEdge numerics solver :
  ReducerStrategy solver = false ->
  let iPoint := edges_GetNode geometry iEdge 0 in
  let jPoint := edges_GetNode geometry iEdge 1 in
  let after :=
    snd (Viscous_Residual ComputeResidual iEdge geometry TURB_SOL numerics
           config solver) in
  (iPoint <> jPoint ->
   forall iVar,
     LinSysRes after iPoint iVar + LinSysRes after jPoint iVar
     = LinSysRes solver iPoint iVar + LinSysRes solver jPoint iVar)
  /\ (iPoint = jPoint ->
      forall kPoint iVar,
        LinSysRes after kPoint iVar = LinSysRes solver kPoint iVar).
Proof.
  intros Hdirect iPoint jPoint after.
  unfold after. rewrite Viscous_Residual_as_scatter. cbn [snd]. split.
  - intros Hne iVar. rewrite !scatter_LinSysRes, Hdirect. cbv zeta.
    fold iPoint jPoint. rewrite !Nat.eqb_refl.
    destruct (Nat.eqb_spec iPoint jPoint); [contradiction|].
    destruct (Nat.eqb_spec jPoint iPoint); [congruence|].
    destruct (Nat.ltb iVar (nVar solver)); lra.
  - intros Heq kPoint iVar. rewrite scatter_LinSysRes, Hdirect. cbv zeta.
    fold iPoint jPoint. rewrite <- Heq.
    destruct (Nat.eqb kPoint iPoint), (Nat.ltb iVar (nVar solver)); lra.
Qed.

(** X19.  The order in which two edges are assembled does not matter:
    the flux of an edge is computed from the flow variables alone, which
    the assembler never writes, and the two scatters commute, so the
    residual, the edge fluxes and the Jacobian come out the same entry
    by entry, in either accumulation mode. *)
Theorem Viscous_Residual_edges_commute numerics solver iEdge kEdge :
  let assemble iEdge (s : CNumerics * CNSSolver) :=
    Viscous_Residual ComputeResidual iEdge geometry TURB_SOL (fst s) config
      (snd s) in
  let both first second :=
    snd (assemble second (assemble first (numerics, solver))) in
  (forall iPoint iVar,
     LinSysRes (both iEdge kEdge) iPoint iVar
     = LinSysRes (both kEdge iEdge) iPoint iVar)
  /\ (forall edge iVar,
        EdgeFluxes (both iEdge kEdge) edge iVar
        = EdgeFluxes (both kEdge iEdge) edge iVar)
  /\ (forall iPoint jPoint iVar jVar,
        Jacobian (both iEdge kEdge) iPoint jPoint iVar jVar
        = Jacobian (both kEdge iEdge) iPoint jPoint iVar jVar).
Proof.
  intros assemble both.
  assert (Hboth : forall a b,
    both a b
    = Viscous_Residual_scatter b geometry config (flux b numerics solver)
        (Viscous_Residual_scatter a geometry config (flux a numerics solver)
           solver)).
  { intros a b. unfold both, assemble. cbn [fst snd].
    rewrite !Viscous_Residual_as_scatter.
    cbn [fst snd]. unfold Viscous_Residual_flux.
    rewrite Viscous_Residual_numerics_reload; [reflexivity|].
    apply Viscous_Residual_scatter_keeps. }
  rewrite !Hboth.
  set (r1 := flux iEdge numerics solver).
  set (r2 := flux kEdge numerics solver).
  assert (K : forall e r,
    nVar (Viscous_Residual_scatter e geometry config r solver) = nVar solver
    /\ ReducerStrategy (Viscous_Residual_scatter e geometry config r solver)
       = ReducerStrategy solver).
  { intros e r.
    destruct (Viscous_Residual_scatter_keeps e r solver) as (_ & Hn & Hr).
    unfold nVar. rewrite Hn. split; [reflexivity | exact Hr]. }
  split; [|split].
  - intros p v. rewrite !scatter_LinSysRes. cbv zeta.
    destruct (K iEdge r1) as [-> ->]. destruct (K kEdge r2) as [-> ->].
    destruct (ReducerStrategy solver); [reflexivity|].
    destruct (Nat.ltb v (nVar solver)); [|reflexivity].
    destruct (Nat.eqb p (edges_GetNode geometry iEdge 0)),
      (Nat.eqb p (edges_GetNode geometry iEdge 1)),
      (Nat.eqb p (edges_GetNode geometry kEdge 0)),
      (Nat.eqb p (edges_GetNode geometry kEdge 1)); lra.
  - intros e v. rewrite !scatter_EdgeFluxes.
    destruct (K iEdge r1) as [-> ->]. destruct (K kEdge r2) as [-> ->].
    destruct (ReducerStrategy solver); [|reflexivity]. cbn [andb].
    destruct (Nat.ltb v (nVar solver)); rewrite ?andb_false_r;
      [|reflexivity]. rewrite !andb_true_r.
    destruct (Nat.eqb e iEdge), (Nat.eqb e kEdge); lra.
  - intros bi bj iVar jVar. rewrite !scatter_Jacobian.
    unfold SysMatrix.UpdateBlocksSub. rewrite !scatter_Jacobian.
    destruct (K iEdge r1) as [-> _]. destruct (K kEdge r2) as [-> _].
    destruct (time_int_eqb (GetKind_TimeIntScheme config) EULER_IMPLICIT);
      [|reflexivity].
    unfold SysMatrix.UpdateBlocksSub.
    destruct (Nat.ltb iVar (nVar solver) && Nat.ltb jVar (nVar solver));
      [|reflexivity].
    destruct (Nat.eqb bi (edges_GetNode geometry iEdge 0)),
      (Nat.eqb bj (edges_GetNode geometry iEdge 1)),
      (Nat.eqb bi (edges_GetNode geometry iEdge 1)),
      (Nat.eqb bj (edges_GetNode geometry iEdge 0)),
      (Nat.eqb bi (edges_GetNode geometry kEdge 0)),
      (Nat.eqb bj (edges_GetNode geometry kEdge 1)),
      (Nat.eqb bi (edges_GetNode geometry kEdge 1)),
      (Nat.eqb bj (edges_GetNode geometry kEdge 0)); cbn [andb]; lra.
Qed.

End ViscousResidualOrder.

(** On [wall_geometry] the edge 0 joins the points 0 and 1: the flux 15
    leaves the first and enters the second, and 7 + 7 stays 14. *)
Lemma Viscous_Residual_conserves_on_shear :
  ReducerStrategy (shear_solver 5) = false
  /\ let after :=
       snd (Viscous_Residual shear_flux_kernel 0 wall_geometry no_turbulence
              blank_numerics hot_wall_config (shear_solver 5)) in
     LinSysRes after 0%nat 0%nat + LinSysRes after 1%nat 0%nat = 7 + 7.
Proof.
  split; [reflexivity|]. intros after.
  destruct (Viscous_Residual_conserves shear_flux_kernel wall_geometry
              no_turbulence hot_wall_config 0 blank_numerics (shear_solver 5)
              eq_refl) as [H _].
  apply (H ltac:(cbn; lia) 0%nat).
Defined.

(** * The low-dissipation sensor pass *)

Section RoeDissipationFacts.

Variable PointState : Type.
Variable SetRoe_Dissipation_FD : PointState -> su2double -> PointState.
Variable SetRoe_Dissipation_NTS :
  PointState -> su2double -> su2double -> PointState.
Variable GetWall_Distance : nat -> su2double.
Variable GetMaxLength : nat -> su2double.
Variable GetKind_RoeLowDiss : ENUM_ROELOWDISS.
Variable GetConst_DES : su2double.
Variable NDEBUG : bool.

Local Abbreviation body :=
  (RoeDissipation.SetRoe_Dissipation_body PointState SetRoe_Dissipation_FD
     SetRoe_Dissipation_NTS GetWall_Distance GetMaxLength GetKind_RoeLowDiss
     GetConst_DES NDEBUG).
Local Abbreviation run :=
  (RoeDissipation.SetRoe_Dissipation PointState SetRoe_Dissipation_FD
     SetRoe_Dissipation_NTS GetWall_Distance GetMaxLength GetKind_RoeLowDiss
     GetConst_DES NDEBUG).
Local Abbreviation sensed :=
  (RoeDissipation.sensed PointState SetRoe_Dissipation_FD
     SetRoe_Dissipation_NTS GetWall_Distance GetMaxLength GetKind_RoeLowDiss
     GetConst_DES).

(** The points at which the assertion of the NTS branch fails. *)
Local Abbreviation fails iPoint :=
  (negb NDEBUG
   && (roe_eqb GetKind_RoeLowDiss NTS || roe_eqb GetKind_RoeLowDiss NTS_DUCROS)
   && if Rgt_dec (GetMaxLength iPoint) 0 then false else true).

Lemma SetRoe_Dissipation_body_outcome nodes iPoint :
  match body nodes iPoint with
  | Ok nodes' =>
      fails iPoint = false
      /\ forall k,
           nodes' k
           = if Nat.eqb k iPoint then sensed nodes iPoint else nodes k
  | Fatal _ => fails iPoint = true
  end.
Proof.
  unfold RoeDissipation.SetRoe_Dissipation_body, RoeDissipation.sensed,
    PrimitiveUpdate.at_point.
  cbv zeta.
  destruct GetKind_RoeLowDiss, NDEBUG; cbn [roe_eqb orb andb negb];
    try destruct (Rgt_dec (GetMaxLength iPoint) 0);
    try reflexivity;
    (split; [reflexivity|]); intros k;
    (destruct (Nat.eqb k iPoint) eqn:E;
     [apply Nat.eqb_eq in E; subst k|]; reflexivity).
Qed.

(** X20.  [SetRoe_Dissipation] aborts exactly when assertions are
    compiled in, the scheme is NTS or NTS_DUCROS and some point has a
    maximum cell length that is not positive; with the FD kinds, with any
    other kind or in a build with NDEBUG it always returns. *)
Theorem SetRoe_Dissipation_aborts_iff nPoint nodes :
  (exists message,
     RoeDissipation.SetRoe_Dissipation PointState SetRoe_Dissipation_FD
       SetRoe_Dissipation_NTS GetWall_Distance GetMaxLength GetKind_RoeLowDiss
       GetConst_DES NDEBUG nPoint nodes = Fatal message)
  <-> (NDEBUG = false
       /\ (GetKind_RoeLowDiss = NTS \/ GetKind_RoeLowDiss = NTS_DUCROS)
       /\ exists iPoint, (iPoint < nPoint)%nat /\ GetMaxLength iPoint <= 0).
Proof.
  unfold RoeDissipation.SetRoe_Dissipation, for_loop_result.
  rewrite (for_each_result_fatal_iff body (fun iPoint => fails iPoint)).
  - rewrite existsb_exists. split.
    + intros (p & Hin & Hp). apply in_seq in Hin.
      apply andb_true_iff in Hp. destruct Hp as [Hp Hd].
      apply andb_true_iff in Hp. destruct Hp as [Hn Hk].
      split; [destruct NDEBUG; [discriminate | reflexivity]|]. split.
      * destruct GetKind_RoeLowDiss; try discriminate; [left | right];
          reflexivity.
      * exists p. split; [lia|].
        destruct (Rgt_dec (GetMaxLength p) 0); [discriminate | lra].
    + intros (Hn & Hk & p & Hlt & Hd). exists p.
      split; [apply in_seq; lia|]. rewrite Hn.
      destruct (Rgt_dec (GetMaxLength p) 0); [lra|].
      destruct Hk as [-> | ->]; reflexivity.
  - intros s i Hf. pose proof (SetRoe_Dissipation_body_outcome s i) as H.
    destruct (body s i) as [s'|m]; [|exists m; reflexivity].
    destruct H as [H _]. rewrite H in Hf. discriminate.
  - intros s i Hf. pose proof (SetRoe_Dissipation_body_outcome s i) as H.
    destruct (body s i) as [s'|m]; [exists s'; reflexivity|].
    rewrite H in Hf. discriminate.
Qed.

Lemma SetRoe_Dissipation_loop n nodes :
  match for_loop_result n body nodes with
  | Ok nodes' =>
      forall iPoint,
        nodes' iPoint
        = if Nat.ltb iPoint n then sensed nodes iPoint else nodes iPoint
  | Fatal _ => True
  end.
Proof.
  induction n as [|n IH].
  - cbn. intros p. reflexivity.
  - rewrite for_loop_result_S.
    destruct (for_loop_result n body nodes) as [nodes_n|m]; [|exact I].
    pose proof (SetRoe_Dissipation_body_outcome nodes_n n) as Hb.
    destruct (body nodes_n n) as [s'|m']; [|exact I].
    destruct Hb as [_ Hs']. intros p. rewrite Hs'.
    destruct (Nat.eqb_spec p n) as [->|Hne].
    + replace (Nat.ltb n (S n)) with true by (symmetry; apply Nat.ltb_lt; lia).
      unfold RoeDissipation.sensed. rewrite IH, Nat.ltb_irrefl. reflexivity.
    + rewrite IH.
      destruct (Nat.ltb_spec p n), (Nat.ltb_spec p (S n)); try lia;
        reflexivity.
Qed.

(** X21.  When [SetRoe_Dissipation] returns, every point below [nPoint]
    holds the sensor computed from its own state on entry (the FD setter
    with the point's wall distance for FD and FD_DUCROS, the NTS setter
    with the point's maximum cell length and the DES constant for NTS
    and NTS_DUCROS), and every other point is left as it was; with a
    kind that is none of the four the pass changes nothing. *)
Theorem SetRoe_Dissipation_per_point nPoint nodes :
  match
    RoeDissipation.SetRoe_Dissipation PointState SetRoe_Dissipation_FD
      SetRoe_Dissipation_NTS GetWall_Distance GetMaxLength GetKind_RoeLowDiss
      GetConst_DES NDEBUG nPoint nodes
  with
  | Ok nodes' =>
      (forall iPoint,
         nodes' iPoint
         = if Nat.ltb iPoint nPoint
           then RoeDissipation.sensed PointState SetRoe_Dissipation_FD
                  SetRoe_Dissipation_NTS GetWall_Distance GetMaxLength
                  GetKind_RoeLowDiss GetConst_DES nodes iPoint
           else nodes iPoint)
      /\ (GetKind_RoeLowDiss = OTHER_ROELOWDISS ->
          forall iPoint, nodes' iPoint = nodes iPoint)
  | Fatal _ => True
  end.
Proof.
  pose proof (SetRoe_Dissipation_loop nPoint nodes) as H.
  unfold RoeDissipation.SetRoe_Dissipation.
  destruct (for_loop_result nPoint body nodes) as [nodes'|m]; [|exact I].
  split; [exact H|].
  intros Hk p. rewrite H. unfold RoeDissipation.sensed. rewrite Hk.
  destruct (Nat.ltb p nPoint); reflexivity.
Qed.

End RoeDissipationFacts.

(** * The strain and vorticity maxima *)

Section RunningMaximum.

Variable f : nat -> R.

Local Abbreviation running share a :=
  (fold_left (fun m p => Rmax m (f p)) share a).
Local Abbreviation reduced shares A :=
  (fold_left (fun M share => Rmax M (running share 0.0)) shares A).

Lemma running_max_spec share : forall a,
  a <= running share a
  /\ (forall p, In p share -> f p <= running share a)
  /\ (running share a = a \/ exists p, In p share /\ running share a = f p).
Proof.
  induction share as [|q share IH]; intros a; cbn [fold_left].
  - split; [lra|]. split; [intros p []|]. left. reflexivity.
  - destruct (IH (Rmax a (f q))) as (Ha & Hall & Hatt).
    pose proof (Rmax_l a (f q)). pose proof (Rmax_r a (f q)).
    split; [lra|]. split.
    + intros p [<-|Hin]; [lra | apply Hall, Hin].
    + destruct Hatt as [E | (p & Hin & E)].
      * rewrite E. unfold Rmax. destruct (Rle_dec a (f q)).
        -- right. exists q. split; [left; reflexivity | reflexivity].
        -- left. reflexivity.
      * right. exists p. split; [right; exact Hin | exact E].
Qed.

Lemma reduced_max_spec shares : forall A,
  0 <= A ->
  A <= reduced shares A
  /\ (forall p, In p (concat shares) -> f p <= reduced shares A)
  /\ (reduced shares A = A \/ reduced shares A = 0
      \/ exists p, In p (concat shares) /\ reduced shares A = f p).
Proof.
  induction shares as [|share shares IH]; intros A HA; cbn [fold_left concat].
  - split; [lra|]. split; [intros p []|]. left. reflexivity.
  - destruct (running_max_spec share 0.0) as (Ha & Hall & Hatt).
    pose proof (Rmax_l A (running share 0.0)).
    pose proof (Rmax_r A (running share 0.0)).
    destruct (IH (Rmax A (running share 0.0))) as (HA' & Hall' & Hatt');
      [lra|].
    split; [lra|]. split.
    + intros p Hin. apply in_app_or in Hin. destruct Hin as [Hin|Hin].
      * eapply Rle_trans; [apply Hall, Hin|].
        eapply Rle_trans; [exact H0 | exact HA'].
      * apply Hall', Hin.
    + destruct Hatt' as [E | [E | (p & Hin & E)]].
      * rewrite E.
        assert (HM : Rmax A (running share 0.0) = A
                     \/ Rmax A (running share 0.0) = running share 0.0).
        { unfold Rmax. destruct (Rle_dec _ _); [right | left]; reflexivity. }
        destruct HM as [HM|HM]; [left; exact HM|]. rewrite HM.
        destruct Hatt as [E0 | (p & Hin & E0)].
        -- right. left. rewrite E0. lra.
        -- right. right. exists p.
           split; [apply in_or_app; left; exact Hin | exact E0].
      * right. left. exact E.
      * right. right. exists p.
        split; [apply in_or_app; right; exact Hin | exact E].
Qed.

End RunningMaximum.

Lemma Preprocessing_maxima_components nodes shares :
  Maxima.Preprocessing_maxima nodes shares
  = (fold_left
       (fun M share =>
          Rmax M (fold_left (fun m p => Rmax m (GetStrainMag nodes p)) share 0.0))
       shares 0.0,
     fold_left
       (fun M share =>
          Rmax M (fold_left (fun m p => Rmax m (Maxima.Omega nodes p)) share 0.0))
       shares 0.0).
Proof.
  unfold Maxima.Preprocessing_maxima.
  assert (Hshare : forall share a b,
    fold_left (Maxima.body nodes) share (a, b)
    = (fold_left (fun m p => Rmax m (GetStrainMag nodes p)) share a,
       fold_left (fun m p => Rmax m (Maxima.Omega nodes p)) share b)).
  { induction share as [|p share IH]; intros a b; [reflexivity|].
    cbn [fold_left Maxima.body]. apply IH. }
  assert (Hthreads : forall A B,
    fold_left (Maxima.thread nodes) shares (A, B)
    = (fold_left
         (fun M share =>
            Rmax M
              (fold_left (fun m p => Rmax m (GetStrainMag nodes p)) share 0.0))
         shares A,
       fold_left
         (fun M share =>
            Rmax M
              (fold_left (fun m p => Rmax m (Maxima.Omega nodes p)) share 0.0))
         shares B)).
  { induction shares as [|share shares IH]; intros A B; [reflexivity|].
    cbn [fold_left]. unfold Maxima.thread at 2. rewrite Hshare. apply IH. }
  apply Hthreads.
Qed.

(** The greatest of 0 and the values of [f] below [nPoint] is unique. *)
Lemma maximum_unique (f : nat -> su2double) nPoint M M' :
  0 <= M -> (forall p, (p < nPoint)%nat -> f p <= M) ->
  (M = 0 \/ exists p, (p < nPoint)%nat /\ M = f p) ->
  0 <= M' -> (forall p, (p < nPoint)%nat -> f p <= M') ->
  (M' = 0 \/ exists p, (p < nPoint)%nat /\ M' = f p) ->
  M = M'.
Proof.
  intros H0 Hall Hatt H0' Hall' Hatt'.
  apply Rle_antisym.
  - destruct Hatt as [->|(p & Hp & ->)]; [exact H0' | apply Hall', Hp].
  - destruct Hatt' as [->|(p & Hp & ->)]; [exact H0 | apply Hall, Hp].
Qed.

Lemma sequential_schedule nPoint :
  Maxima.schedule nPoint (Maxima.sequential nPoint).
Proof.
  intros p. unfold Maxima.sequential. cbn [concat]. rewrite app_nil_r.
  rewrite in_seq. lia.
Qed.

Lemma Preprocessing_maxima_spec nodes nPoint shares :
  Maxima.schedule nPoint shares ->
  let maximum (f : nat -> su2double) (M : su2double) :=
    0 <= M
    /\ (forall iPoint, (iPoint < nPoint)%nat -> f iPoint <= M)
    /\ (M = 0 \/ exists iPoint, (iPoint < nPoint)%nat /\ M = f iPoint) in
  maximum (GetStrainMag nodes) (fst (Maxima.Preprocessing_maxima nodes shares))
  /\ maximum (Maxima.Omega nodes)
       (snd (Maxima.Preprocessing_maxima nodes shares)).
Proof.
  intros Hs maximum. rewrite Preprocessing_maxima_components. cbn [fst snd].
  assert (H0 : 0 <= 0.0) by lra.
  assert (Hz : 0.0 = 0) by lra.
  split.
  - destruct (reduced_max_spec (GetStrainMag nodes) shares 0.0 H0)
      as (HA & Hall & Hatt).
    split; [lra|]. split.
    + intros p Hp. apply Hall, Hs, Hp.
    + destruct Hatt as [E | [E | (p & Hin & E)]];
        [left; rewrite E; exact Hz | left; exact E |].
      right. exists p. split; [apply Hs, Hin | exact E].
  - destruct (reduced_max_spec (Maxima.Omega nodes) shares 0.0 H0)
      as (HA & Hall & Hatt).
    split; [lra|]. split.
    + intros p Hp. apply Hall, Hs, Hp.
    + destruct Hatt as [E | [E | (p & Hin & E)]];
        [left; rewrite E; exact Hz | left; exact E |].
      right. exists p. split; [apply Hs, Hin | exact E].
Qed.

(** X22.  However the points of a rank are dealt to the threads and in
    whatever order the threads reach the critical section, the solver's
    [StrainMag_Max] is the greatest of 0 and the strain magnitudes of the
    points below [nPoint], and [Omega_Max] the greatest of 0 and their
    vorticity magnitudes: neither is negative, each bounds every point,
    each is 0 or the value of some point, and both are what the build
    without OpenMP computes. *)
Theorem Preprocessing_maxima_any_schedule nodes nPoint shares :
  Maxima.schedule nPoint shares ->
  let StrainMag_Max := fst (Maxima.Preprocessing_maxima nodes shares) in
  let Omega_Max := snd (Maxima.Preprocessing_maxima nodes shares) in
  (0 <= StrainMag_Max
   /\ (forall iPoint, (iPoint < nPoint)%nat ->
         GetStrainMag nodes iPoint <= StrainMag_Max)
   /\ (StrainMag_Max = 0
       \/ exists iPoint, (iPoint < nPoint)%nat
            /\ StrainMag_Max = GetStrainMag nodes iPoint))
  /\ (0 <= Omega_Max
      /\ (forall iPoint, (iPoint < nPoint)%nat ->
            Maxima.Omega nodes iPoint <= Omega_Max)
      /\ (Omega_Max = 0
          \/ exists iPoint, (iPoint < nPoint)%nat
               /\ Omega_Max = Maxima.Omega nodes iPoint))
  /\ Maxima.Preprocessing_maxima nodes shares
     = Maxima.Preprocessing_maxima nodes (Maxima.sequential nPoint).
Proof.
  intros Hs StrainMag_Max Omega_Max.
  destruct (Preprocessing_maxima_spec nodes nPoint shares Hs)
    as ((S0 & Sall & Satt) & (O0 & Oall & Oatt)).
  destruct (Preprocessing_maxima_spec nodes nPoint (Maxima.sequential nPoint)
              (sequential_schedule nPoint))
    as ((S0' & Sall' & Satt') & (O0' & Oall' & Oatt')).
  split; [repeat split; assumption|]. split; [repeat split; assumption|].
  rewrite (surjective_pairing (Maxima.Preprocessing_maxima nodes shares)).
  rewrite (surjective_pairing
             (Maxima.Preprocessing_maxima nodes (Maxima.sequential nPoint))).
  f_equal.
  - apply (maximum_unique (GetStrainMag nodes) nPoint); assumption.
  - apply (maximum_unique (Maxima.Omega nodes) nPoint); assumption.
Qed.

(** The four points dealt alternately to two threads: the maxima are
    those of the sequential loop. *)
Lemma Preprocessing_maxima_on_two_threads :
  Maxima.schedule 4 [[0; 2]; [1; 3]]%nat
  /\ Maxima.Preprocessing_maxima four_point_strain [[0; 2]; [1; 3]]%nat
     = Maxima.Preprocessing_maxima four_point_strain (Maxima.sequential 4).
Proof.
  assert (Hs : Maxima.schedule 4 [[0; 2]; [1; 3]]%nat).
  { intros p. cbn. lia. }
  split; [exact Hs|].
  apply (Preprocessing_maxima_any_schedule four_point_strain 4
           [[0; 2]; [1; 3]]%nat Hs).
Defined.
